(** * CAPL compiler: parser, path extractor and optimizer

    A shallow embedding of [6-Parse-CAPL-To-YAML.py].

    Conventions of the embedding.
    - Python [str] is [string].  The embedding covers ASCII text: the
      character classes below ([\s], [\w], [\d], [str.strip], [str.lower])
      are the ASCII parts of Python's Unicode classes.
    - [print] appends a line to an output log carried by the parser state.
    - A Python [dict] is an association list in insertion order (Python
      dictionaries iterate in insertion order, and the YAML dump keeps it).
    - A Python [set] of strings has no specified iteration order: CPython
      iterates in hash-table order, and string hashes are salted per process.
      The order is therefore a parameter [set_order] of every function whose
      source iterates over a set.
    - The [while] loops of the parser run on fuel; [parse_file] supplies
      enough fuel for every input (see [parse_file_total]).
    - The embedding describes the runs in which the interpreter raises
      nothing: the recursion limit (reached by some hundreds of nested
      Decisions) and the digit limit of [int] (4300 digits) are not part
      of it, and [parse_files] has no counterpart of the [try] of [main],
      which skips a file whose parsing raises.
    - Regular expressions are lists of tokens read off the patterns of the
      source, matched greedily (see [greedy_match_decides]); classes and
      case folding are those of the patterns on ASCII text. *)

From Stdlib Require Import String Ascii List Bool Arith NArith ZArith Lia.
From Stdlib Require Import Permutation Sorted.
Import ListNotations.

Local Open Scope string_scope.
Local Open Scope list_scope.

Notation "a ^^ b" := (String.append a b) (at level 60, right associativity).

(** ** Python string primitives *)

Module Py.

Definition is_space (c : ascii) : bool :=
  let n := nat_of_ascii c in
  ((9 <=? n) && (n <=? 13) || (28 <=? n) && (n <=? 32))%nat.

Definition is_upper (c : ascii) : bool :=
  let n := nat_of_ascii c in ((65 <=? n) && (n <=? 90))%nat.

Definition is_lower (c : ascii) : bool :=
  let n := nat_of_ascii c in ((97 <=? n) && (n <=? 122))%nat.

Definition is_digit (c : ascii) : bool :=
  let n := nat_of_ascii c in ((48 <=? n) && (n <=? 57))%nat.

Definition is_word (c : ascii) : bool :=
  is_upper c || is_lower c || is_digit c || (nat_of_ascii c =? 95)%nat.

Definition lower_char (c : ascii) : ascii :=
  if is_upper c then ascii_of_nat (nat_of_ascii c + 32) else c.

(** [s.lower()] *)
Fixpoint lower (s : string) : string :=
  match s with
  | EmptyString => EmptyString
  | String c s' => String (lower_char c) (lower s')
  end.

(** [s.lstrip()] *)
Fixpoint lstrip (s : string) : string :=
  match s with
  | EmptyString => EmptyString
  | String c s' => if is_space c then lstrip s' else s
  end.

(** [s.rstrip()] *)
Fixpoint rstrip (s : string) : string :=
  match s with
  | EmptyString => EmptyString
  | String c s' =>
      match rstrip s' with
      | EmptyString => if is_space c then EmptyString else String c EmptyString
      | r => String c r
      end
  end.

(** [s.strip()] *)
Definition strip (s : string) : string := rstrip (lstrip s).

(** [s.startswith(p)] *)
Definition startswith (s p : string) : bool := String.prefix p s.

(** [s[n:]] *)
Fixpoint drop (n : nat) (s : string) : string :=
  match n, s with
  | O, _ => s
  | S _, EmptyString => EmptyString
  | S n', String _ s' => drop n' s'
  end.

(** [sub in s] *)
Fixpoint contains (sub s : string) : bool :=
  if String.prefix sub s then true
  else match s with
       | EmptyString => false
       | String _ s' => contains sub s'
       end.

(** [sep.join(l)] *)
Definition join (sep : string) (l : list string) : string :=
  String.concat sep l.

Fixpoint rev_acc (s acc : string) : string :=
  match s with
  | EmptyString => acc
  | String c s' => rev_acc s' (String c acc)
  end.

(** [s.split(sep)] for a non-empty separator: the pieces between the
    non-overlapping occurrences of [sep], found left to right.  [skip]
    counts the characters of a matched separator still to be passed
    over; [cur] is the current piece, reversed. *)
Fixpoint split_aux (sep s : string) (skip : nat) (cur : string)
  : list string :=
  match s with
  | EmptyString => [rev_acc cur EmptyString]
  | String c s' =>
      match skip with
      | S k => split_aux sep s' k cur
      | O =>
          if String.prefix sep s
          then rev_acc cur EmptyString
                 :: split_aux sep s' (String.length sep - 1) EmptyString
          else split_aux sep s' O (String c cur)
      end
  end.

Definition split (s sep : string) : list string :=
  split_aux sep s O EmptyString.

(** [s.replace(old, new)] for a non-empty [old] (the parser only
    replaces variable names, which match [\w+]). *)
Fixpoint replace_aux (old new s : string) (skip : nat) : string :=
  match s with
  | EmptyString => EmptyString
  | String c s' =>
      match skip with
      | S k => replace_aux old new s' k
      | O =>
          if String.prefix old s
          then new ^^ replace_aux old new s' (String.length old - 1)
          else String c (replace_aux old new s' O)
      end
  end.

Definition replace (s old new : string) : string :=
  replace_aux old new s O.

(** Truth value of a string: non-empty. *)
Definition truthy (s : string) : bool :=
  match s with EmptyString => false | _ => true end.

(** Truth value of an [Optional[str]]: neither [None] nor empty. *)
Definition truthy_opt (o : option string) : bool :=
  match o with Some s => truthy s | None => false end.

(** [x in l] for a list of strings. *)
Definition mem (x : string) (l : list string) : bool :=
  existsb (String.eqb x) l.

(** [l.sort()] / [sorted(l)] on strings: Python compares strings by code
    point, lexicographically; the result is the ordered permutation of
    the input (equal strings are indistinguishable, so stability is not
    observable). *)
Fixpoint insert (x : string) (l : list string) : list string :=
  match l with
  | [] => [x]
  | y :: l' => if String.leb x y then x :: l else y :: insert x l'
  end.

Fixpoint sort (l : list string) : list string :=
  match l with
  | [] => []
  | x :: l' => insert x (sort l')
  end.

(** [int(s)] on a string of decimal digits (of at most 4300 digits: on a
    longer one the interpreter raises [ValueError]). *)
Definition digit_val (c : ascii) : Z := Z.of_nat (nat_of_ascii c - 48).

Fixpoint int_aux (s : string) (acc : Z) : Z :=
  match s with
  | EmptyString => acc
  | String c s' => int_aux s' (10 * acc + digit_val c)%Z
  end.

Definition int (s : string) : Z := int_aux s 0%Z.

(** [str(n)] for a natural number. *)
Definition digit_char (d : nat) : ascii := ascii_of_nat (48 + d).

Fixpoint str_aux (fuel n : nat) (acc : string) : string :=
  match fuel with
  | O => acc
  | S fuel' =>
      let acc' := String (digit_char (n mod 10)) acc in
      if (n / 10 =? 0)%nat then acc' else str_aux fuel' (n / 10) acc'
  end.

Definition str (n : nat) : string := str_aux (S n) n EmptyString.

End Py.

(** ** Regular expressions

    The patterns of the source are sequences of literals, groups of
    literal alternatives and repeated character classes.  The matcher
    below takes, at each token, the choice that [re.match] tries first
    (the longest run of a class, the first alternative that matches) and
    does not backtrack; on the patterns of the source nothing is lost by
    that (see [greedy_match_decides]). *)

Module Re.

Inductive cclass : Type :=
| CSpace                 (* \s *)
| CWord                  (* \w *)
| CDigit                 (* \d *)
| CNot (c : ascii).      (* [^c] *)

Inductive tok : Type :=
| Lit (s : string)                        (* literal text *)
| Alt (capture : bool) (alts : list string) (* (a|b|c) or (?:a|b|c) *)
| Plus (capture : bool) (c : cclass)      (* c+ or (c+) *)
| Star (c : cclass).                      (* c* *)

Definition in_class (k : cclass) (c : ascii) : bool :=
  match k with
  | CSpace => Py.is_space c
  | CWord => Py.is_word c
  | CDigit => Py.is_digit c
  | CNot x => negb (Ascii.eqb c x)
  end.

(** Character equality, under [re.IGNORECASE] when [ci]. *)
Definition char_eq (ci : bool) (a c : ascii) : bool :=
  if ci then Ascii.eqb (Py.lower_char a) (Py.lower_char c)
  else Ascii.eqb a c.

(** Match literal [l] at the start of [s]: the matched text and the rest. *)
Fixpoint lit_match (ci : bool) (l s : string) : option (string * string) :=
  match l with
  | EmptyString => Some (EmptyString, s)
  | String a l' =>
      match s with
      | EmptyString => None
      | String c s' =>
          if char_eq ci a c then
            match lit_match ci l' s' with
            | Some (m, r) => Some (String c m, r)
            | None => None
            end
          else None
      end
  end.

Fixpoint alt_match (ci : bool) (alts : list string) (s : string)
  : option (string * string) :=
  match alts with
  | [] => None
  | a :: alts' =>
      match lit_match ci a s with
      | Some r => Some r
      | None => alt_match ci alts' s
      end
  end.

(** The longest prefix of [s] made of characters of class [k]. *)
Fixpoint span (k : cclass) (s : string) : string * string :=
  match s with
  | EmptyString => (EmptyString, EmptyString)
  | String c s' =>
      if in_class k c then
        let (m, r) := span k s' in (String c m, r)
      else (EmptyString, s)
  end.

Definition keep (capture : bool) (m : string) (o : option (list string))
  : option (list string) :=
  match o with
  | Some gs => Some (if capture then m :: gs else gs)
  | None => None
  end.

(** [re.match(p, s)]: the captured groups, in order, when a prefix of
    [s] matches [p]. *)
Fixpoint re_match (ci : bool) (p : list tok) (s : string)
  : option (list string) :=
  match p with
  | [] => Some []
  | Lit l :: p' =>
      match lit_match ci l s with
      | Some (_, r) => re_match ci p' r
      | None => None
      end
  | Alt capture alts :: p' =>
      match alt_match ci alts s with
      | Some (m, r) => keep capture m (re_match ci p' r)
      | None => None
      end
  | Plus capture k :: p' =>
      let (m, r) := span k s in
      if Py.truthy m then keep capture m (re_match ci p' r) else None
  | Star k :: p' =>
      let (_, r) := span k s in re_match ci p' r
  end.

End Re.


(** ** Data model *)

(** [class Condition] *)
Module Condition.
Record t : Type := mk {
  type : string;
  operator : string;
  value : string;
  guid : option string;
  is_negated : bool
}.
End Condition.

(** [class Action] *)
Module Action.
Record t : Type := mk {
  type : string;
  value : option string;
  is_or : bool
}.
End Action.

(** [class PolicyBranch] and [class IfStatement] *)
Inductive PolicyBranch : Type := mkBranch {
  conditions : list Condition.t;
  actions : list Action.t;
  state : string;
  nested_if : option IfStatement
}
with IfStatement : Type := mkIf {
  if_branch : PolicyBranch;
  else_if_branches : list PolicyBranch;
  else_branch : option PolicyBranch
}.

(** [PolicyBranch()] *)
Definition new_branch : PolicyBranch := mkBranch [] [] "enabled" None.

(** [class Variable] *)
Module Var.
Record t : Type := mk {
  name : string;
  display_name : string;
  guid : string
}.
End Var.

(** [class PolicyPath] *)
Module PolicyPath.
Record t : Type := mk {
  conditions : list Condition.t;
  actions : list Action.t;
  state : string
}.
End PolicyPath.

(** ** Dictionaries: association lists in insertion order *)

Module Dict.

Definition t (V : Type) : Type := list (string * V).

Fixpoint get {V : Type} (d : t V) (k : string) : option V :=
  match d with
  | [] => None
  | (k', v) :: d' => if String.eqb k' k then Some v else get d' k
  end.

(** [d[k] = v]: an existing key keeps its position. *)
Fixpoint set {V : Type} (d : t V) (k : string) (v : V) : t V :=
  match d with
  | [] => [(k, v)]
  | (k', v') :: d' =>
      if String.eqb k' k then (k, v) :: d' else (k', v') :: set d' k v
  end.

(** [del d[k]] *)
Fixpoint del {V : Type} (d : t V) (k : string) : t V :=
  match d with
  | [] => []
  | (k', v) :: d' => if String.eqb k' k then d' else (k', v) :: del d' k
  end.

(** [d[k].append(x)] on a [defaultdict(list)]. *)
Definition append {V : Type} (d : t (list V)) (k : string) (x : V)
  : t (list V) :=
  match get d k with
  | Some l => set d k (l ++ [x])
  | None => set d k [x]
  end.

Definition keys {V : Type} (d : t V) : list string := map fst d.

End Dict.

(** ** CAPLParser *)

Definition dquote : string := String (ascii_of_nat 34) EmptyString.

Module CAPLParser.

Import Re.

Record t : Type := mk {
  variables : Dict.t Var.t;
  line_number : nat;
  lines : list string;
  output : list string        (* lines written by [print] *)
}.

(** [CAPLParser()] *)
Definition init : t := mk [] 0 [] [].

Definition advance (self : t) : t :=
  mk (variables self) (line_number self + 1) (lines self) (output self).

Definition print (self : t) (msgs : list string) : t :=
  mk (variables self) (line_number self) (lines self) (output self ++ msgs).

Definition current_line_stripped (self : t) : string :=
  if Nat.leb (length (lines self)) (line_number self) then EmptyString
  else Py.strip (nth (line_number self) (lines self) EmptyString).

Definition current_line_indent (self : t) : nat :=
  if Nat.leb (length (lines self)) (line_number self) then 0
  else
    let line := nth (line_number self) (lines self) EmptyString in
    String.length line - String.length (Py.lstrip line).

(** [m.group(i)] *)
Definition group (m : list string) (i : nat) : string :=
  nth (i - 1) m EmptyString.

Definition c_quote : ascii := ascii_of_nat 34.
Definition c_rbracket : ascii := ascii_of_nat 93.

(** [<q>([^<q>]+)<q>\s*\[([^\]]+)\]], where [<q>] stands for the
    double-quote character *)
Definition re_name_guid : list tok :=
  [Lit dquote; Plus true (CNot c_quote); Lit dquote; Star CSpace;
   Lit "["; Plus true (CNot c_rbracket); Lit "]"].

(** [VAR\s+(\w+)\s*=\s*<q>([^<q>]+)<q>\s*\[([^\]]+)\]] *)
Definition re_var : list tok :=
  [Lit "VAR"; Plus false CSpace; Plus true CWord; Star CSpace; Lit "=";
   Star CSpace] ++ re_name_guid.

Definition parse_variable (self : t) : t :=
  let line := current_line_stripped self in
  let self :=
    match re_match false re_var line with
    | Some m =>
        let var_name := group m 1 in
        mk (Dict.set (variables self) var_name
              (Var.mk var_name (group m 2) (group m 3)))
           (line_number self) (lines self) (output self)
    | None => self
    end in
  advance self.

(** [(user|app|platform|device|location|client)\s+is\s+(\w+)] *)
Definition re_is : list tok :=
  [Alt true ["user"; "app"; "platform"; "device"; "location"; "client"];
   Plus false CSpace; Lit "is"; Plus false CSpace; Plus true CWord].

(** [(user)\s+NOT\s+in\s+(group|role)\s+<q>([^<q>]+)<q>\s*\[([^\]]+)\]] *)
Definition re_user_not_in : list tok :=
  [Alt true ["user"]; Plus false CSpace; Lit "NOT"; Plus false CSpace;
   Lit "in"; Plus false CSpace; Alt true ["group"; "role"];
   Plus false CSpace] ++ re_name_guid.

(** [(user)\s+in\s+(group|role)\s+<q>([^<q>]+)<q>\s*\[([^\]]+)\]] *)
Definition re_user_in : list tok :=
  [Alt true ["user"]; Plus false CSpace; Lit "in"; Plus false CSpace;
   Alt true ["group"; "role"]; Plus false CSpace] ++ re_name_guid.

(** [(app|location)\s+in\s+<q>([^<q>]+)<q>\s*\[([^\]]+)\]] *)
Definition re_in : list tok :=
  [Alt true ["app"; "location"]; Plus false CSpace; Lit "in";
   Plus false CSpace] ++ re_name_guid.

(** [(location)\s+NOT\s+is\s+(\w+)] and [(client)\s+NOT\s+is\s+(\w+)] *)
Definition re_not_is (kind : string) : list tok :=
  [Alt true [kind]; Plus false CSpace; Lit "NOT"; Plus false CSpace;
   Lit "is"; Plus false CSpace; Plus true CWord].

(** [(platform|client)\s+is\s+(\w+)], with the first group capturing or
    not ([(?:platform|client)...]). *)
Definition re_or_part (capture : bool) : list tok :=
  [Alt capture ["platform"; "client"]; Plus false CSpace; Lit "is";
   Plus false CSpace; Plus true CWord].

(** [(signin-risk|user-risk)\s+is\s+(\w+)] *)
Definition re_risk : list tok :=
  [Alt true ["signin-risk"; "user-risk"]; Plus false CSpace; Lit "is";
   Plus false CSpace; Plus true CWord].

(** [(device)\s+is\s+(\w+)] *)
Definition re_device : list tok :=
  [Alt true ["device"]; Plus false CSpace; Lit "is"; Plus false CSpace;
   Plus true CWord].

(** The replacement of the declared variable names, in declaration order. *)
Definition substitute (vars : Dict.t Var.t) (text : string) : string :=
  fold_left
    (fun text (kv : string * Var.t) =>
       let (var_name, var_obj) := kv in
       if Py.contains var_name text then
         Py.replace text var_name
           (dquote ^^ Var.display_name var_obj ^^ dquote ^^ " [" ^^
              Var.guid var_obj ^^ "]")
       else text)
    vars text.

(** The [OR] rule: the values of the parts that match, when the first
    part does. *)
Definition or_rule (text : string) : option Condition.t :=
  if Py.contains " OR " text then
    let parts := map Py.strip (Py.split text " OR ") in
    let first := nth 0 parts EmptyString in
    match re_match true (re_or_part true) first with
    | Some m =>
        let values :=
          flat_map
            (fun part =>
               match re_match true (re_or_part false) part with
               | Some m2 => [group m2 1]
               | None => []
               end)
            parts in
        Some (Condition.mk (Py.lower (group m 1)) "is-or"
                (Py.join "|" values) None false)
    | None => None
    end
  else None.

(** The grammar rules of [_parse_condition], in the order the source tries
    them; each gives the Condition it returns when it matches. *)
Definition rule_is (text : string) : option Condition.t :=
  match re_match true re_is text with
  | Some m => Some (Condition.mk (Py.lower (group m 1)) "is" (group m 2)
                      None false)
  | None => None
  end.

Definition rule_user_not_in (text : string) : option Condition.t :=
  match re_match true re_user_not_in text with
  | Some m => Some (Condition.mk (Py.lower (group m 1)) "in" (group m 3)
                      (Some (group m 4)) true)
  | None => None
  end.

Definition rule_user_in (text : string) : option Condition.t :=
  match re_match true re_user_in text with
  | Some m =>
      let cond_type := Py.lower (group m 1) ^^ "-" ^^ Py.lower (group m 2) in
      Some (Condition.mk cond_type "in" (group m 3) (Some (group m 4)) false)
  | None => None
  end.

Definition rule_in (text : string) : option Condition.t :=
  match re_match true re_in text with
  | Some m => Some (Condition.mk (Py.lower (group m 1)) "in" (group m 2)
                      (Some (group m 3)) false)
  | None => None
  end.

Definition rule_not_is (kind text : string) : option Condition.t :=
  match re_match true (re_not_is kind) text with
  | Some m => Some (Condition.mk (Py.lower (group m 1)) "is" (group m 2)
                      None true)
  | None => None
  end.

Definition rule_risk (text : string) : option Condition.t :=
  match re_match true re_risk text with
  | Some m => Some (Condition.mk (Py.lower (group m 1)) "is" (group m 2)
                      None false)
  | None => None
  end.

Definition rule_device (text : string) : option Condition.t :=
  match re_match true re_device text with
  | Some m => Some (Condition.mk (Py.lower (group m 1)) "is" (group m 2)
                      None false)
  | None => None
  end.

Definition rules : list (string -> option Condition.t) :=
  [rule_is; rule_user_not_in; rule_user_in; rule_in;
   rule_not_is "location"; rule_not_is "client"; or_rule;
   rule_risk; rule_device].

(** The first rule that matches. *)
Fixpoint first_match (rs : list (string -> option Condition.t))
  (text : string) : option Condition.t :=
  match rs with
  | [] => None
  | r :: rs' =>
      match r text with
      | Some c => Some c
      | None => first_match rs' text
      end
  end.

(** [_parse_condition]: the Condition and the lines printed. *)
Definition parse_condition (vars : Dict.t Var.t) (text : string)
  : Condition.t * list string :=
  let text := substitute vars text in
  match first_match rules text with
  | Some c => (c, [])
  | None =>
      (Condition.mk "unknown" "is" text None false,
       ["Warning: Could not parse condition: " ^^ text])
  end.

(** [_parse_action] *)
Definition parse_action (text : string) : Action.t :=
  if Py.startswith text "REQUIRE " then
    let action_text := Py.strip (Py.drop 8 text) in
    if Py.contains " OR " action_text then
      let parts := Py.split action_text " OR " in
      Action.mk "REQUIRE" (Some (Py.join "|" parts)) true
    else Action.mk "REQUIRE" (Some action_text) false
  else if String.eqb text "BLOCK" then Action.mk "BLOCK" None false
  else if String.eqb text "ALLOW" then Action.mk "ALLOW" None false
  else if Py.startswith text "SESSION " then
    let session_text := Py.strip (Py.drop 8 text) in
    Action.mk "SESSION" (Some session_text) false
  else Action.mk "UNKNOWN" (Some text) false.

(** The loop of [_parse_branch] that collects the additional conditions. *)
Fixpoint cond_loop (fuel : nat) (self : t) (base_indent : nat)
  (branch : PolicyBranch) : option (PolicyBranch * t) :=
  match fuel with
  | O => None
  | S fuel =>
      if Nat.ltb (line_number self) (length (lines self)) then
        let line := current_line_stripped self in
        let indent := current_line_indent self in
        if negb (Py.truthy line) || Py.startswith line "#" then
          cond_loop fuel (advance self) base_indent branch
        else if Nat.leb indent base_indent
                && Py.mem line ["ELSE IF "; "ELSE"; "END"] then
          Some (branch, self)
        else if Py.startswith line "STATE " then Some (branch, self)
        else if Py.startswith line "IF " then Some (branch, self)
        else
          let (c, msgs) := parse_condition (variables self) line in
          cond_loop fuel (advance (print self msgs)) base_indent
            (mkBranch (conditions branch ++ [c]) (actions branch)
               (state branch) (nested_if branch))
      else Some (branch, self)
  end.

(** [line.startswith(('REQUIRE ', 'BLOCK', 'ALLOW', 'SESSION '))] *)
Definition is_action_line (line : string) : bool :=
  Py.startswith line "REQUIRE " || Py.startswith line "BLOCK"
  || Py.startswith line "ALLOW" || Py.startswith line "SESSION ".

(** The first condition, on the line of the keyword: [line[n:].strip()]. *)
Definition head_condition (self : t) (n : nat) (line : string)
  (branch : PolicyBranch) : PolicyBranch * t :=
  let cond_text := Py.strip (Py.drop n line) in
  if Py.truthy cond_text then
    let (c, msgs) := parse_condition (variables self) cond_text in
    (mkBranch (conditions branch ++ [c]) (actions branch) (state branch)
       (nested_if branch),
     advance (print self msgs))
  else (branch, advance self).

(** The start of [_parse_branch]: the keyword line, when the parser is on
    one, with its condition. *)
Definition branch_head (self : t) (branch : PolicyBranch)
  : PolicyBranch * t :=
  let line := current_line_stripped self in
  if Py.startswith line "IF " then head_condition self 3 line branch
  else if Py.startswith line "ELSE IF " then head_condition self 8 line branch
  else (branch, self).

(** The start of [_parse_branch_body]: the [STATE] line, when the parser
    is on one. *)
Definition state_line (self : t) (branch : PolicyBranch)
  : PolicyBranch * t :=
  let line := current_line_stripped self in
  if Py.startswith line "STATE " then
    (mkBranch (conditions branch) (actions branch)
       (Py.strip (Py.drop 6 line)) (nested_if branch),
     advance self)
  else (branch, self).

(** [_parse_if_statement], [_parse_branch] and [_parse_branch_body], with
    their loops. *)
Fixpoint parse_if_statement (fuel : nat) (self : t) (base_indent : nat)
  : option (IfStatement * t) :=
  match fuel with
  | O => None
  | S fuel =>
      match parse_branch fuel self base_indent with
      | Some (b, self) => if_loop fuel self base_indent (mkIf b [] None)
      | None => None
      end
  end

with if_loop (fuel : nat) (self : t) (base_indent : nat) (stmt : IfStatement)
  : option (IfStatement * t) :=
  match fuel with
  | O => None
  | S fuel =>
      if Nat.ltb (line_number self) (length (lines self)) then
        let line := current_line_stripped self in
        let indent := current_line_indent self in
        if Nat.ltb indent base_indent then Some (stmt, self)
        else if Py.startswith line "ELSE IF " then
          match parse_branch fuel self base_indent with
          | Some (b, self) =>
              if_loop fuel self base_indent
                (mkIf (if_branch stmt) (else_if_branches stmt ++ [b])
                   (else_branch stmt))
          | None => None
          end
        else if String.eqb line "ELSE" then
          match parse_branch_body fuel (advance self) (base_indent + 4)
                  new_branch with
          | Some (b, self) =>
              if_loop fuel self base_indent
                (mkIf (if_branch stmt) (else_if_branches stmt) (Some b))
          | None => None
          end
        else if String.eqb line "END" then Some (stmt, advance self)
        else Some (stmt, self)
      else Some (stmt, self)
  end

with parse_branch (fuel : nat) (self : t) (base_indent : nat)
  : option (PolicyBranch * t) :=
  match fuel with
  | O => None
  | S fuel =>
      let (branch, self) := branch_head self new_branch in
      match cond_loop fuel self base_indent branch with
      | Some (branch, self) =>
          parse_branch_body fuel self (base_indent + 4) branch
      | None => None
      end
  end

with parse_branch_body (fuel : nat) (self : t) (expected_indent : nat)
  (branch : PolicyBranch) : option (PolicyBranch * t) :=
  match fuel with
  | O => None
  | S fuel =>
      let (branch, self) := state_line self branch in
      body_loop fuel self expected_indent branch
  end

with body_loop (fuel : nat) (self : t) (expected_indent : nat)
  (branch : PolicyBranch) : option (PolicyBranch * t) :=
  match fuel with
  | O => None
  | S fuel =>
      if Nat.ltb (line_number self) (length (lines self)) then
        let line := current_line_stripped self in
        let indent := current_line_indent self in
        if negb (Py.truthy line) || Py.startswith line "#" then
          body_loop fuel (advance self) expected_indent branch
        else if Nat.ltb indent (expected_indent - 4) then Some (branch, self)
        else if Py.mem line ["ELSE IF "; "ELSE"; "END"] then
          Some (branch, self)
        else if Py.startswith line "IF " then
          match parse_if_statement fuel self indent with
          | Some (stmt, self) =>
              body_loop fuel self expected_indent
                (mkBranch (conditions branch) (actions branch) (state branch)
                   (Some stmt))
          | None => None
          end
        else if is_action_line line then
          body_loop fuel (advance self) expected_indent
            (mkBranch (conditions branch)
               (actions branch ++ [parse_action line]) (state branch)
               (nested_if branch))
        else body_loop fuel (advance self) expected_indent branch
      else Some (branch, self)
  end.

(** The main loop of [parse_file]. *)
Fixpoint file_loop (fuel : nat) (self : t) (statements : list IfStatement)
  : option (list IfStatement * t) :=
  match fuel with
  | O => None
  | S fuel =>
      if Nat.ltb (line_number self) (length (lines self)) then
        let line := current_line_stripped self in
        if negb (Py.truthy line) || Py.startswith line "#" then
          file_loop fuel (advance self) statements
        else if Py.startswith line "VAR " then
          file_loop fuel (parse_variable self) statements
        else if Py.startswith line "IF " then
          match parse_if_statement fuel self 0 with
          | Some (stmt, self) => file_loop fuel self (statements ++ [stmt])
          | None => None
          end
        else file_loop fuel (advance self) statements
      else Some (statements, self)
  end.

(** Fuel that suffices for a file of [n] lines. *)
Definition fuel_for (n : nat) : nat := 4 * n + 1.

(** [parse_file]: [name] is the file's name and [content] what [f.read()]
    returns.  The variable table is not touched on entry. *)
Definition parse_file (self : t) (name content : string)
  : option (list IfStatement * t) :=
  let self := print self ["Parsing " ^^ name ^^ "..."] in
  let lines := Py.split content (String (ascii_of_nat 10) EmptyString) in
  let self := mk (variables self) 0 lines (output self) in
  file_loop (fuel_for (length lines)) self [].

End CAPLParser.

(** ** PolicyPath.get_action_signature *)

Definition has_type (ty : string) (a : Action.t) : bool :=
  String.eqb (Action.type a) ty.

(** The loop that fills [grant_controls] and [session_controls]. *)
Definition collect_controls (actions : list Action.t)
  : list string * list string :=
  fold_left
    (fun (acc : list string * list string) (action : Action.t) =>
       let (grant_controls, session_controls) := acc in
       if has_type "REQUIRE" action then
         match Action.value action with
         | Some v =>
             if Py.truthy v then (grant_controls ++ [v], session_controls)
             else acc
         | None => acc
         end
       else if has_type "SESSION" action then
         match Action.value action with
         | Some v =>
             if Py.truthy v then (grant_controls, session_controls ++ [v])
             else acc
         | None => acc
         end
       else acc)
    actions ([], []).

Definition get_action_signature (self : PolicyPath.t) : string :=
  if existsb (has_type "BLOCK") (PolicyPath.actions self) then "BLOCK"
  else
    let (grant_controls, session_controls) :=
      collect_controls (PolicyPath.actions self) in
    let grant_controls := Py.sort grant_controls in
    let session_controls := Py.sort session_controls in
    let grant_sig :=
      match grant_controls with
      | [] => "ALLOW"
      | _ => Py.join "," grant_controls
      end in
    let session_sig :=
      match session_controls with
      | [] => EmptyString
      | _ => Py.join "," session_controls
      end in
    if Py.truthy session_sig
    then "GRANT:" ^^ grant_sig ^^ "|SESSION:" ^^ session_sig
    else "GRANT:" ^^ grant_sig.

(** ** PathExtractor *)

Module PathExtractor.

(** [_extract_paths_from_statement]; the three copies of the branch code of
    the source are the one local function [of_branch]. *)
Fixpoint extract_paths_from_statement (stmt : IfStatement)
  (parent_conditions : list Condition.t) : list PolicyPath.t :=
  let of_branch (branch : PolicyBranch) : list PolicyPath.t :=
    let branch_conditions := parent_conditions ++ conditions branch in
    match nested_if branch with
    | Some nested => extract_paths_from_statement nested branch_conditions
    | None =>
        [PolicyPath.mk branch_conditions (actions branch) (state branch)]
    end in
  of_branch (if_branch stmt)
  ++ flat_map of_branch (else_if_branches stmt)
  ++ match else_branch stmt with
     | Some b => of_branch b
     | None => []
     end.

(** [extract_paths] *)
Definition extract_paths (statements : list IfStatement)
  : list PolicyPath.t :=
  flat_map (fun stmt => extract_paths_from_statement stmt []) statements.

End PathExtractor.

(** ** Output values: what [yaml.dump] receives *)

#[warnings="-register-all"]
Inductive yaml : Type :=
| YNone
| YStr (s : string)
| YInt (n : Z)
| YBool (b : bool)
| YList (l : list yaml)
| YDict (d : list (string * yaml)).

Definition is_nil {A : Type} (l : list A) : bool :=
  match l with [] => true | _ => false end.

(** Python truth value. *)
Definition yaml_truthy (v : yaml) : bool :=
  match v with
  | YNone => false
  | YStr s => Py.truthy s
  | YInt n => negb (Z.eqb n 0)
  | YBool b => b
  | YList l => negb (is_nil l)
  | YDict d => negb (is_nil d)
  end.

Definition ystrs (l : list string) : yaml := YList (map YStr l).

(** A Python [set] of strings: its elements in insertion order.  The
    order of iteration is not this order; see [set_order] below. *)
Module PySet.

Definition t : Type := list string.

Definition empty : t := [].

Definition add (s : t) (x : string) : t :=
  if Py.mem x s then s else s ++ [x].

Definition update (s : t) (xs : list string) : t := fold_left add xs s.

Definition of_list (xs : list string) : t := update empty xs.

Definition len (s : t) : nat := length s.

End PySet.

(** ** PolicyOptimizer *)

Module PolicyOptimizer.

Record t : Type := mk { policy_counter : nat }.

(** [PolicyOptimizer()] *)
Definition init : t := mk 1.

(** [_cluster_by_action] *)
Definition full_signature (path : PolicyPath.t) : string :=
  get_action_signature path ^^ "|STATE:" ^^ PolicyPath.state path.

Definition cluster_by_action (paths : list PolicyPath.t)
  : Dict.t (list PolicyPath.t) :=
  fold_left
    (fun clusters path => Dict.append clusters (full_signature path) path)
    paths [].

(** [_map_grant_control] *)
Definition grant_control_mapping : Dict.t string :=
  [("MFA", "mfa"); ("CompliantDevice", "compliantDevice");
   ("HybridJoined", "domainJoinedDevice");
   ("ApprovedApp", "approvedApplication");
   ("AppProtection", "compliantApplication");
   ("PasswordChange", "passwordChange")].

Definition map_grant_control (control : string) : string :=
  match Dict.get grant_control_mapping control with
  | Some v => v
  | None => Py.lower control
  end.

(** Remove duplicates while preserving order. *)
Definition unique (l : list string) : list string :=
  fold_left (fun acc x => if Py.mem x acc then acc else acc ++ [x]) l [].

(** [_build_grant_controls] *)
Definition build_grant_controls (actions : list Action.t)
  : Dict.t yaml :=
  let grant_actions := filter (has_type "REQUIRE") actions in
  let block_actions := filter (has_type "BLOCK") actions in
  let allow_actions := filter (has_type "ALLOW") actions in
  if negb (is_nil block_actions) then
    [("Operator", YStr "OR"); ("BuiltInControls", ystrs ["block"])]
  else if is_nil grant_actions && is_nil allow_actions then []
  else
    let built_in_controls :=
      flat_map
        (fun action =>
           match Action.value action with
           | None => []
           | Some v =>
               if Action.is_or action
               then map map_grant_control (Py.split v "|")
               else [map_grant_control v]
           end)
        grant_actions in
    if is_nil built_in_controls then []
    else
      let unique_controls := unique built_in_controls in
      let operator :=
        if existsb Action.is_or grant_actions then "OR" else "AND" in
      [("Operator", YStr operator);
       ("BuiltInControls", ystrs unique_controls)].

(** [signin-frequency\s+(\d+)\s+(hours?|days?)]; the optional [s] is
    written as the longer alternative first. *)
Definition re_signin_frequency : list Re.tok :=
  [Re.Lit "signin-frequency"; Re.Plus false Re.CSpace;
   Re.Plus true Re.CDigit; Re.Plus false Re.CSpace;
   Re.Alt true ["hours"; "hour"; "days"; "day"]].

(** [persistent-browser\s+(always|never)] *)
Definition re_persistent_browser : list Re.tok :=
  [Re.Lit "persistent-browser"; Re.Plus false Re.CSpace;
   Re.Alt true ["always"; "never"]].

(** One iteration of the loop of [_build_session_controls]. *)
Definition session_step (session_controls : Dict.t yaml) (action : Action.t)
  : Dict.t yaml :=
  match Action.value action with
  | None => session_controls
  | Some v =>
      if negb (Py.truthy v) then session_controls
      else
        let value := Py.strip v in
        match Re.re_match true re_signin_frequency value with
        | Some m =>
            let num := Py.int (CAPLParser.group m 1) in
            let unit := Py.lower (CAPLParser.group m 2) in
            Dict.set session_controls "SignInFrequency"
              (YDict [("Value", YInt num);
                      ("Type", YStr (if Py.contains "hour" unit
                                     then "hours" else "days"));
                      ("IsEnabled", YBool true)])
        | None =>
            match Re.re_match true re_persistent_browser value with
            | Some m =>
                let mode := Py.lower (CAPLParser.group m 1) in
                Dict.set session_controls "PersistentBrowser"
                  (YDict [("Mode", YStr mode); ("IsEnabled", YBool true)])
            | None =>
                if Py.contains "monitor" (Py.lower value)
                   && Py.contains "cloudappsecurity" (Py.lower value) then
                  Dict.set session_controls "CloudAppSecurity"
                    (YDict [("CloudAppSecurityType", YStr "monitorOnly");
                            ("IsEnabled", YBool true)])
                else if Py.contains "block-downloads" (Py.lower value) then
                  Dict.set session_controls "ApplicationEnforcedRestrictions"
                    (YDict [("IsEnabled", YBool true)])
                else session_controls
            end
        end
  end.

(** [_build_session_controls] *)
Definition build_session_controls (actions : list Action.t)
  : Dict.t yaml :=
  let session_actions := filter (has_type "SESSION") actions in
  if is_nil session_actions then []
  else fold_left session_step session_actions [].

(** [d[k1][k2] = v].  The sections written through [set2] and [append2]
    are dictionaries from [empty_cond_dict] on, and their entries lists, so
    the other cases of the matches are never reached. *)
Definition set2 (d : Dict.t yaml) (k1 k2 : string) (v : yaml) : Dict.t yaml :=
  match Dict.get d k1 with
  | Some (YDict sub) => Dict.set d k1 (YDict (Dict.set sub k2 v))
  | _ => d
  end.

(** [if k2 not in d[k1]: d[k1][k2] = []] then [d[k1][k2].append(v)] *)
Definition append2 (d : Dict.t yaml) (k1 k2 : string) (v : yaml)
  : Dict.t yaml :=
  match Dict.get d k1 with
  | Some (YDict sub) =>
      match Dict.get sub k2 with
      | Some (YList l) => Dict.set d k1 (YDict (Dict.set sub k2 (YList (l ++ [v]))))
      | Some _ => d
      | None => Dict.set d k1 (YDict (Dict.set sub k2 (YList [v])))
      end
  | _ => d
  end.

(** [d[k].append(v)] *)
Definition append1 (d : Dict.t yaml) (k : string) (v : yaml) : Dict.t yaml :=
  match Dict.get d k with
  | Some (YList l) => Dict.set d k (YList (l ++ [v]))
  | _ => d
  end.

Definition yopt (o : option string) : yaml :=
  match o with Some s => YStr s | None => YNone end.

Definition client_type_mapping : Dict.t string :=
  [("Browser", "browser"); ("MobileApp", "mobileAppsAndDesktopClients");
   ("DesktopApp", "mobileAppsAndDesktopClients");
   ("ExchangeActiveSync", "exchangeActiveSync"); ("Other", "other")].

Definition empty_cond_dict : Dict.t yaml :=
  [("Users", YDict []); ("Applications", YDict []); ("Platforms", YDict []);
   ("Locations", YDict []); ("ClientAppTypes", YDict []);
   ("DeviceStates", YDict []); ("SignInRiskLevels", YList []);
   ("UserRiskLevels", YList [])].

Section SetOrder.

(** [set_order s]: the order in which this process iterates over the set
    whose elements were inserted in the order [s]. *)
Variable set_order : PySet.t -> list string.

(** [_map_client_types] *)
Definition map_client_types (client_values : list string) : list string :=
  set_order
    (PySet.of_list
       (map (fun c => match Dict.get client_type_mapping c with
                      | Some v => v
                      | None => Py.lower c
                      end)
          client_values)).

(** One iteration of the loop of [_build_conditions_dict]. *)
Definition cond_step (cond_dict : Dict.t yaml) (cond : Condition.t)
  : Dict.t yaml :=
  let ty := Condition.type cond in
  let v := Condition.value cond in
  if String.eqb ty "user" then
    if String.eqb v "All" then
      set2 cond_dict "Users" "IncludeUsers" (ystrs ["All"])
    else if String.eqb v "Guest" then
      set2 cond_dict "Users" "IncludeGuestOrExternalUserTypes"
        (ystrs ["internalGuest"; "b2bCollaborationGuest"])
    else cond_dict
  else if String.eqb ty "user-group" then
    if Condition.is_negated cond then
      append2 cond_dict "Users" "ExcludeGroups" (yopt (Condition.guid cond))
    else
      append2 cond_dict "Users" "IncludeGroups" (yopt (Condition.guid cond))
  else if String.eqb ty "user-role" then
    append2 cond_dict "Users" "IncludeRoles" (yopt (Condition.guid cond))
  else if String.eqb ty "app" then
    if String.eqb v "All" then
      set2 cond_dict "Applications" "IncludeApplications" (ystrs ["All"])
    else if String.eqb v "Office365" then
      set2 cond_dict "Applications" "IncludeApplications"
        (ystrs ["Office365"])
    else if Py.truthy_opt (Condition.guid cond) then
      append2 cond_dict "Applications" "IncludeApplications"
        (yopt (Condition.guid cond))
    else cond_dict
  else if String.eqb ty "platform" then
    if String.eqb (Condition.operator cond) "is-or" then
      set2 cond_dict "Platforms" "IncludePlatforms" (ystrs (Py.split v "|"))
    else append2 cond_dict "Platforms" "IncludePlatforms" (YStr v)
  else if String.eqb ty "device" then
    if String.eqb v "Compliant" then
      set2 cond_dict "DeviceStates" "CompliantDevice" (YBool true)
    else if String.eqb v "HybridJoined" then
      set2 cond_dict "DeviceStates" "DomainJoinedDevice" (YBool true)
    else cond_dict
  else if String.eqb ty "location" then
    if String.eqb v "Trusted" then
      if Condition.is_negated cond then
        set2 cond_dict "Locations" "ExcludeLocations" (ystrs ["AllTrusted"])
      else
        set2 cond_dict "Locations" "IncludeLocations" (ystrs ["AllTrusted"])
    else if String.eqb v "All" then
      set2 cond_dict "Locations" "IncludeLocations" (ystrs ["All"])
    else if Py.truthy_opt (Condition.guid cond) then
      append2 cond_dict "Locations" "IncludeLocations"
        (yopt (Condition.guid cond))
    else cond_dict
  else if String.eqb ty "client" then
    if String.eqb (Condition.operator cond) "is-or" then
      Dict.set cond_dict "ClientAppTypes"
        (ystrs (map_client_types (Py.split v "|")))
    else
      Dict.set cond_dict "ClientAppTypes" (ystrs (map_client_types [v]))
  else if String.eqb ty "signin-risk" then
    append1 cond_dict "SignInRiskLevels" (YStr (Py.lower v))
  else if String.eqb ty "user-risk" then
    append1 cond_dict "UserRiskLevels" (YStr (Py.lower v))
  else cond_dict.

(** [_build_conditions_dict] *)
Definition build_conditions_dict (conditions : list Condition.t)
  : Dict.t yaml :=
  let cond_dict := fold_left cond_step conditions empty_cond_dict in
  filter (fun kv => yaml_truthy (snd kv)) cond_dict.

(** [_create_policy]: the record and the optimizer with its counter
    advanced. *)
Definition create_policy (self : t) (conditions : list Condition.t)
  (actions : list Action.t) (state : string) : Dict.t yaml * t :=
  let policy_name := "Generated-Policy-" ^^ Py.str (policy_counter self) in
  let self := mk (policy_counter self + 1) in
  let policy :=
    [("DisplayName", YStr policy_name);
     ("State", YStr state);
     ("Conditions", YDict (build_conditions_dict conditions));
     ("GrantControls", YDict (build_grant_controls actions));
     ("SessionControls", YDict (build_session_controls actions))] in
  let policy :=
    if is_nil (build_session_controls actions)
    then Dict.del policy "SessionControls" else policy in
  let policy :=
    if is_nil (build_grant_controls actions)
    then Dict.del policy "GrantControls" else policy in
  (policy, self).

(** The values of a group of conditions of a list-capable type. *)
Definition collect_values (conditions : list Condition.t) : PySet.t :=
  fold_left
    (fun values cond =>
       if String.eqb (Condition.operator cond) "is-or"
       then PySet.update values (Py.split (Condition.value cond) "|")
       else PySet.add values (Condition.value cond))
    conditions PySet.empty.

Definition collect_guids (conditions : list Condition.t) : PySet.t :=
  fold_left
    (fun unique_guids cond =>
       if Py.truthy_opt (Condition.guid cond)
       then PySet.add unique_guids
              (match Condition.guid cond with Some g => g | None => "" end)
       else unique_guids)
    conditions PySet.empty.

Definition guid_is (g : string) (c : Condition.t) : bool :=
  match Condition.guid c with
  | Some g' => String.eqb g' g
  | None => false
  end.

(** [_merge_conditions_of_type] *)
Definition merge_conditions_of_type (cond_type : string)
  (conditions : list Condition.t) : list Condition.t :=
  match conditions with
  | [] => []
  | first :: _ =>
      if Py.mem cond_type ["platform"; "location"; "client"; "app"] then
        let values := collect_values conditions in
        if Nat.ltb 1 (PySet.len values) then
          [Condition.mk cond_type "is-or"
             (Py.join "|" (Py.sort (set_order values))) None false]
        else [first]
      else if Py.mem cond_type ["user-group"; "user-role"] then
        let unique_guids := collect_guids conditions in
        map
          (fun guid =>
             let orig :=
               match find (guid_is guid) conditions with
               | Some c => c
               | None => first
               end in
             Condition.mk cond_type "in" (Condition.value orig) (Some guid)
               (Condition.is_negated orig))
          (set_order unique_guids)
      else [first]
  end.

(** The conditions of the paths of a cluster, grouped by type in the order
    in which the types are first met. *)
Definition group_conditions (paths : list PolicyPath.t)
  : Dict.t (list Condition.t) :=
  fold_left
    (fun groups path =>
       fold_left
         (fun groups cond => Dict.append groups (Condition.type cond) cond)
         (PolicyPath.conditions path) groups)
    paths [].

Definition merge_groups (groups : Dict.t (list Condition.t))
  : list Condition.t :=
  flat_map (fun kv => merge_conditions_of_type (fst kv) (snd kv)) groups.

(** [_merge_cluster] *)
Definition merge_cluster (self : t) (signature : string)
  (paths : list PolicyPath.t) : Dict.t yaml * t :=
  let state :=
    if Py.contains "|STATE:" signature
    then nth 1 (Py.split signature "|STATE:") EmptyString
    else "enabled" in
  let merged_conditions := merge_groups (group_conditions paths) in
  let actions :=
    match paths with
    | first :: _ => PolicyPath.actions first
    | [] => []
    end in
  create_policy self merged_conditions actions state.

(** [optimize]: the records, in the order of the clusters, and the
    optimizer with its counter advanced.  The progress messages it prints
    are left out. *)
Definition optimize (self : t) (paths : list PolicyPath.t)
  : list (Dict.t yaml) * t :=
  fold_left
    (fun (acc : list (Dict.t yaml) * t) (kv : string * list PolicyPath.t) =>
       let (optimized_policies, self) := acc in
       let (merged_policy, self) := merge_cluster self (fst kv) (snd kv) in
       (optimized_policies ++ [merged_policy], self))
    (cluster_by_action paths) ([], self).

End SetOrder.

End PolicyOptimizer.

(** ** The pipeline of [main] *)

(** The files are parsed by one parser, one after the other (a run of
    [main] in which no file raises: [main] skips a file that does). *)
Fixpoint parse_files (parser : CAPLParser.t)
  (files : list (string * string)) (all_statements : list IfStatement)
  : option (list IfStatement * CAPLParser.t) :=
  match files with
  | [] => Some (all_statements, parser)
  | (name, content) :: files' =>
      match CAPLParser.parse_file parser name content with
      | Some (statements, parser) =>
          parse_files parser files' (all_statements ++ statements)
      | None => None
      end
  end.

(** Parsing, path extraction and optimization, as [main] chains them; the
    result is the list of records that [main] writes out (none when no
    statement was found). *)
Definition compile (set_order : PySet.t -> list string)
  (files : list (string * string)) : option (list (Dict.t yaml)) :=
  match parse_files CAPLParser.init files [] with
  | Some (all_statements, _) =>
      let all_paths := PathExtractor.extract_paths all_statements in
      Some (fst (PolicyOptimizer.optimize set_order PolicyOptimizer.init
                   all_paths))
  | None => None
  end.

(** ** Vocabulary of the properties *)

(** The grant controls of a blocking record. *)
Definition block_grant_controls : Dict.t yaml :=
  [("Operator", YStr "OR"); ("BuiltInControls", YList [YStr "block"])].

(** An action line of a branch body that matches no action grammar:
    it starts with an action keyword, but is neither a [REQUIRE ...] nor a
    [SESSION ...] line, nor exactly [BLOCK] or [ALLOW]. *)
Definition off_grammar_action_line (line : string) : Prop :=
  CAPLParser.is_action_line line = true
  /\ Py.startswith line "REQUIRE " = false
  /\ line <> "BLOCK" /\ line <> "ALLOW"
  /\ Py.startswith line "SESSION " = false.

(** The FlatPaths that path extraction emits for one branch, under the
    conditions accumulated from the enclosing branches: the body of the
    three branch cases of [_extract_paths_from_statement]. *)
Definition paths_of_branch (parent_conditions : list Condition.t)
  (branch : PolicyBranch) : list PolicyPath.t :=
  match nested_if branch with
  | Some nested =>
      PathExtractor.extract_paths_from_statement nested
        (parent_conditions ++ conditions branch)
  | None =>
      [PolicyPath.mk (parent_conditions ++ conditions branch)
         (actions branch) (state branch)]
  end.

(** The values of the [REQUIRE] actions of a list, each taken whole (a
    pipe-delimited list of alternatives is one value), empty and missing
    values left out; likewise for the [SESSION] actions. *)
Definition values_of (ty : string) (actions : list Action.t) : list string :=
  flat_map
    (fun a =>
       if has_type ty a then
         match Action.value a with
         | Some v => if Py.truthy v then [v] else []
         | None => []
         end
       else [])
    actions.

(** Lexicographic order on strings, by character code. *)
Definition str_le (a b : string) : Prop := String.leb a b = true.

(** The grant component and the session segment of a signature. *)
Definition grant_component (gs : list string) : string :=
  match gs with
  | [] => "ALLOW"
  | _ => Py.join "," gs
  end.

Definition session_segment (ss : list string) : string :=
  match ss with
  | [] => EmptyString
  | _ => "|SESSION:" ^^ Py.join "," ss
  end.

(** The enforcement states of the data model. *)
Definition valid_state (s : string) : Prop :=
  s = "enabled" \/ s = "disabled" \/ s = "report-only".

(** Two paths are placed in the same cluster. *)
Definition same_cluster (paths : list PolicyPath.t) (p q : PolicyPath.t)
  : Prop :=
  exists key members,
    In (key, members) (PolicyOptimizer.cluster_by_action paths)
    /\ In p members /\ In q members.

(** The condition kinds that can carry several values. *)
Definition list_capable_types : list string :=
  ["platform"; "location"; "client"; "app"].

(** The literal values a Condition stands for: the pieces of an [is-or]
    value, the value itself otherwise. *)
Definition literal_values (c : Condition.t) : list string :=
  if String.eqb (Condition.operator c) "is-or"
  then Py.split (Condition.value c) "|"
  else [Condition.value c].

(** The conditions of kind [k] of the paths of a cluster, in path order. *)
Definition conditions_of_type (k : string) (paths : list PolicyPath.t)
  : list Condition.t :=
  filter (fun c => String.eqb (Condition.type c) k)
    (flat_map PolicyPath.conditions paths).

(** An iteration order is an enumeration of the set's elements. *)
Definition valid_set_order (set_order : PySet.t -> list string) : Prop :=
  forall s, Permutation (set_order s) s.

(** A text file given by its lines. *)
Definition newline : string := String (ascii_of_nat 10) EmptyString.

Definition unlines (ls : list string) : string := String.concat newline ls.

(** The Decision with an [ELSE IF] branch of the language's own
    description. *)
Definition else_if_example : string :=
  unlines
    ["IF user is All";
     "    STATE enabled";
     "        BLOCK";
     "ELSE IF user is Guest";
     "    STATE report-only";
     "        REQUIRE MFA";
     "END"].

(** The parser moved forward in the same file with the same variables. *)
Definition extends (p p' : CAPLParser.t) : Prop :=
  CAPLParser.variables p' = CAPLParser.variables p
  /\ CAPLParser.lines p' = CAPLParser.lines p
  /\ CAPLParser.line_number p <= CAPLParser.line_number p'.

(** The parser is on an [IF] or [ELSE IF] line. *)
Definition on_keyword (p : CAPLParser.t) : Prop :=
  Py.startswith (CAPLParser.current_line_stripped p) "IF " = true
  \/ Py.startswith (CAPLParser.current_line_stripped p) "ELSE IF " = true.

(** The lines not yet consumed. *)
Definition remaining (p : CAPLParser.t) : nat :=
  length (CAPLParser.lines p) - CAPLParser.line_number p.

(** Two parser states that differ at most in what was printed. *)
Definition same_input (p q : CAPLParser.t) : Prop :=
  CAPLParser.variables p = CAPLParser.variables q
  /\ CAPLParser.line_number p = CAPLParser.line_number q
  /\ CAPLParser.lines p = CAPLParser.lines q.





(** The text matches no grammar rule of [_parse_condition]. *)
Definition matches_no_rule (text : string) : Prop :=
  forall r, In r CAPLParser.rules -> r text = None.

(** The Condition and the diagnostic for a text that matches no rule. *)
Definition unknown_condition (text : string) : Condition.t :=
  Condition.mk "unknown" "is" text None false.

Definition unknown_warning (text : string) : string :=
  "Warning: Could not parse condition: " ^^ text.

(** The parser stands, in the condition loop of a branch of indentation
    [base], on a line that the loop takes for a condition. *)
Definition on_condition_line (p : CAPLParser.t) (base : nat) : Prop :=
  let line := CAPLParser.current_line_stripped p in
  CAPLParser.line_number p < length (CAPLParser.lines p)
  /\ Py.truthy line = true
  /\ Py.startswith line "#" = false
  /\ (Nat.leb (CAPLParser.current_line_indent p) base
      && Py.mem line ["ELSE IF "; "ELSE"; "END"] = false)
  /\ Py.startswith line "STATE " = false
  /\ Py.startswith line "IF " = false.

(** [branch.conditions.append(c)] *)
Definition add_condition (b : PolicyBranch) (c : Condition.t)
  : PolicyBranch :=
  mkBranch (conditions b ++ [c]) (actions b) (state b) (nested_if b).

(** A Decision without else-if branches, at any depth of nesting below its
    [if] and [else] branches. *)
Fixpoint no_else_if (s : IfStatement) : Prop :=
  let below (b : PolicyBranch) : Prop :=
    match nested_if b with
    | Some nested => no_else_if nested
    | None => True
    end in
  else_if_branches s = []
  /\ below (if_branch s)
  /\ match else_branch s with
     | Some b => below b
     | None => True
     end.

Definition nested_no_else_if (b : PolicyBranch) : Prop :=
  match nested_if b with
  | Some nested => no_else_if nested
  | None => True
  end.

(** Where the body loop of a branch stops: at the end of the file, on a
    line indented less than the branch, or on a line that is exactly one
    of the words of its list. *)
Definition body_stopped (p : CAPLParser.t) (expected_indent : nat) : Prop :=
  Nat.ltb (CAPLParser.line_number p) (length (CAPLParser.lines p)) = false
  \/ Nat.ltb (CAPLParser.current_line_indent p) (expected_indent - 4) = true
  \/ Py.mem (CAPLParser.current_line_stripped p) ["ELSE IF "; "ELSE"; "END"]
     = true.

(** A branch that carries an action and, after it, a nested Decision. *)
Definition actions_and_nested_example : string :=
  unlines
    ["IF user is All";
     "    STATE enabled";
     "        REQUIRE MFA";
     "    IF platform is iOS";
     "        STATE enabled";
     "            BLOCK";
     "    END";
     "END"].

(** Two iteration orders of a set: the order of insertion and its
    reverse. *)
Definition insertion_order (s : PySet.t) : list string := s.

Definition reverse_order (s : PySet.t) : list string := rev s.

(** *** What it means for a text to match a pattern

    [matches ci p s]: some prefix of [s] splits into consecutive pieces
    that match the tokens of [p], one piece per token.  This is the
    language of the regular expression, independent of any strategy of
    matching. *)

Fixpoint lit_eq (ci : bool) (l m : string) : bool :=
  match l, m with
  | EmptyString, EmptyString => true
  | String a l', String c m' => Re.char_eq ci a c && lit_eq ci l' m'
  | _, _ => false
  end.

Fixpoint all_class (k : Re.cclass) (m : string) : bool :=
  match m with
  | EmptyString => true
  | String c m' => Re.in_class k c && all_class k m'
  end.

Definition tok_matches (ci : bool) (t : Re.tok) (m : string) : Prop :=
  match t with
  | Re.Lit l => lit_eq ci l m = true
  | Re.Alt _ alts => exists a, In a alts /\ lit_eq ci a m = true
  | Re.Plus _ k => m <> EmptyString /\ all_class k m = true
  | Re.Star k => all_class k m = true
  end.

Fixpoint matches (ci : bool) (p : list Re.tok) (s : string) : Prop :=
  match p with
  | [] => True
  | t :: p' =>
      exists m r, s = m ^^ r /\ tok_matches ci t m /\ matches ci p' r
  end.

(** *** Patterns on which the greedy match loses nothing *)

Definition all_ascii : list ascii := map ascii_of_nat (seq 0 256).

(** No character that the pattern character [a] matches is of class [k]. *)
Definition char_outside (ci : bool) (k : Re.cclass) (a : ascii) : bool :=
  forallb (fun c => negb (Re.char_eq ci a c && Re.in_class k c)) all_ascii.

Definition classes_disjoint (k k' : Re.cclass) : bool :=
  forallb (fun c => negb (Re.in_class k c && Re.in_class k' c)) all_ascii.

Definition lit_starts_outside (ci : bool) (k : Re.cclass) (l : string)
  : bool :=
  match l with
  | EmptyString => false
  | String a _ => char_outside ci k a
  end.

(** Every text that matches [p] begins with a character outside [k]. *)
Fixpoint starts_outside (ci : bool) (k : Re.cclass) (p : list Re.tok)
  : bool :=
  match p with
  | [] => false
  | Re.Lit l :: _ => lit_starts_outside ci k l
  | Re.Alt _ alts :: _ => forallb (lit_starts_outside ci k) alts
  | Re.Plus _ k' :: _ => classes_disjoint k k'
  | Re.Star k' :: p' => classes_disjoint k k' && starts_outside ci k p'
  end.

(** One literal matches the start of the other. *)
Definition lit_prefix (ci : bool) (a b : string) : bool :=
  match Re.lit_match ci a b with
  | Some _ => true
  | None => false
  end.

(** No text starts with two of the alternatives. *)
Fixpoint alts_exclusive (ci : bool) (alts : list string) : bool :=
  match alts with
  | [] => true
  | a :: rest =>
      forallb (fun b => negb (lit_prefix ci a b || lit_prefix ci b a)) rest
      && alts_exclusive ci rest
  end.

(** A repeated class is followed by text that starts outside the class,
    and a group of alternatives by anything only when its alternatives
    exclude one another; either may also end the pattern. *)
Fixpoint greedy_ok (ci : bool) (p : list Re.tok) : bool :=
  match p with
  | [] => true
  | Re.Lit _ :: p' => greedy_ok ci p'
  | Re.Alt _ alts :: p' =>
      (is_nil p' || alts_exclusive ci alts) && greedy_ok ci p'
  | Re.Plus _ k :: p' => (is_nil p' || starts_outside ci k p') && greedy_ok ci p'
  | Re.Star k :: p' => (is_nil p' || starts_outside ci k p') && greedy_ok ci p'
  end.

(** The patterns of the source, with their flag. *)
Definition source_patterns : list (bool * list Re.tok) :=
  [(false, CAPLParser.re_var);
   (true, CAPLParser.re_is);
   (true, CAPLParser.re_user_not_in);
   (true, CAPLParser.re_user_in);
   (true, CAPLParser.re_in);
   (true, CAPLParser.re_not_is "location");
   (true, CAPLParser.re_not_is "client");
   (true, CAPLParser.re_or_part true);
   (true, CAPLParser.re_or_part false);
   (true, CAPLParser.re_risk);
   (true, CAPLParser.re_device);
   (true, PolicyOptimizer.re_signin_frequency);
   (true, PolicyOptimizer.re_persistent_browser)].

(** The patterns of the grammar rules of [_parse_condition] that are one
    regular expression each (the [OR] rule is not). *)
Definition condition_patterns : list (list Re.tok) :=
  [CAPLParser.re_is; CAPLParser.re_user_not_in; CAPLParser.re_user_in;
   CAPLParser.re_in; CAPLParser.re_not_is "location";
   CAPLParser.re_not_is "client"; CAPLParser.re_risk; CAPLParser.re_device].

(** The controls that one [REQUIRE] action asks for, in backend
    vocabulary: the alternatives of an OR requirement, the one control
    otherwise; none without a value. *)
Definition required_controls (a : Action.t) : list string :=
  match Action.value a with
  | None => []
  | Some v =>
      if Action.is_or a
      then map PolicyOptimizer.map_grant_control (Py.split v "|")
      else [PolicyOptimizer.map_grant_control v]
  end.

(** The names of the session controls and of the condition sections. *)
Definition session_control_names : list string :=
  ["SignInFrequency"; "PersistentBrowser"; "CloudAppSecurity";
   "ApplicationEnforcedRestrictions"].

Definition section_names : list string :=
  ["Users"; "Applications"; "Platforms"; "Locations"; "ClientAppTypes";
   "DeviceStates"; "SignInRiskLevels"; "UserRiskLevels"].

(** A session control object that is switched on. *)
Definition enabled_control (v : yaml) : Prop :=
  exists d, v = YDict d /\ Dict.get d "IsEnabled" = Some (YBool true).

(** The kinds of Condition that a grammar rule produces. *)
Definition rule_kinds : list string :=
  ["user"; "app"; "platform"; "device"; "location"; "client";
   "user-group"; "user-role"; "signin-risk"; "user-risk"].

(** A Condition that [_build_conditions_dict] passes over: its kind is
    [unknown], or it is of kind [user] with a value other than [All] and
    [Guest]. *)
Definition leaves_no_trace (c : Condition.t) : Prop :=
  Condition.type c = "unknown"
  \/ (Condition.type c = "user"
      /\ Condition.value c <> "All" /\ Condition.value c <> "Guest").

(** The branches of a Decision at every depth, each before the branches
    of the Decision nested in it, in the order [if], [else-if]s,
    [else]. *)
Fixpoint stmt_branches (s : IfStatement) : list PolicyBranch :=
  let of_branch (b : PolicyBranch) : list PolicyBranch :=
    b :: match nested_if b with
         | Some nested => stmt_branches nested
         | None => []
         end in
  of_branch (if_branch s)
  ++ flat_map of_branch (else_if_branches s)
  ++ match else_branch s with
     | Some b => of_branch b
     | None => []
     end.

Definition branches_below (b : PolicyBranch) : list PolicyBranch :=
  b :: match nested_if b with
       | Some nested => stmt_branches nested
       | None => []
       end.

(** A branch without a nested Decision. *)
Definition is_leaf (b : PolicyBranch) : bool :=
  match nested_if b with
  | Some _ => false
  | None => true
  end.

(** A path with further conditions in front of its own. *)
Definition under (parent : list Condition.t) (p : PolicyPath.t)
  : PolicyPath.t :=
  PolicyPath.mk (parent ++ PolicyPath.conditions p) (PolicyPath.actions p)
    (PolicyPath.state p).

(** What holds of every Condition and every Action of a branch, of a
    Decision at every depth, and of a branch with what is nested in
    it. *)
Definition branch_content (QC : Condition.t -> Prop) (QA : Action.t -> Prop)
  (b : PolicyBranch) : Prop :=
  Forall QC (conditions b) /\ Forall QA (actions b).

Definition decision_content (QC : Condition.t -> Prop)
  (QA : Action.t -> Prop) (s : IfStatement) : Prop :=
  Forall (branch_content QC QA) (stmt_branches s).

Definition below_content (QC : Condition.t -> Prop) (QA : Action.t -> Prop)
  (b : PolicyBranch) : Prop :=
  Forall (branch_content QC QA) (branches_below b).

(** The shapes of the Actions that a file can give: a requirement or a
    session setting with a non-empty value, a bare [BLOCK] or [ALLOW], or
    an [UNKNOWN] action that holds a whole line starting with [BLOCK] or
    [ALLOW]; only a requirement can be an OR requirement. *)
Definition parsed_action (a : Action.t) : Prop :=
  match Action.value a with
  | Some v =>
      v <> EmptyString
      /\ (Action.type a = "REQUIRE"
          \/ (Action.type a = "SESSION" /\ Action.is_or a = false)
          \/ (Action.type a = "UNKNOWN" /\ Action.is_or a = false
              /\ (Py.startswith v "BLOCK" = true
                  \/ Py.startswith v "ALLOW" = true)))
  | None =>
      In (Action.type a) ["BLOCK"; "ALLOW"] /\ Action.is_or a = false
  end.

(** *** The groups of a match

    The pieces of a text, one per token of a pattern, and the pieces that
    the capturing tokens keep. *)
Definition captures (t : Re.tok) : bool :=
  match t with
  | Re.Alt capture _ => capture
  | Re.Plus capture _ => capture
  | _ => false
  end.

Fixpoint captured (p : list Re.tok) (ms : list string) : list string :=
  match p, ms with
  | t :: p', m :: ms' =>
      if captures t then m :: captured p' ms' else captured p' ms'
  | _, _ => []
  end.

Fixpoint concat_pieces (ms : list string) : string :=
  match ms with
  | [] => EmptyString
  | m :: ms' => m ^^ concat_pieces ms'
  end.

Fixpoint ends_in_literal (p : list Re.tok) : bool :=
  match p with
  | [] => false
  | [Re.Lit _] => true
  | _ :: p' => ends_in_literal p'
  end.

(** A run of blanks, and a run of at least one. *)
Definition blanks (w : string) : Prop := all_class Re.CSpace w = true.

Definition blanks1 (w : string) : Prop :=
  w <> EmptyString /\ all_class Re.CSpace w = true.

(** A display name and an identifier as the grammar writes them: the one
    non-empty without a double quote, the other non-empty without a
    closing bracket. *)
Definition quotable (display_name : string) : Prop :=
  display_name <> EmptyString
  /\ all_class (Re.CNot CAPLParser.c_quote) display_name = true.

Definition bracketable (guid : string) : Prop :=
  guid <> EmptyString
  /\ all_class (Re.CNot CAPLParser.c_rbracket) guid = true.

(** A name: a non-empty run of word characters. *)
Definition word (name : string) : Prop :=
  name <> EmptyString /\ all_class Re.CWord name = true.

(** A line that declares [name] as [display_name] with [guid]: the
    keyword, the name, the equals sign, the quoted display name and the
    bracketed identifier, with the blanks that the pattern of
    [_parse_variable] allows, and anything after. *)
Definition declaration_line (name display_name guid line : string) : Prop :=
  exists w1 w2 w3 w4 rest,
    blanks1 w1 /\ blanks w2 /\ blanks w3 /\ blanks w4
    /\ line
       = "VAR" ^^ w1 ^^ name ^^ w2 ^^ "=" ^^ w3 ^^ dquote ^^ display_name
         ^^ dquote ^^ w4 ^^ "[" ^^ guid ^^ "]" ^^ rest.

(** What a reference to a variable is replaced by. *)
Definition replacement (v : Var.t) : string :=
  dquote ^^ Var.display_name v ^^ dquote ^^ " [" ^^ Var.guid v ^^ "]".

(** A name that starts with a capital letter, and a text without one. *)
Definition starts_upper (name : string) : Prop :=
  match name with
  | String a _ => Py.is_upper a = true
  | EmptyString => False
  end.

Fixpoint no_upper (s : string) : bool :=
  match s with
  | EmptyString => true
  | String c s' => negb (Py.is_upper c) && no_upper s'
  end.

(** No other declared name occurs in a text. *)
Definition no_other_name (vars : Dict.t Var.t) (name text : string) : Prop :=
  forall k, In k (Dict.keys vars) -> k <> name -> Py.contains k text = false.

(** A text without the pipe character, which [_parse_action] uses to
    delimit the alternatives of an OR requirement. *)
Definition c_pipe : ascii := ascii_of_nat 124.

Definition no_pipe (s : string) : Prop :=
  all_class (Re.CNot c_pipe) s = true.

(** The separator that [_cluster_by_action] puts between signature and
    state, and a path in whose signature and state it does not occur. *)
Definition state_separator : string := "|STATE:".

Definition separable (p : PolicyPath.t) : Prop :=
  Py.contains state_separator (get_action_signature p) = false
  /\ Py.contains state_separator (PolicyPath.state p) = false.

(** The field of a record created for a cluster, whatever the counter. *)
Definition record_of_cluster (set_order : PySet.t -> list string)
  (policy : Dict.t yaml) (kv : string * list PolicyPath.t) : Prop :=
  exists self,
    policy
    = fst (PolicyOptimizer.merge_cluster set_order self (fst kv) (snd kv)).

(** The groups that a record excludes: the entry [ExcludeGroups] of the
    section [Users] of its conditions, when there is one. *)
Definition excluded_groups (policy : Dict.t yaml) : option yaml :=
  match Dict.get policy "Conditions" with
  | Some (YDict cond_dict) =>
      match Dict.get cond_dict "Users" with
      | Some (YDict users) => Dict.get users "ExcludeGroups"
      | _ => None
      end
  | _ => None
  end.

Definition no_exclusion (cond_dict : Dict.t yaml) : Prop :=
  match Dict.get cond_dict "Users" with
  | Some (YDict users) => Dict.get users "ExcludeGroups" = None
  | _ => True
  end.

(** A Condition that is not a negated membership of kind [user-group]. *)
Definition not_negated_group (c : Condition.t) : Prop :=
  Condition.type c = "user-group" -> Condition.is_negated c = false.

(** *** Decisions written in the plain layout

    A Decision with one [IF] branch and at most an [ELSE] branch, each
    with its [STATE] line and its action lines, one item per line. *)

Definition c_newline : ascii := ascii_of_nat 10.

Definition single_line (s : string) : Prop :=
  all_class (Re.CNot c_newline) s = true.

(** A text as a line holds it once stripped: not empty, no blank at
    either end, no line break. *)
Definition line_text (s : string) : Prop :=
  s <> EmptyString /\ Py.strip s = s /\ single_line s.

(** A condition on a line of its own, after the line of the keyword: it
    is not a comment and is not taken for a [STATE] line, a nested
    Decision or a word that ends the branch. *)
Definition condition_line (s : string) : Prop :=
  line_text s
  /\ Py.startswith s "#" = false
  /\ Py.startswith s "STATE " = false
  /\ Py.startswith s "IF " = false
  /\ Py.mem s ["ELSE IF "; "ELSE"; "END"] = false.

Definition action_line (s : string) : Prop :=
  line_text s /\ CAPLParser.is_action_line s = true.

Definition indentation (w : string) : Prop := blanks w /\ single_line w.

Record plain_decision : Type := mk_plain {
  first_condition : string;
  more_conditions : list string;
  plain_state : string;
  plain_actions : list string;
  plain_else : option (string * list string)
}.

Definition plain_ok (d : plain_decision) : Prop :=
  line_text (first_condition d)
  /\ Forall condition_line (more_conditions d)
  /\ line_text (plain_state d)
  /\ Forall action_line (plain_actions d)
  /\ match plain_else d with
     | Some (st, acts) => line_text st /\ Forall action_line acts
     | None => True
     end.

(** The lines of a Decision in the plain layout, with [i1] in front of
    the conditions and the [STATE] lines and [i2] in front of the
    actions. *)
Definition body_lines (i1 i2 st : string) (acts : list string)
  : list string :=
  (i1 ^^ "STATE " ^^ st) :: map (String.append i2) acts.

Definition plain_lines (i1 i2 : string) (d : plain_decision) : list string :=
  ("IF " ^^ first_condition d)
  :: map (String.append i1) (more_conditions d)
  ++ body_lines i1 i2 (plain_state d) (plain_actions d)
  ++ match plain_else d with
     | Some (st, acts) => "ELSE" :: body_lines i1 i2 st acts
     | None => []
     end
  ++ ["END"].

(** The Decision that such lines denote, under a variable table. *)
Definition plain_meaning (vars : Dict.t Var.t) (d : plain_decision)
  : IfStatement :=
  mkIf
    (mkBranch
       (map (fun t => fst (CAPLParser.parse_condition vars t))
          (first_condition d :: more_conditions d))
       (map CAPLParser.parse_action (plain_actions d))
       (plain_state d) None)
    []
    (match plain_else d with
     | Some (st, acts) =>
         Some (mkBranch [] (map CAPLParser.parse_action acts) st None)
     | None => None
     end).

(** The parser stands on line [l], after the lines [done]. *)
Definition line_here (p : CAPLParser.t) (done : list string) (l : string)
  (todo : list string) : Prop :=
  CAPLParser.lines p = done ++ l :: todo
  /\ CAPLParser.line_number p = length done.

(** The parser with its cursor moved to line [n]. *)
Definition moved_to (p : CAPLParser.t) (n : nat) : CAPLParser.t :=
  CAPLParser.mk (CAPLParser.variables p) n (CAPLParser.lines p)
    (CAPLParser.output p).

(** The entry of a record for a section that [_create_policy] removes
    when empty. *)
Definition optional_section (controls : Dict.t yaml) : option yaml :=
  if is_nil controls then None else Some (YDict controls).

(** A state text in which the separator of the cluster key does not
    occur. *)
Definition separator_free (s : string) : Prop :=
  Py.contains state_separator s = false.

(** A text of ASCII characters only (code points below 128): the texts
    on which the case folding of [Re.char_eq] and [Py.lower] is that of
    [re.IGNORECASE] and [str.lower]. *)
Definition ascii_only_b (s : string) : bool :=
  forallb (fun c => Nat.ltb (nat_of_ascii c) 128) (list_ascii_of_string s).

Definition ascii_only (s : string) : Prop := ascii_only_b s = true.

(** The longest decimal numeral that [int] converts under the default
    limit of the interpreter ([sys.int_info.default_max_str_digits]);
    on a longer one [int] raises [ValueError]. *)
Definition max_str_digits : nat := 4300.

Definition convertible (digits : string) : Prop :=
  Nat.leb (String.length digits) max_str_digits = true.

(** * Properties *)

(** ** Strings and lists *)

Lemma append_assoc (a b c : string) : (a ^^ b) ^^ c = a ^^ (b ^^ c).
Proof. induction a as [|x a IH]; simpl; [reflexivity | now rewrite IH]. Qed.

Lemma append_nil_r (a : string) : a ^^ EmptyString = a.
Proof. induction a as [|x a IH]; simpl; [reflexivity | now rewrite IH]. Qed.

Lemma append_length (a b : string) :
  String.length (a ^^ b) = String.length a + String.length b.
Proof. induction a as [|x a IH]; simpl; [reflexivity | now rewrite IH]. Qed.

(** Two concatenations with tails of equal length agree componentwise. *)
Lemma append_inj (a b x y : string) :
  String.length x = String.length y -> a ^^ x = b ^^ y -> a = b /\ x = y.
Proof.
  revert b. induction a as [|c a IH]; intros [|d b] Hlen H; simpl in H.
  - now split.
  - exfalso. apply (f_equal String.length) in H. simpl in H.
    rewrite append_length in H. lia.
  - exfalso. apply (f_equal String.length) in H. simpl in H.
    rewrite append_length in H. lia.
  - injection H as -> H. destruct (IH b Hlen H) as [-> ->]. now split.
Qed.

Lemma has_type_iff (ty : string) (a : Action.t) :
  has_type ty a = true <-> Action.type a = ty.
Proof. unfold has_type. apply String.eqb_eq. Qed.

Lemma is_nil_false_iff {A : Type} (l : list A) : is_nil l = false <-> l <> [].
Proof. destruct l; simpl; split; congruence. Qed.

Lemma filter_nonempty {A : Type} (f : A -> bool) (l : list A) (x : A) :
  In x l -> f x = true -> filter f l <> [].
Proof.
  intros Hin Hf Hnil.
  assert (H : In x (filter f l)) by (apply filter_In; now split).
  rewrite Hnil in H. exact H.
Qed.

(** ** Dictionaries *)

Lemma dict_get_set_same {V : Type} (d : Dict.t V) (k : string) (v : V) :
  Dict.get (Dict.set d k v) k = Some v.
Proof.
  induction d as [|[k' v'] d IH]; simpl.
  - now rewrite String.eqb_refl.
  - destruct (String.eqb k' k) eqn:E; simpl.
    + now rewrite String.eqb_refl.
    + now rewrite E.
Qed.

Lemma dict_get_set_other {V : Type} (d : Dict.t V) (k k' : string) (v : V) :
  k <> k' -> Dict.get (Dict.set d k v) k' = Dict.get d k'.
Proof.
  intros Hne. induction d as [|[k0 v0] d IH]; simpl.
  - destruct (String.eqb_spec k k'); [contradiction | reflexivity].
  - destruct (String.eqb_spec k0 k) as [->|Hk0]; simpl.
    + destruct (String.eqb_spec k k'); [contradiction | reflexivity].
    + destruct (String.eqb_spec k0 k'); [reflexivity | exact IH].
Qed.


(** ** Block overrides grants *)

Lemma build_grant_controls_block (actions : list Action.t) (a : Action.t) :
  In a actions -> Action.type a = "BLOCK" ->
  PolicyOptimizer.build_grant_controls actions = block_grant_controls.
Proof.
  intros Hin Hty. unfold PolicyOptimizer.build_grant_controls.
  assert (Hne : filter (has_type "BLOCK") actions <> []).
  { apply filter_nonempty with (x := a); [exact Hin|].
    now apply has_type_iff. }
  apply is_nil_false_iff in Hne. now rewrite Hne.
Qed.

(** C4. Whenever an action list holds a [BLOCK] action, the grant controls
    built from it are exactly [{Operator: OR, BuiltInControls: [block]}],
    whatever [REQUIRE] actions the list also holds; the record made by
    [_create_policy] carries them under [GrantControls]; and the outcome
    signature of a path with these actions is the token [BLOCK]. *)
Theorem block_overrides_grants (actions : list Action.t) :
  (exists a, In a actions /\ Action.type a = "BLOCK") ->
  PolicyOptimizer.build_grant_controls actions = block_grant_controls
  /\ (forall set_order self conds state,
         Dict.get
           (fst (PolicyOptimizer.create_policy set_order self conds actions
                   state))
           "GrantControls"
         = Some (YDict block_grant_controls))
  /\ (forall conds state,
         get_action_signature (PolicyPath.mk conds actions state) = "BLOCK").
Proof.
  intros [a [Hin Hty]].
  pose proof (build_grant_controls_block actions a Hin Hty) as Hg.
  split; [exact Hg|]. split.
  - intros set_order self conds state.
    unfold PolicyOptimizer.create_policy. rewrite Hg. simpl.
    destruct (is_nil (PolicyOptimizer.build_session_controls actions));
      reflexivity.
  - intros conds state. unfold get_action_signature. simpl.
    assert (He : existsb (has_type "BLOCK") actions = true).
    { apply existsb_exists. exists a. split; [exact Hin|].
      now apply has_type_iff. }
    now rewrite He.
Qed.

Lemma block_overrides_grants_witness :
  let actions :=
    [Action.mk "REQUIRE" (Some "MFA") false; Action.mk "BLOCK" None false] in
  (exists a, In a actions /\ Action.type a = "BLOCK")
  /\ PolicyOptimizer.build_grant_controls actions = block_grant_controls
  /\ (forall set_order self conds state,
         Dict.get
           (fst (PolicyOptimizer.create_policy set_order self conds actions
                   state))
           "GrantControls"
         = Some (YDict block_grant_controls))
  /\ (forall conds state,
         get_action_signature (PolicyPath.mk conds actions state) = "BLOCK").
Proof.
  assert (H : exists a,
             In a [Action.mk "REQUIRE" (Some "MFA") false;
                   Action.mk "BLOCK" None false]
             /\ Action.type a = "BLOCK").
  { exists (Action.mk "BLOCK" None false).
    split; [simpl; auto | reflexivity]. }
  split; [exact H|].
  exact (block_overrides_grants _ H).
Defined.

(** ** Unknown actions are inert *)

Lemma parse_action_unknown (line : string) :
  off_grammar_action_line line ->
  CAPLParser.parse_action line = Action.mk "UNKNOWN" (Some line) false.
Proof.
  intros (_ & Hreq & Hblock & Hallow & Hsess).
  unfold CAPLParser.parse_action. rewrite Hreq, Hsess.
  apply String.eqb_neq in Hblock, Hallow. now rewrite Hblock, Hallow.
Qed.

Lemma collect_controls_app (l1 l2 : list Action.t) :
  collect_controls (l1 ++ l2)
  = fold_left
      (fun (acc : list string * list string) (action : Action.t) =>
         let (grant_controls, session_controls) := acc in
         if has_type "REQUIRE" action then
           match Action.value action with
           | Some v =>
               if Py.truthy v then (grant_controls ++ [v], session_controls)
               else acc
           | None => acc
           end
         else if has_type "SESSION" action then
           match Action.value action with
           | Some v =>
               if Py.truthy v then (grant_controls, session_controls ++ [v])
               else acc
           | None => acc
           end
         else acc)
      l2 (collect_controls l1).
Proof. unfold collect_controls. now rewrite fold_left_app. Qed.

Lemma unknown_has_type (a : Action.t) (ty : string) :
  Action.type a = "UNKNOWN" -> ty <> "UNKNOWN" -> has_type ty a = false.
Proof.
  intros Ha Hty. unfold has_type. rewrite Ha.
  apply String.eqb_neq. congruence.
Qed.

Lemma signature_skips_unknown (conds : list Condition.t) (state : string)
  (l1 l2 : list Action.t) (a : Action.t) :
  Action.type a = "UNKNOWN" ->
  get_action_signature (PolicyPath.mk conds (l1 ++ a :: l2) state)
  = get_action_signature (PolicyPath.mk conds (l1 ++ l2) state).
Proof.
  intros Ha. unfold get_action_signature. simpl.
  rewrite !existsb_app. simpl.
  rewrite (unknown_has_type a "BLOCK" Ha) by discriminate. simpl.
  rewrite !collect_controls_app. simpl.
  rewrite (unknown_has_type a "REQUIRE" Ha) by discriminate.
  rewrite (unknown_has_type a "SESSION" Ha) by discriminate.
  destruct (collect_controls l1) as [g s]. reflexivity.
Qed.

Lemma filter_skips_unknown (ty : string) (l1 l2 : list Action.t)
  (a : Action.t) :
  Action.type a = "UNKNOWN" -> ty <> "UNKNOWN" ->
  filter (has_type ty) (l1 ++ a :: l2) = filter (has_type ty) (l1 ++ l2).
Proof.
  intros Ha Hty. rewrite !filter_app. simpl.
  now rewrite (unknown_has_type a ty Ha Hty).
Qed.

(** C10. An action line that starts with an action keyword but matches no
    action grammar is parsed into an Action of kind [UNKNOWN] holding the
    line; and an [UNKNOWN] action, wherever it stands in an action list,
    changes neither the outcome signature, nor the grant controls, nor the
    session controls, nor therefore the record made from the list. *)
Theorem unknown_action_inert :
  (forall line,
      off_grammar_action_line line ->
      CAPLParser.parse_action line = Action.mk "UNKNOWN" (Some line) false)
  /\ (forall (a : Action.t) (l1 l2 : list Action.t),
         Action.type a = "UNKNOWN" ->
         (forall conds state,
             get_action_signature (PolicyPath.mk conds (l1 ++ a :: l2) state)
             = get_action_signature (PolicyPath.mk conds (l1 ++ l2) state))
         /\ PolicyOptimizer.build_grant_controls (l1 ++ a :: l2)
            = PolicyOptimizer.build_grant_controls (l1 ++ l2)
         /\ PolicyOptimizer.build_session_controls (l1 ++ a :: l2)
            = PolicyOptimizer.build_session_controls (l1 ++ l2)
         /\ (forall set_order self conds state,
                PolicyOptimizer.create_policy set_order self conds
                  (l1 ++ a :: l2) state
                = PolicyOptimizer.create_policy set_order self conds
                    (l1 ++ l2) state)).
Proof.
  split; [exact parse_action_unknown|].
  intros a l1 l2 Ha.
  assert (Hg : PolicyOptimizer.build_grant_controls (l1 ++ a :: l2)
               = PolicyOptimizer.build_grant_controls (l1 ++ l2)).
  { unfold PolicyOptimizer.build_grant_controls.
    rewrite !(filter_skips_unknown _ l1 l2 a Ha) by discriminate.
    reflexivity. }
  assert (Hs : PolicyOptimizer.build_session_controls (l1 ++ a :: l2)
               = PolicyOptimizer.build_session_controls (l1 ++ l2)).
  { unfold PolicyOptimizer.build_session_controls.
    rewrite !(filter_skips_unknown _ l1 l2 a Ha) by discriminate.
    reflexivity. }
  split; [|split; [exact Hg | split; [exact Hs|]]].
  - intros conds state. now apply signature_skips_unknown.
  - intros set_order self conds state.
    unfold PolicyOptimizer.create_policy. now rewrite Hg, Hs.
Qed.

(** The two lines the claim names are off-grammar action lines, and the
    parser of a branch body records them as [UNKNOWN] actions. *)
Example blocked_is_unknown :
  off_grammar_action_line "BLOCKED"
  /\ off_grammar_action_line "ALLOW extra-text"
  /\ CAPLParser.parse_action "BLOCKED"
     = Action.mk "UNKNOWN" (Some "BLOCKED") false
  /\ CAPLParser.parse_action "ALLOW extra-text"
     = Action.mk "UNKNOWN" (Some "ALLOW extra-text") false.
Proof.
  unfold off_grammar_action_line.
  repeat split; try reflexivity; discriminate.
Qed.

Lemma unknown_action_inert_witness :
  CAPLParser.parse_action "BLOCKED"
  = Action.mk "UNKNOWN" (Some "BLOCKED") false
  /\ PolicyOptimizer.build_grant_controls
       ([Action.mk "REQUIRE" (Some "MFA") false]
        ++ Action.mk "UNKNOWN" (Some "BLOCKED") false
        :: [Action.mk "SESSION" (Some "block-downloads") false])
     = PolicyOptimizer.build_grant_controls
         ([Action.mk "REQUIRE" (Some "MFA") false]
          ++ [Action.mk "SESSION" (Some "block-downloads") false]).
Proof.
  destruct unknown_action_inert as [Hparse Hinert]. split.
  - apply Hparse. unfold off_grammar_action_line.
    repeat split; try reflexivity; discriminate.
  - apply Hinert. reflexivity.
Defined.

(** ** Path extraction *)

Lemma extract_paths_from_statement_eq (stmt : IfStatement)
  (parent : list Condition.t) :
  PathExtractor.extract_paths_from_statement stmt parent
  = paths_of_branch parent (if_branch stmt)
    ++ flat_map (paths_of_branch parent) (else_if_branches stmt)
    ++ match else_branch stmt with
       | Some b => paths_of_branch parent b
       | None => []
       end.
Proof. destruct stmt as [ib eibs eb]. reflexivity. Qed.

(** C9. A branch that carries a nested Decision contributes, whatever its
    own actions and state, exactly the paths of the nested Decision
    extracted under the parent conditions followed by the branch's own
    conditions, and no path of its own; this holds for the [if] branch,
    for every [else-if] branch and for the [else] branch of a Decision,
    whose paths are those of its branches in that order. *)
Theorem nested_decision_takes_precedence
  (parent conds : list Condition.t) (acts : list Action.t) (st : string)
  (nested : IfStatement) :
  let branch := mkBranch conds acts st (Some nested) in
  let nested_paths :=
    PathExtractor.extract_paths_from_statement nested (parent ++ conds) in
  paths_of_branch parent branch = nested_paths
  /\ (forall eibs eb,
         PathExtractor.extract_paths_from_statement (mkIf branch eibs eb)
           parent
         = nested_paths
           ++ flat_map (paths_of_branch parent) eibs
           ++ match eb with
              | Some b => paths_of_branch parent b
              | None => []
              end)
  /\ (forall ib before after eb,
         PathExtractor.extract_paths_from_statement
           (mkIf ib (before ++ branch :: after) eb) parent
         = paths_of_branch parent ib
           ++ (flat_map (paths_of_branch parent) before
               ++ nested_paths
               ++ flat_map (paths_of_branch parent) after)
           ++ match eb with
              | Some b => paths_of_branch parent b
              | None => []
              end)
  /\ (forall ib eibs,
         PathExtractor.extract_paths_from_statement
           (mkIf ib eibs (Some branch)) parent
         = paths_of_branch parent ib
           ++ flat_map (paths_of_branch parent) eibs
           ++ nested_paths).
Proof.
  intros branch nested_paths.
  assert (Hb : paths_of_branch parent branch = nested_paths) by reflexivity.
  split; [exact Hb|]. split; [|split].
  - intros eibs eb. rewrite extract_paths_from_statement_eq. simpl.
    now rewrite Hb.
  - intros ib before after eb. rewrite extract_paths_from_statement_eq.
    simpl. rewrite flat_map_app. simpl. now rewrite Hb.
  - intros ib eibs. rewrite extract_paths_from_statement_eq. simpl.
    now rewrite Hb.
Qed.

(** ** Sorting *)

Lemma insert_perm (x : string) (l : list string) :
  Permutation (Py.insert x l) (x :: l).
Proof.
  induction l as [|y l IH]; simpl; [apply Permutation_refl|].
  destruct (String.leb x y); [apply Permutation_refl|].
  apply perm_trans with (y :: x :: l); [now apply perm_skip | apply perm_swap].
Qed.

Lemma sort_perm (l : list string) : Permutation (Py.sort l) l.
Proof.
  induction l as [|x l IH]; simpl; [apply perm_nil|].
  apply perm_trans with (x :: Py.sort l);
    [apply insert_perm | now apply perm_skip].
Qed.

Lemma insert_sorted (x : string) (l : list string) :
  Sorted str_le l -> Sorted str_le (Py.insert x l).
Proof.
  induction l as [|y l IH]; intros Hs; simpl.
  - repeat constructor.
  - destruct (String.leb x y) eqn:E.
    + constructor; [exact Hs | constructor; exact E].
    + inversion Hs as [|? ? Hs' Hhd]; subst.
      constructor; [now apply IH|].
      assert (Hyx : str_le y x).
      { destruct (String.leb_total x y) as [H|H]; [congruence | exact H]. }
      destruct l as [|z l]; simpl.
      * constructor; exact Hyx.
      * destruct (String.leb x z); constructor; [exact Hyx|].
        now inversion Hhd.
Qed.

Lemma sort_sorted (l : list string) : Sorted str_le (Py.sort l).
Proof.
  induction l as [|x l IH]; simpl; [constructor | now apply insert_sorted].
Qed.

(** ** Outcome signature *)

Lemma collect_controls_values (actions : list Action.t) :
  collect_controls actions
  = (values_of "REQUIRE" actions, values_of "SESSION" actions).
Proof.
  assert (H : forall l g s,
             fold_left
               (fun (acc : list string * list string) (action : Action.t) =>
                  let (grant_controls, session_controls) := acc in
                  if has_type "REQUIRE" action then
                    match Action.value action with
                    | Some v =>
                        if Py.truthy v
                        then (grant_controls ++ [v], session_controls)
                        else acc
                    | None => acc
                    end
                  else if has_type "SESSION" action then
                    match Action.value action with
                    | Some v =>
                        if Py.truthy v
                        then (grant_controls, session_controls ++ [v])
                        else acc
                    | None => acc
                    end
                  else acc)
               l (g, s)
             = (g ++ values_of "REQUIRE" l, s ++ values_of "SESSION" l)).
  { induction l as [|a l IH]; intros g s; simpl.
    - now rewrite !app_nil_r.
    - destruct (has_type "REQUIRE" a) eqn:Er.
      + assert (Es : has_type "SESSION" a = false).
        { apply has_type_iff in Er. unfold has_type. now rewrite Er. }
        rewrite Es.
        destruct (Action.value a) as [v|]; [destruct (Py.truthy v)|];
          rewrite IH; simpl; rewrite <- ?app_assoc; reflexivity.
      + destruct (has_type "SESSION" a).
        * destruct (Action.value a) as [v|]; [destruct (Py.truthy v)|];
            rewrite IH; simpl; rewrite <- ?app_assoc; reflexivity.
        * rewrite IH. reflexivity. }
  unfold collect_controls. now rewrite H.
Qed.

Lemma values_of_truthy (ty : string) (actions : list Action.t) (v : string) :
  In v (values_of ty actions) -> Py.truthy v = true.
Proof.
  unfold values_of. rewrite in_flat_map. intros [a [_ Hv]].
  destruct (has_type ty a); [|contradiction].
  destruct (Action.value a) as [w|]; [|contradiction].
  destruct (Py.truthy w) eqn:E; [|contradiction].
  destruct Hv as [<-|[]]. exact E.
Qed.

Lemma join_truthy (sep x : string) (l : list string) :
  Py.truthy x = true -> Py.truthy (Py.join sep (x :: l)) = true.
Proof.
  intros Hx. destruct x as [|c x]; [discriminate|].
  unfold Py.join. simpl. destruct l; reflexivity.
Qed.

(** C2 (as amended). For a path with no [BLOCK] action the signature is
    [GRANT:<grant>] followed by [|SESSION:<session>] when there are session
    values, where <grant> joins with [,] the values of the [REQUIRE]
    actions, each taken whole, in lexicographic order and without
    deduplication ([ALLOW] when there are none), and <session> joins the
    values of the [SESSION] actions in the same way. *)
Theorem signature_of_unblocked_path (self : PolicyPath.t) :
  existsb (has_type "BLOCK") (PolicyPath.actions self) = false ->
  exists gs ss,
    Permutation gs (values_of "REQUIRE" (PolicyPath.actions self))
    /\ Sorted str_le gs
    /\ Permutation ss (values_of "SESSION" (PolicyPath.actions self))
    /\ Sorted str_le ss
    /\ get_action_signature self
       = "GRANT:" ^^ grant_component gs ^^ session_segment ss.
Proof.
  intros Hnb.
  exists (Py.sort (values_of "REQUIRE" (PolicyPath.actions self))),
         (Py.sort (values_of "SESSION" (PolicyPath.actions self))).
  split; [apply sort_perm|]. split; [apply sort_sorted|].
  split; [apply sort_perm|]. split; [apply sort_sorted|].
  unfold get_action_signature. rewrite Hnb, collect_controls_values.
  pose proof (sort_perm (values_of "SESSION" (PolicyPath.actions self)))
    as Hp.
  destruct (Py.sort (values_of "SESSION" (PolicyPath.actions self)))
    as [|s ss] eqn:Es.
  - simpl.
    destruct (Py.sort (values_of "REQUIRE" (PolicyPath.actions self)));
      simpl.
    + reflexivity.
    + now rewrite append_nil_r.
  - assert (Hs : Py.truthy s = true).
    { apply values_of_truthy with (ty := "SESSION")
        (actions := PolicyPath.actions self).
      apply Permutation_in with (l := s :: ss); [exact Hp | now left]. }
    rewrite (join_truthy "," s ss Hs).
    unfold grant_component, session_segment. reflexivity.
Qed.

Lemma signature_of_unblocked_path_witness :
  let self :=
    PolicyPath.mk []
      [CAPLParser.parse_action "REQUIRE MFA OR CompliantDevice";
       CAPLParser.parse_action "SESSION block-downloads"] "enabled" in
  existsb (has_type "BLOCK") (PolicyPath.actions self) = false
  /\ exists gs ss,
      Permutation gs (values_of "REQUIRE" (PolicyPath.actions self))
      /\ Sorted str_le gs
      /\ Permutation ss (values_of "SESSION" (PolicyPath.actions self))
      /\ Sorted str_le ss
      /\ get_action_signature self
         = "GRANT:" ^^ grant_component gs ^^ session_segment ss.
Proof.
  split; [reflexivity|].
  apply (signature_of_unblocked_path
           (PolicyPath.mk []
              [CAPLParser.parse_action "REQUIRE MFA OR CompliantDevice";
               CAPLParser.parse_action "SESSION block-downloads"]
              "enabled")).
  reflexivity.
Defined.

(** The alternatives of [REQUIRE MFA OR CompliantDevice] are not exploded:
    the path's grant component is the one value [MFA|CompliantDevice], not
    the [CompliantDevice,MFA] of the two separate requirements. *)
Lemma alternatives_not_exploded :
  let one :=
    PolicyPath.mk []
      [CAPLParser.parse_action "REQUIRE MFA OR CompliantDevice"] "enabled" in
  let two :=
    PolicyPath.mk []
      [CAPLParser.parse_action "REQUIRE CompliantDevice";
       CAPLParser.parse_action "REQUIRE MFA"] "enabled" in
  get_action_signature one = "GRANT:MFA|CompliantDevice"
  /\ get_action_signature two = "GRANT:CompliantDevice,MFA"
  /\ get_action_signature one <> get_action_signature two.
Proof.
  split; [reflexivity|]. split; [reflexivity|]. discriminate.
Qed.

(** ** Clustering *)

Lemma dict_get_in {V : Type} (d : Dict.t V) (k : string) (v : V) :
  Dict.get d k = Some v -> In (k, v) d.
Proof.
  induction d as [|[k' v'] d IH]; simpl; [discriminate|].
  destruct (String.eqb_spec k' k) as [->|Hne].
  - intros [= ->]. now left.
  - intros H. right. now apply IH.
Qed.

Lemma dict_in_get {V : Type} (d : Dict.t V) (k : string) (v : V) :
  NoDup (Dict.keys d) -> In (k, v) d -> Dict.get d k = Some v.
Proof.
  induction d as [|[k' v'] d IH]; simpl; [intros _ []|].
  intros Hnd [Heq|Hin].
  - injection Heq as -> ->. now rewrite String.eqb_refl.
  - inversion Hnd as [|? ? Hnotin Hnd']; subst.
    destruct (String.eqb_spec k' k) as [->|Hne]; [|now apply IH].
    exfalso. apply Hnotin. unfold Dict.keys.
    change k with (fst (k, v)). now apply in_map.
Qed.

Lemma dict_keys_set {V : Type} (d : Dict.t V) (k : string) (v : V) :
  Dict.keys (Dict.set d k v)
  = if Py.mem k (Dict.keys d) then Dict.keys d else Dict.keys d ++ [k].
Proof.
  induction d as [|[k' v'] d IH]; simpl; [reflexivity|].
  rewrite (String.eqb_sym k k').
  destruct (String.eqb_spec k' k) as [->|Hne]; simpl; [reflexivity|].
  rewrite IH. unfold Py.mem. now destruct (existsb (String.eqb k) _).
Qed.

Lemma mem_iff (x : string) (l : list string) : Py.mem x l = true <-> In x l.
Proof.
  unfold Py.mem. rewrite existsb_exists. split.
  - intros [y [Hin Heq]]. apply String.eqb_eq in Heq. now subst.
  - intros Hin. exists x. split; [exact Hin | apply String.eqb_refl].
Qed.

Lemma mem_false_iff (x : string) (l : list string) :
  Py.mem x l = false <-> ~ In x l.
Proof.
  rewrite <- mem_iff. destruct (Py.mem x l); split; congruence.
Qed.

Lemma dict_set_nodup {V : Type} (d : Dict.t V) (k : string) (v : V) :
  NoDup (Dict.keys d) -> NoDup (Dict.keys (Dict.set d k v)).
Proof.
  intros Hnd. rewrite dict_keys_set.
  destruct (Py.mem k (Dict.keys d)) eqn:E; [exact Hnd|].
  apply mem_false_iff in E.
  apply NoDup_app; [exact Hnd | repeat constructor; simpl; tauto |].
  intros x Hx [<-|[]]. contradiction.
Qed.

Lemma dict_append_nodup {V : Type} (d : Dict.t (list V)) (k : string)
  (x : V) :
  NoDup (Dict.keys d) -> NoDup (Dict.keys (Dict.append d k x)).
Proof.
  intros Hnd. unfold Dict.append.
  destruct (Dict.get d k); now apply dict_set_nodup.
Qed.

Lemma dict_get_append_same {V : Type} (d : Dict.t (list V)) (k : string)
  (x : V) :
  Dict.get (Dict.append d k x) k
  = Some (match Dict.get d k with Some l => l ++ [x] | None => [x] end).
Proof.
  unfold Dict.append. destruct (Dict.get d k); apply dict_get_set_same.
Qed.

Lemma dict_get_append_other {V : Type} (d : Dict.t (list V)) (k k' : string)
  (x : V) :
  k <> k' -> Dict.get (Dict.append d k x) k' = Dict.get d k'.
Proof.
  intros Hne. unfold Dict.append.
  destruct (Dict.get d k); now apply dict_get_set_other.
Qed.

(** What the clustering loop maintains: keys are distinct, the members of
    a cluster have the cluster's key as full signature, and every path
    met so far is a member of the cluster of its full signature. *)
Lemma cluster_loop_invariant (paths seen : list PolicyPath.t)
  (clusters : Dict.t (list PolicyPath.t)) :
  NoDup (Dict.keys clusters) ->
  (forall k l p, Dict.get clusters k = Some l -> In p l ->
                 PolicyOptimizer.full_signature p = k) ->
  (forall p, In p seen ->
             exists l, Dict.get clusters (PolicyOptimizer.full_signature p)
                       = Some l /\ In p l) ->
  let result :=
    fold_left
      (fun clusters path =>
         Dict.append clusters (PolicyOptimizer.full_signature path) path)
      paths clusters in
  NoDup (Dict.keys result)
  /\ (forall k l p, Dict.get result k = Some l -> In p l ->
                    PolicyOptimizer.full_signature p = k)
  /\ (forall p, In p (seen ++ paths) ->
                exists l, Dict.get result (PolicyOptimizer.full_signature p)
                          = Some l /\ In p l).
Proof.
  revert seen clusters.
  induction paths as [|x paths IH]; intros seen clusters Hnd Hkey Hseen;
    simpl.
  - rewrite app_nil_r. now repeat split.
  - specialize (IH (seen ++ [x])
                  (Dict.append clusters (PolicyOptimizer.full_signature x) x)).
    rewrite <- app_assoc in IH. simpl in IH. apply IH.
    + now apply dict_append_nodup.
    + intros k l p Hget Hin.
      destruct (String.eqb_spec (PolicyOptimizer.full_signature x) k)
        as [Heq|Hne].
      * subst k. rewrite dict_get_append_same in Hget.
        injection Hget as <-.
        destruct (Dict.get clusters (PolicyOptimizer.full_signature x))
          as [l0|] eqn:E.
        -- apply in_app_or in Hin. destruct Hin as [Hin|[<-|[]]];
             [now apply (Hkey _ l0) | reflexivity].
        -- destruct Hin as [<-|[]]. reflexivity.
      * rewrite dict_get_append_other in Hget by exact Hne.
        now apply (Hkey k l).
    + intros p Hin. apply in_app_or in Hin.
      destruct (String.eqb_spec (PolicyOptimizer.full_signature x)
                  (PolicyOptimizer.full_signature p)) as [Heq|Hne].
      * rewrite <- Heq, dict_get_append_same. eexists. split; [reflexivity|].
        destruct Hin as [Hin|[<-|[]]].
        -- destruct (Hseen p Hin) as [l [Hl Hpl]]. rewrite <- Heq in Hl.
           rewrite Hl. apply in_or_app. now left.
        -- destruct (Dict.get clusters (PolicyOptimizer.full_signature x));
             [apply in_or_app; right|]; now left.
      * rewrite dict_get_append_other by exact Hne.
        destruct Hin as [Hin|[<-|[]]]; [now apply Hseen | congruence].
Qed.

Lemma cluster_by_action_spec (paths : list PolicyPath.t) :
  NoDup (Dict.keys (PolicyOptimizer.cluster_by_action paths))
  /\ (forall k l p,
         Dict.get (PolicyOptimizer.cluster_by_action paths) k = Some l ->
         In p l -> PolicyOptimizer.full_signature p = k)
  /\ (forall p, In p paths ->
                exists l,
                  Dict.get (PolicyOptimizer.cluster_by_action paths)
                    (PolicyOptimizer.full_signature p) = Some l
                  /\ In p l).
Proof.
  apply (cluster_loop_invariant paths [] []).
  - constructor.
  - intros k l p H. discriminate H.
  - intros p [].
Qed.

Lemma prefix_append (a s : string) : String.prefix a (a ^^ s) = true.
Proof.
  induction a as [|c a IH]; [destruct s; reflexivity|].
  cbn [String.append String.prefix].
  destruct (ascii_dec c c); [exact IH | contradiction].
Qed.

Lemma contains_prefix (sub s : string) :
  String.prefix sub s = true -> Py.contains sub s = true.
Proof. intros H. destruct s; cbn [Py.contains]; now rewrite H. Qed.

Lemma contains_app (sub x y : string) :
  Py.contains sub (x ^^ sub ^^ y) = true.
Proof.
  induction x as [|c x IH]; cbn [String.append].
  - apply contains_prefix, prefix_append.
  - cbn [Py.contains]. rewrite IH. now destruct (String.prefix sub _).
Qed.

(** In a key whose state holds no separator, the first separator is the
    one that [_cluster_by_action] put there. *)
Lemma separator_first (b st1 st2 : string) :
  separator_free st1 ->
  state_separator ^^ st1 = b ^^ state_separator ^^ st2 ->
  b = EmptyString.
Proof.
  intros Hst H. destruct b as [|c0 b]; [reflexivity|]. exfalso.
  set (rest := state_separator ^^ st2) in H.
  assert (Hrest : String.prefix state_separator rest = true)
    by apply prefix_append.
  unfold state_separator in H, Hrest. cbn [String.append] in H.
  injection H as _ H.
  do 6 (destruct b as [|? b];
        [ cbn [String.append] in H; rewrite <- H in Hrest;
          discriminate Hrest
        | cbn [String.append] in H; injection H as _ H ]).
  unfold separator_free in Hst. subst rest.
  rewrite H, contains_app in Hst. discriminate Hst.
Qed.

Lemma key_inj (a : string) :
  forall b st1 st2,
    separator_free st1 -> separator_free st2 ->
    a ^^ state_separator ^^ st1 = b ^^ state_separator ^^ st2 ->
    a = b /\ st1 = st2.
Proof.
  induction a as [|c a IH]; intros b st1 st2 H1 H2 H.
  - cbn [String.append] in H.
    pose proof (separator_first b st1 st2 H1 H) as Hb. subst b.
    unfold state_separator in H. cbn [String.append] in H.
    injection H as H. now split.
  - destruct b as [|d b].
    + exfalso. symmetry in H. apply separator_first in H; [|exact H2].
      discriminate H.
    + cbn [String.append] in H. injection H as Hc H.
      destruct (IH b st1 st2 H1 H2 H) as [Ha Hs]. subst. now split.
Qed.

(** The full cluster key determines signature and state, when the states
    hold no separator. *)
Lemma full_signature_inj (p q : PolicyPath.t) :
  separator_free (PolicyPath.state p) ->
  separator_free (PolicyPath.state q) ->
  PolicyOptimizer.full_signature p = PolicyOptimizer.full_signature q ->
  get_action_signature p = get_action_signature q
  /\ PolicyPath.state p = PolicyPath.state q.
Proof.
  unfold PolicyOptimizer.full_signature. fold state_separator.
  apply key_inj.
Qed.

(** The enforcement states of the data model hold no separator. *)
Lemma valid_state_separator_free (s : string) :
  valid_state s -> separator_free s.
Proof. intros [H | [H | H]]; subst s; reflexivity. Qed.

(** C7 (as amended). Clustering partitions the FlatPaths by outcome
    signature and enforcement state as long as the state texts do not
    hold the separator [|STATE:] of the cluster key (the states
    [enabled], [disabled] and [report-only] of the data model do not):
    two such paths of the input are members of one cluster if and only
    if their signatures are equal and their states are equal; so a
    [report-only] path and an [enabled] path are never in the same
    cluster. *)
Theorem cluster_by_signature_and_state (paths : list PolicyPath.t)
  (p q : PolicyPath.t) :
  In p paths -> In q paths ->
  separator_free (PolicyPath.state p) ->
  separator_free (PolicyPath.state q) ->
  (same_cluster paths p q
   <-> get_action_signature p = get_action_signature q
       /\ PolicyPath.state p = PolicyPath.state q)
  /\ (PolicyPath.state p = "report-only" -> PolicyPath.state q = "enabled" ->
      ~ same_cluster paths p q).
Proof.
  intros Hp Hq Hvp Hvq.
  destruct (cluster_by_action_spec paths) as (Hnd & Hkey & Hall).
  assert (Hiff : same_cluster paths p q
                 <-> get_action_signature p = get_action_signature q
                     /\ PolicyPath.state p = PolicyPath.state q).
  { split.
    - intros (key & members & Hin & Hpm & Hqm).
      apply dict_in_get in Hin; [|exact Hnd].
      apply full_signature_inj; [exact Hvp | exact Hvq |].
      rewrite (Hkey key members p Hin Hpm).
      now rewrite (Hkey key members q Hin Hqm).
    - intros [Hsig Hst].
      destruct (Hall p Hp) as [l [Hl Hpl]].
      destruct (Hall q Hq) as [l' [Hl' Hql']].
      assert (Hfull : PolicyOptimizer.full_signature q
                      = PolicyOptimizer.full_signature p).
      { unfold PolicyOptimizer.full_signature. now rewrite Hsig, Hst. }
      rewrite Hfull, Hl in Hl'. injection Hl' as <-.
      exists (PolicyOptimizer.full_signature p), l.
      split; [now apply dict_get_in | now split]. }
  split; [exact Hiff|].
  intros Hr He Hsame. apply Hiff in Hsame. destruct Hsame as [_ Hst].
  rewrite Hr, He in Hst. discriminate Hst.
Qed.

Lemma cluster_by_signature_and_state_witness :
  let p :=
    PolicyPath.mk [Condition.mk "user" "is" "All" None false]
      [Action.mk "REQUIRE" (Some "MFA") false] "report-only" in
  let q :=
    PolicyPath.mk [Condition.mk "user" "is" "All" None false]
      [Action.mk "REQUIRE" (Some "MFA") false] "enabled" in
  (In p [p; q] /\ In q [p; q]
   /\ separator_free (PolicyPath.state p)
   /\ separator_free (PolicyPath.state q))
  /\ (same_cluster [p; q] p q
      <-> get_action_signature p = get_action_signature q
          /\ PolicyPath.state p = PolicyPath.state q)
  /\ (PolicyPath.state p = "report-only" -> PolicyPath.state q = "enabled" ->
      ~ same_cluster [p; q] p q).
Proof.
  intros p q.
  assert (Hp : In p [p; q]) by (simpl; auto).
  assert (Hq : In q [p; q]) by (simpl; auto).
  assert (Hvp : separator_free (PolicyPath.state p))
    by (apply valid_state_separator_free; right; right; reflexivity).
  assert (Hvq : separator_free (PolicyPath.state q))
    by (apply valid_state_separator_free; left; reflexivity).
  split; [repeat split; assumption|].
  exact (cluster_by_signature_and_state [p; q] p q Hp Hq Hvp Hvq).
Defined.

(** The two paths of the witness end in two clusters. *)
Example report_only_kept_apart :
  let p :=
    PolicyPath.mk [Condition.mk "user" "is" "All" None false]
      [Action.mk "REQUIRE" (Some "MFA") false] "report-only" in
  let q :=
    PolicyPath.mk [Condition.mk "user" "is" "All" None false]
      [Action.mk "REQUIRE" (Some "MFA") false] "enabled" in
  PolicyOptimizer.cluster_by_action [p; q]
  = [("GRANT:MFA|STATE:report-only", [p]); ("GRANT:MFA|STATE:enabled", [q])].
Proof. reflexivity. Qed.

(** Not every two FlatPaths are kept apart by signature and state: the
    parser stores whatever text follows [STATE], and with a state text
    that holds [|STATE:] two paths that differ in signature and in state
    get one key and are members of one cluster. *)
Lemma full_signature_collision :
  let p :=
    PolicyPath.mk [] [CAPLParser.parse_action "REQUIRE MFA|STATE:x"] "y" in
  let q :=
    PolicyPath.mk [] [CAPLParser.parse_action "REQUIRE MFA"] "x|STATE:y" in
  same_cluster [p; q] p q
  /\ get_action_signature p <> get_action_signature q
  /\ PolicyPath.state p <> PolicyPath.state q.
Proof.
  intros p q. split; [|split; discriminate].
  exists "GRANT:MFA|STATE:x|STATE:y", [p; q].
  split; [now left|]. simpl. auto.
Qed.

(** ** Grouping by key *)

Section GroupBy.

Context {V : Type} (key : V -> string).

Lemma group_get (l : list V) :
  forall (d : Dict.t (list V)) (k : string),
    Dict.get (fold_left (fun d x => Dict.append d (key x) x) l d) k
    = match Dict.get d k, filter (fun x => String.eqb (key x) k) l with
      | Some l0, f => Some (l0 ++ f)
      | None, [] => None
      | None, f => Some f
      end.
Proof.
  induction l as [|x l IH]; intros d k; simpl.
  - destruct (Dict.get d k); [now rewrite app_nil_r | reflexivity].
  - rewrite IH. destruct (String.eqb_spec (key x) k) as [E|E].
    + subst k. rewrite dict_get_append_same.
      destruct (Dict.get d (key x)); [now rewrite <- app_assoc | reflexivity].
    + rewrite dict_get_append_other by exact E. reflexivity.
Qed.

Lemma group_nodup (l : list V) :
  forall d : Dict.t (list V),
    NoDup (Dict.keys d) ->
    NoDup (Dict.keys (fold_left (fun d x => Dict.append d (key x) x) l d)).
Proof.
  induction l as [|x l IH]; intros d Hnd; simpl; [exact Hnd|].
  apply IH. now apply dict_append_nodup.
Qed.

End GroupBy.

(** ** Sets *)

Lemma set_add_in (s : PySet.t) (x v : string) :
  In v (PySet.add s x) <-> In v s \/ v = x.
Proof.
  unfold PySet.add. destruct (Py.mem x s) eqn:E.
  - apply mem_iff in E. split; [now left | intros [H| ->]; assumption].
  - rewrite in_app_iff. simpl. intuition congruence.
Qed.

Lemma set_add_nodup (s : PySet.t) (x : string) :
  NoDup s -> NoDup (PySet.add s x).
Proof.
  intros Hnd. unfold PySet.add. destruct (Py.mem x s) eqn:E; [exact Hnd|].
  apply mem_false_iff in E.
  apply NoDup_app; [exact Hnd | repeat constructor; simpl; tauto |].
  intros y Hy [<-|[]]. contradiction.
Qed.

Lemma set_update_in (xs : list string) :
  forall (s : PySet.t) (v : string),
    In v (PySet.update s xs) <-> In v s \/ In v xs.
Proof.
  unfold PySet.update.
  induction xs as [|x xs IH]; intros s v; simpl; [tauto|].
  rewrite IH, set_add_in. intuition congruence.
Qed.

Lemma set_update_nodup (xs : list string) :
  forall s : PySet.t, NoDup s -> NoDup (PySet.update s xs).
Proof.
  unfold PySet.update.
  induction xs as [|x xs IH]; intros s Hnd; simpl; [exact Hnd|].
  apply IH. now apply set_add_nodup.
Qed.

(** The set of values of a group is the union of the literal values of its
    conditions. *)
Lemma collect_values_spec (conds : list Condition.t) :
  NoDup (PolicyOptimizer.collect_values conds)
  /\ forall v,
      In v (PolicyOptimizer.collect_values conds)
      <-> exists c, In c conds /\ In v (literal_values c).
Proof.
  unfold PolicyOptimizer.collect_values.
  assert (H : forall (s : PySet.t),
             NoDup s ->
             let r :=
               fold_left
                 (fun values cond =>
                    if String.eqb (Condition.operator cond) "is-or"
                    then PySet.update values
                           (Py.split (Condition.value cond) "|")
                    else PySet.add values (Condition.value cond))
                 conds s in
             NoDup r
             /\ forall v, In v r
                          <-> In v s
                              \/ exists c, In c conds
                                           /\ In v (literal_values c)).
  { induction conds as [|c conds IH]; intros s Hnd; simpl.
    - split; [exact Hnd|]. intros v. split; [now left|].
      intros [H|[c [[] _]]]. exact H.
    - match goal with
      | |- context [fold_left _ conds ?s0] =>
          destruct (IH s0) as [Hnd' Hin]
      end.
      { destruct (String.eqb (Condition.operator c) "is-or");
          [now apply set_update_nodup | now apply set_add_nodup]. }
      split; [exact Hnd'|]. intros v. rewrite Hin.
      assert (Hc : In v (if String.eqb (Condition.operator c) "is-or"
                         then PySet.update s
                                (Py.split (Condition.value c) "|")
                         else PySet.add s (Condition.value c))
                   <-> In v s \/ In v (literal_values c)).
      { unfold literal_values.
        destruct (String.eqb (Condition.operator c) "is-or").
        - apply set_update_in.
        - rewrite set_add_in. simpl. intuition congruence. }
      rewrite Hc. split.
      + intros [[H|H]|[c' [Hc' Hv]]].
        * now left.
        * right. exists c. split; [now left | exact H].
        * right. exists c'. split; [now right | exact Hv].
      + intros [H|[c' [[<-|Hc'] Hv]]].
        * left. now left.
        * left. now right.
        * right. exists c'. now split. }
  destruct (H PySet.empty) as [Hnd Hin]; [constructor|].
  split; [exact Hnd|]. intros v. rewrite Hin. simpl. tauto.
Qed.

(** ** Merging the conditions of a cluster *)

Lemma group_conditions_flat (paths : list PolicyPath.t) :
  PolicyOptimizer.group_conditions paths
  = fold_left (fun d c => Dict.append d (Condition.type c) c)
      (flat_map PolicyPath.conditions paths) [].
Proof.
  unfold PolicyOptimizer.group_conditions. generalize (@nil (string * list Condition.t)).
  induction paths as [|p paths IH]; intros d; simpl; [reflexivity|].
  now rewrite IH, fold_left_app.
Qed.

Lemma group_conditions_get (paths : list PolicyPath.t) (k : string) :
  Dict.get (PolicyOptimizer.group_conditions paths) k
  = match conditions_of_type k paths with
    | [] => None
    | f => Some f
    end.
Proof. rewrite group_conditions_flat, group_get. reflexivity. Qed.

Lemma group_conditions_nodup (paths : list PolicyPath.t) :
  NoDup (Dict.keys (PolicyOptimizer.group_conditions paths)).
Proof. rewrite group_conditions_flat. apply group_nodup. constructor. Qed.

Lemma conditions_of_type_type (k : string) (paths : list PolicyPath.t)
  (c : Condition.t) :
  In c (conditions_of_type k paths) -> Condition.type c = k.
Proof.
  unfold conditions_of_type. rewrite filter_In. intros [_ H].
  now apply String.eqb_eq.
Qed.

(** Every condition that the merge of a group emits has the group's type. *)
Lemma merge_keeps_type (set_order : PySet.t -> list string) (k : string)
  (conds : list Condition.t) (c : Condition.t) :
  (forall c', In c' conds -> Condition.type c' = k) ->
  In c (PolicyOptimizer.merge_conditions_of_type set_order k conds) ->
  Condition.type c = k.
Proof.
  intros Hty. unfold PolicyOptimizer.merge_conditions_of_type.
  destruct conds as [|first rest]; [intros []|].
  assert (Hfirst : Condition.type first = k) by (apply Hty; now left).
  destruct (Py.mem k _).
  - destruct (Nat.ltb _ _); intros [<-|[]]; [reflexivity | exact Hfirst].
  - destruct (Py.mem k _).
    + rewrite in_map_iff. intros [g [<- _]]. reflexivity.
    + intros [<-|[]]. exact Hfirst.
Qed.

Lemma filter_all {A : Type} (f : A -> bool) (l : list A) :
  (forall x, In x l -> f x = true) -> filter f l = l.
Proof.
  induction l as [|x l IH]; intros H; simpl; [reflexivity|].
  rewrite (H x) by now left. rewrite IH; [reflexivity|].
  intros y Hy. apply H. now right.
Qed.

Lemma filter_none {A : Type} (f : A -> bool) (l : list A) :
  (forall x, In x l -> f x = false) -> filter f l = [].
Proof.
  induction l as [|x l IH]; intros H; simpl; [reflexivity|].
  rewrite (H x) by now left. apply IH. intros y Hy. apply H. now right.
Qed.

Lemma dict_get_notin {V : Type} (d : Dict.t V) (k : string) :
  ~ In k (Dict.keys d) -> Dict.get d k = None.
Proof.
  induction d as [|[k' v] d IH]; simpl; [reflexivity|]. intros H.
  destruct (String.eqb_spec k' k) as [->|Hne]; [exfalso; apply H; now left|].
  apply IH. intros Hin. apply H. now right.
Qed.

Lemma merge_groups_filter (set_order : PySet.t -> list string) (k : string)
  (d : Dict.t (list Condition.t)) :
  NoDup (Dict.keys d) ->
  (forall k' cs, In (k', cs) d -> forall c, In c cs -> Condition.type c = k') ->
  filter (fun c => String.eqb (Condition.type c) k)
    (PolicyOptimizer.merge_groups set_order d)
  = match Dict.get d k with
    | Some cs => PolicyOptimizer.merge_conditions_of_type set_order k cs
    | None => []
    end.
Proof.
  unfold PolicyOptimizer.merge_groups.
  induction d as [|[k0 cs0] d IH]; intros Hnd Hgrp; simpl; [reflexivity|].
  inversion Hnd as [|? ? Hnotin Hnd']; subst.
  assert (Hty0 : forall c,
             In c (PolicyOptimizer.merge_conditions_of_type set_order k0 cs0)
             -> Condition.type c = k0).
  { intros c. apply merge_keeps_type. apply (Hgrp k0 cs0). now left. }
  rewrite filter_app, IH; [|exact Hnd'|].
  - destruct (String.eqb_spec k0 k) as [->|Hne].
    + rewrite (dict_get_notin d k Hnotin), app_nil_r.
      apply filter_all. intros c Hc. apply String.eqb_eq. now apply Hty0.
    + rewrite filter_none; [reflexivity|].
      intros c Hc. apply String.eqb_neq. rewrite (Hty0 c Hc). exact Hne.
  - intros k' cs Hin. apply (Hgrp k' cs). now right.
Qed.

(** Among the merged conditions of a cluster, those of kind [k] are what
    the merge of the group of [k] emits. *)
Lemma merge_groups_of_type (set_order : PySet.t -> list string)
  (paths : list PolicyPath.t) (k : string) :
  filter (fun c => String.eqb (Condition.type c) k)
    (PolicyOptimizer.merge_groups set_order
       (PolicyOptimizer.group_conditions paths))
  = PolicyOptimizer.merge_conditions_of_type set_order k
      (conditions_of_type k paths).
Proof.
  pose proof (group_conditions_nodup paths) as Hnd.
  rewrite merge_groups_filter; [|exact Hnd|].
  - rewrite group_conditions_get.
    destruct (conditions_of_type k paths); reflexivity.
  - intros k' cs Hin c Hc. apply dict_in_get in Hin; [|exact Hnd].
    rewrite group_conditions_get in Hin.
    destruct (conditions_of_type k' paths) eqn:E; [discriminate|].
    injection Hin as <-. apply conditions_of_type_type with (paths := paths).
    now rewrite E.
Qed.

Lemma split_aux_nonempty (sep s : string) :
  forall skip cur, Py.split_aux sep s skip cur <> [].
Proof.
  induction s as [|c s IH]; intros skip cur; cbn [Py.split_aux];
    [discriminate|].
  destruct skip; [|apply IH].
  destruct (String.prefix sep (String c s)); [discriminate | apply IH].
Qed.

Lemma literal_values_nonempty (c : Condition.t) : literal_values c <> [].
Proof.
  unfold literal_values.
  destruct (String.eqb (Condition.operator c) "is-or"); [|discriminate].
  apply split_aux_nonempty.
Qed.

(** C5. For a cluster and a list-capable kind that occurs in it, let the
    members be the union of the literal values ([is-or] values exploded on
    the bar) of the conditions of that kind over all paths of the cluster.
    The merged conditions of the cluster hold exactly one Condition of that
    kind: the [is-or] Condition whose value joins the sorted members with
    the bar when there is more than one member, and the first original
    Condition of that kind, unchanged, when there is exactly one. *)
Theorem list_capable_merge (set_order : PySet.t -> list string)
  (paths : list PolicyPath.t) (k : string) :
  valid_set_order set_order ->
  In k list_capable_types ->
  conditions_of_type k paths <> [] ->
  let conds := conditions_of_type k paths in
  let emitted :=
    filter (fun c => String.eqb (Condition.type c) k)
      (PolicyOptimizer.merge_groups set_order
         (PolicyOptimizer.group_conditions paths)) in
  exists members,
    NoDup members
    /\ Sorted str_le members
    /\ (forall v, In v members
                  <-> exists c, In c conds /\ In v (literal_values c))
    /\ 1 <= length members
    /\ (1 < length members ->
        emitted = [Condition.mk k "is-or" (Py.join "|" members) None false])
    /\ (length members = 1 -> emitted = firstn 1 conds).
Proof.
  intros Hvalid Hk Hne conds emitted. subst conds emitted.
  pose proof (merge_groups_of_type set_order paths k) as Hem.
  revert Hne Hem. generalize (conditions_of_type k paths) as conds.
  intros conds Hne Hem.
  destruct (collect_values_spec conds) as [Hnd Hin].
  set (values := PolicyOptimizer.collect_values conds) in *.
  assert (Hperm : Permutation (Py.sort (set_order values)) values).
  { apply perm_trans with (set_order values);
      [apply sort_perm | apply Hvalid]. }
  exists (Py.sort (set_order values)).
  assert (Hmem : forall v, In v (Py.sort (set_order values))
                           <-> exists c, In c conds
                                         /\ In v (literal_values c)).
  { intros v. rewrite <- Hin. split; apply Permutation_in;
      [exact Hperm | now apply Permutation_sym]. }
  assert (Hlen : length (Py.sort (set_order values)) = PySet.len values)
    by now apply Permutation_length.
  split; [apply Permutation_NoDup with values;
          [now apply Permutation_sym | exact Hnd]|].
  split; [apply sort_sorted|]. split; [exact Hmem|].
  destruct conds as [|first rest]; [contradiction|].
  assert (Hmemk : Py.mem k ["platform"; "location"; "client"; "app"] = true)
    by now apply mem_iff.
  split; [|split].
  - destruct (literal_values first) as [|v vs] eqn:Ev;
      [now apply literal_values_nonempty in Ev|].
    assert (Hv : In v (Py.sort (set_order values))).
    { apply Hmem. exists first. split; [now left | rewrite Ev; now left]. }
    destruct (Py.sort (set_order values)); [destruct Hv | simpl; lia].
  - intros Hgt. rewrite Hem. unfold PolicyOptimizer.merge_conditions_of_type.
    rewrite Hmemk. fold values. rewrite <- Hlen.
    apply Nat.ltb_lt in Hgt. now rewrite Hgt.
  - intros Hone. rewrite Hem. unfold PolicyOptimizer.merge_conditions_of_type.
    rewrite Hmemk. fold values. rewrite <- Hlen, Hone. reflexivity.
Qed.

Lemma list_capable_merge_witness :
  let paths :=
    [PolicyPath.mk [Condition.mk "platform" "is" "Windows" None false]
       [Action.mk "BLOCK" None false] "enabled";
     PolicyPath.mk [Condition.mk "platform" "is" "macOS" None false]
       [Action.mk "BLOCK" None false] "enabled"] in
  let set_order := reverse_order in
  (valid_set_order set_order
   /\ In "platform" list_capable_types
   /\ conditions_of_type "platform" paths <> [])
  /\ exists members,
      NoDup members
      /\ Sorted str_le members
      /\ (forall v, In v members
                    <-> exists c, In c (conditions_of_type "platform" paths)
                                  /\ In v (literal_values c))
      /\ 1 <= length members
      /\ (1 < length members ->
          filter (fun c => String.eqb (Condition.type c) "platform")
            (PolicyOptimizer.merge_groups set_order
               (PolicyOptimizer.group_conditions paths))
          = [Condition.mk "platform" "is-or" (Py.join "|" members) None
               false])
      /\ (length members = 1 ->
          filter (fun c => String.eqb (Condition.type c) "platform")
            (PolicyOptimizer.merge_groups set_order
               (PolicyOptimizer.group_conditions paths))
          = firstn 1 (conditions_of_type "platform" paths)).
Proof.
  intros paths set_order.
  assert (Hv : valid_set_order set_order).
  { intros s. apply Permutation_sym, Permutation_rev. }
  assert (Hk : In "platform" list_capable_types) by (simpl; auto).
  assert (Hne : conditions_of_type "platform" paths <> []) by discriminate.
  split; [now repeat split|].
  exact (list_capable_merge set_order paths "platform" Hv Hk Hne).
Defined.

(** The example of the claim: [platform is Windows] and [platform is macOS]
    in one cluster merge to [platform is-or Windows|macOS], whatever the
    iteration order of the set. *)
Example windows_macos_merge (set_order : PySet.t -> list string) :
  valid_set_order set_order ->
  PolicyOptimizer.merge_groups set_order
    (PolicyOptimizer.group_conditions
       [PolicyPath.mk [Condition.mk "platform" "is" "Windows" None false]
          [Action.mk "BLOCK" None false] "enabled";
        PolicyPath.mk [Condition.mk "platform" "is" "macOS" None false]
          [Action.mk "BLOCK" None false] "enabled"])
  = [Condition.mk "platform" "is-or" "Windows|macOS" None false].
Proof.
  intros Hvalid. simpl. unfold PolicyOptimizer.merge_groups. simpl.
  change (PolicyOptimizer.collect_values _) with ["Windows"; "macOS"].
  pose proof (Hvalid ["Windows"; "macOS"]) as Hp.
  assert (Hs : Py.sort (set_order ["Windows"; "macOS"])
               = ["Windows"; "macOS"]).
  { destruct (set_order ["Windows"; "macOS"]) as [|a [|b [|c l]]].
    - apply Permutation_length in Hp. discriminate.
    - apply Permutation_length in Hp. discriminate.
    - apply Permutation_length_2_inv in Hp.
      destruct Hp as [Hp|Hp]; injection Hp as <- <-; reflexivity.
    - apply Permutation_length in Hp. discriminate. }
  now rewrite Hs.
Qed.

(** ** Reproducibility of the optimizer *)

(** The record made by [_create_policy] is named after the counter. *)
Lemma create_policy_name (set_order : PySet.t -> list string)
  (self : PolicyOptimizer.t) (conds : list Condition.t)
  (acts : list Action.t) (st : string) :
  Dict.get (fst (PolicyOptimizer.create_policy set_order self conds acts st))
    "DisplayName"
  = Some (YStr ("Generated-Policy-"
                ^^ Py.str (PolicyOptimizer.policy_counter self)))
  /\ PolicyOptimizer.policy_counter
       (snd (PolicyOptimizer.create_policy set_order self conds acts st))
     = PolicyOptimizer.policy_counter self + 1.
Proof.
  unfold PolicyOptimizer.create_policy.
  destruct (is_nil (PolicyOptimizer.build_session_controls acts)),
    (is_nil (PolicyOptimizer.build_grant_controls acts));
    split; reflexivity.
Qed.

Lemma merge_cluster_name (set_order : PySet.t -> list string)
  (self : PolicyOptimizer.t) (signature : string)
  (paths : list PolicyPath.t) :
  Dict.get
    (fst (PolicyOptimizer.merge_cluster set_order self signature paths))
    "DisplayName"
  = Some (YStr ("Generated-Policy-"
                ^^ Py.str (PolicyOptimizer.policy_counter self)))
  /\ PolicyOptimizer.policy_counter
       (snd (PolicyOptimizer.merge_cluster set_order self signature paths))
     = PolicyOptimizer.policy_counter self + 1.
Proof. unfold PolicyOptimizer.merge_cluster. apply create_policy_name. Qed.

(** Under any one iteration order the records are named
    [Generated-Policy-<n>], with [n] counting up from the optimizer's
    counter in the order of the clusters. *)
Lemma optimize_display_names (set_order : PySet.t -> list string)
  (self : PolicyOptimizer.t) (paths : list PolicyPath.t) :
  map (fun policy => Dict.get policy "DisplayName")
    (fst (PolicyOptimizer.optimize set_order self paths))
  = map (fun i =>
           Some (YStr ("Generated-Policy-"
                       ^^ Py.str (PolicyOptimizer.policy_counter self + i))))
      (seq 0 (length (PolicyOptimizer.cluster_by_action paths))).
Proof.
  unfold PolicyOptimizer.optimize.
  generalize (PolicyOptimizer.cluster_by_action paths) as clusters.
  assert (H : forall clusters acc self,
             map (fun policy => Dict.get policy "DisplayName")
               (fst (fold_left
                       (fun (acc : list (Dict.t yaml) * PolicyOptimizer.t)
                            (kv : string * list PolicyPath.t) =>
                          let (optimized_policies, self) := acc in
                          let (merged_policy, self) :=
                            PolicyOptimizer.merge_cluster set_order self
                              (fst kv) (snd kv) in
                          (optimized_policies ++ [merged_policy], self))
                       clusters (acc, self)))
             = map (fun policy => Dict.get policy "DisplayName") acc
               ++ map (fun i =>
                         Some (YStr ("Generated-Policy-"
                                     ^^ Py.str
                                          (PolicyOptimizer.policy_counter self
                                           + i))))
                    (seq 0 (length clusters))).
  { induction clusters as [|[sig ps] clusters IH]; intros acc self0.
    - simpl. now rewrite app_nil_r.
    - cbn [fold_left length seq map fst snd].
      destruct (merge_cluster_name set_order self0 sig ps) as [Hname Hcount].
      destruct (PolicyOptimizer.merge_cluster set_order self0 sig ps)
        as [policy self1].
      cbn [fst snd] in Hname, Hcount.
      rewrite IH, map_app, <- app_assoc. cbn [map app].
      rewrite Hname, Nat.add_0_r, Hcount. do 2 f_equal.
      rewrite <- seq_shift, map_map. apply map_ext. intros i.
      replace (PolicyOptimizer.policy_counter self0 + 1 + i)
        with (PolicyOptimizer.policy_counter self0 + S i) by lia.
      reflexivity. }
  intros clusters. now rewrite H.
Qed.

(** C6. On two clustered paths [client is Browser] and [client is Other]
    the output depends on the order in which the process iterates over a
    set: two runs whose iteration orders differ -- both enumerate every
    set faithfully -- emit different records for the same FlatPaths, the
    client application types being listed in the order of the set. *)
Theorem optimize_depends_on_set_order :
  let paths :=
    [PolicyPath.mk [Condition.mk "client" "is" "Browser" None false]
       [Action.mk "BLOCK" None false] "enabled";
     PolicyPath.mk [Condition.mk "client" "is" "Other" None false]
       [Action.mk "BLOCK" None false] "enabled"] in
  valid_set_order insertion_order
  /\ valid_set_order reverse_order
  /\ fst (PolicyOptimizer.optimize insertion_order PolicyOptimizer.init paths)
     = [[("DisplayName", YStr "Generated-Policy-1");
         ("State", YStr "enabled");
         ("Conditions",
          YDict [("ClientAppTypes", YList [YStr "browser"; YStr "other"])]);
         ("GrantControls", YDict block_grant_controls)]]
  /\ fst (PolicyOptimizer.optimize reverse_order PolicyOptimizer.init paths)
     = [[("DisplayName", YStr "Generated-Policy-1");
         ("State", YStr "enabled");
         ("Conditions",
          YDict [("ClientAppTypes", YList [YStr "other"; YStr "browser"])]);
         ("GrantControls", YDict block_grant_controls)]]
  /\ fst (PolicyOptimizer.optimize insertion_order PolicyOptimizer.init paths)
     <> fst (PolicyOptimizer.optimize reverse_order PolicyOptimizer.init
               paths).
Proof.
  intros paths.
  split; [intros s; apply Permutation_refl|].
  split; [intros s; apply Permutation_sym, Permutation_rev|].
  split; [reflexivity|]. split; [reflexivity|].
  intros H. vm_compute in H. discriminate H.
Qed.

(** The same for identifier-keyed kinds: the groups of a cluster are
    listed in the order of the set of their identifiers. *)
Example group_order_depends_on_set_order :
  let conds :=
    [Condition.mk "user-group" "in" "A" (Some "g1") false;
     Condition.mk "user-group" "in" "B" (Some "g2") false] in
  PolicyOptimizer.merge_conditions_of_type insertion_order "user-group"
    conds
  = conds
  /\ PolicyOptimizer.merge_conditions_of_type reverse_order "user-group"
       conds
     = rev conds.
Proof. split; reflexivity. Qed.

(** ** ELSE IF *)

(** C1. On the Decision [IF user is All / STATE enabled / BLOCK /
    ELSE IF user is Guest / STATE report-only / REQUIRE MFA / END] the
    parser returns one Decision without any else-if branch: the body loop
    of the [IF] branch passes over the [ELSE IF] line and its [STATE]
    line, and records [REQUIRE MFA] among the actions of the [IF] branch.
    The Decision then yields the single FlatPath of the [IF] branch. *)
Theorem else_if_folded_into_if_branch :
  let user_is v := Condition.mk "user" "is" v None false in
  let block := Action.mk "BLOCK" None false in
  let require_mfa := Action.mk "REQUIRE" (Some "MFA") false in
  option_map fst
    (CAPLParser.parse_file CAPLParser.init "policy.capl" else_if_example)
  = Some [mkIf (mkBranch [user_is "All"] [block; require_mfa] "enabled" None)
            [] None]
  /\ option_map (fun r => PathExtractor.extract_paths (fst r))
       (CAPLParser.parse_file CAPLParser.init "policy.capl" else_if_example)
     = Some [PolicyPath.mk [user_is "All"] [block; require_mfa] "enabled"].
Proof. split; vm_compute; reflexivity. Qed.

(** ** The parser moves forward *)

Lemma parse_if_statement_S (n : nat) (p : CAPLParser.t) (base : nat) :
  CAPLParser.parse_if_statement (S n) p base
  = match CAPLParser.parse_branch n p base with
    | Some (b, p1) => CAPLParser.if_loop n p1 base (mkIf b [] None)
    | None => None
    end.
Proof. reflexivity. Qed.

Lemma if_loop_S (n : nat) (p : CAPLParser.t) (base : nat)
  (stmt : IfStatement) :
  CAPLParser.if_loop (S n) p base stmt
  = if Nat.ltb (CAPLParser.line_number p) (length (CAPLParser.lines p)) then
      let line := CAPLParser.current_line_stripped p in
      let indent := CAPLParser.current_line_indent p in
      if Nat.ltb indent base then Some (stmt, p)
      else if Py.startswith line "ELSE IF " then
        match CAPLParser.parse_branch n p base with
        | Some (b, p1) =>
            CAPLParser.if_loop n p1 base
              (mkIf (if_branch stmt) (else_if_branches stmt ++ [b])
                 (else_branch stmt))
        | None => None
        end
      else if String.eqb line "ELSE" then
        match CAPLParser.parse_branch_body n (CAPLParser.advance p)
                (base + 4) new_branch with
        | Some (b, p1) =>
            CAPLParser.if_loop n p1 base
              (mkIf (if_branch stmt) (else_if_branches stmt) (Some b))
        | None => None
        end
      else if String.eqb line "END" then Some (stmt, CAPLParser.advance p)
      else Some (stmt, p)
    else Some (stmt, p).
Proof. reflexivity. Qed.

Lemma parse_branch_S (n : nat) (p : CAPLParser.t) (base : nat) :
  CAPLParser.parse_branch (S n) p base
  = let (branch, p1) := CAPLParser.branch_head p new_branch in
    match CAPLParser.cond_loop n p1 base branch with
    | Some (branch, p2) =>
        CAPLParser.parse_branch_body n p2 (base + 4) branch
    | None => None
    end.
Proof. reflexivity. Qed.

Lemma parse_branch_body_S (n : nat) (p : CAPLParser.t) (expected : nat)
  (branch : PolicyBranch) :
  CAPLParser.parse_branch_body (S n) p expected branch
  = let (branch, p1) := CAPLParser.state_line p branch in
    CAPLParser.body_loop n p1 expected branch.
Proof. reflexivity. Qed.

Lemma body_loop_S (n : nat) (p : CAPLParser.t) (expected : nat)
  (branch : PolicyBranch) :
  CAPLParser.body_loop (S n) p expected branch
  = if Nat.ltb (CAPLParser.line_number p) (length (CAPLParser.lines p)) then
      let line := CAPLParser.current_line_stripped p in
      let indent := CAPLParser.current_line_indent p in
      if negb (Py.truthy line) || Py.startswith line "#" then
        CAPLParser.body_loop n (CAPLParser.advance p) expected branch
      else if Nat.ltb indent (expected - 4) then Some (branch, p)
      else if Py.mem line ["ELSE IF "; "ELSE"; "END"] then Some (branch, p)
      else if Py.startswith line "IF " then
        match CAPLParser.parse_if_statement n p indent with
        | Some (stmt, p1) =>
            CAPLParser.body_loop n p1 expected
              (mkBranch (conditions branch) (actions branch) (state branch)
                 (Some stmt))
        | None => None
        end
      else if CAPLParser.is_action_line line then
        CAPLParser.body_loop n (CAPLParser.advance p) expected
          (mkBranch (conditions branch)
             (actions branch ++ [CAPLParser.parse_action line])
             (state branch) (nested_if branch))
      else CAPLParser.body_loop n (CAPLParser.advance p) expected branch
    else Some (branch, p).
Proof. reflexivity. Qed.

Lemma extends_refl (p : CAPLParser.t) : extends p p.
Proof. unfold extends. auto. Qed.

Lemma extends_trans (p q r : CAPLParser.t) :
  extends p q -> extends q r -> extends p r.
Proof.
  unfold extends. intros (Hv & Hl & Hn) (Hv' & Hl' & Hn').
  repeat split; [congruence | congruence | lia].
Qed.

Lemma extends_advance (p : CAPLParser.t) : extends p (CAPLParser.advance p).
Proof. unfold extends. simpl. repeat split. lia. Qed.

Lemma extends_print (p : CAPLParser.t) (msgs : list string) :
  extends p (CAPLParser.print p msgs).
Proof. unfold extends. simpl. auto. Qed.

Lemma head_condition_spec (p : CAPLParser.t) (n : nat) (line : string)
  (b : PolicyBranch) :
  extends p (snd (CAPLParser.head_condition p n line b))
  /\ CAPLParser.line_number (snd (CAPLParser.head_condition p n line b))
     = CAPLParser.line_number p + 1.
Proof.
  unfold CAPLParser.head_condition.
  destruct (Py.truthy _).
  - destruct (CAPLParser.parse_condition _ _) as [c msgs]. simpl.
    split; [|reflexivity]. unfold extends. simpl. repeat split. lia.
  - simpl. split; [apply extends_advance | reflexivity].
Qed.

Lemma branch_head_extends (p : CAPLParser.t) (b : PolicyBranch) :
  extends p (snd (CAPLParser.branch_head p b)).
Proof.
  unfold CAPLParser.branch_head.
  destruct (Py.startswith _ "IF "); [apply head_condition_spec|].
  destruct (Py.startswith _ "ELSE IF "); [apply head_condition_spec|].
  apply extends_refl.
Qed.

Lemma branch_head_progress (p : CAPLParser.t) (b : PolicyBranch) :
  on_keyword p ->
  CAPLParser.line_number (snd (CAPLParser.branch_head p b))
  = CAPLParser.line_number p + 1.
Proof.
  unfold on_keyword, CAPLParser.branch_head. intros H.
  destruct (Py.startswith _ "IF "); [apply head_condition_spec|].
  destruct (Py.startswith _ "ELSE IF "); [apply head_condition_spec|].
  destruct H; discriminate.
Qed.

Lemma state_line_extends (p : CAPLParser.t) (b : PolicyBranch) :
  extends p (snd (CAPLParser.state_line p b)).
Proof.
  unfold CAPLParser.state_line.
  destruct (Py.startswith _ _); [apply extends_advance | apply extends_refl].
Qed.

Lemma cond_loop_extends (n : nat) :
  forall p base b b' p',
    CAPLParser.cond_loop n p base b = Some (b', p') -> extends p p'.
Proof.
  induction n as [|n IH]; intros p base b b' p' H; simpl in H;
    [discriminate|].
  destruct (Nat.ltb _ _); [|injection H as _ <-; apply extends_refl].
  destruct (negb _ || _).
  { apply IH in H. eapply extends_trans; [apply extends_advance | exact H]. }
  destruct (_ && _); [injection H as _ <-; apply extends_refl|].
  destruct (Py.startswith _ "STATE ");
    [injection H as _ <-; apply extends_refl|].
  destruct (Py.startswith _ "IF ");
    [injection H as _ <-; apply extends_refl|].
  destruct (CAPLParser.parse_condition _ _) as [c msgs].
  apply IH in H.
  eapply extends_trans; [|exact H].
  eapply extends_trans; [apply extends_print | apply extends_advance].
Qed.

(** Whatever they return, the parsing functions leave the variables and
    the lines alone and never move backwards; a branch started on its
    keyword line consumes that line. *)
Lemma parser_extends (n : nat) :
  (forall p base s p',
      CAPLParser.parse_if_statement n p base = Some (s, p') ->
      extends p p'
      /\ (on_keyword p ->
          CAPLParser.line_number p < CAPLParser.line_number p'))
  /\ (forall p base stmt s p',
         CAPLParser.if_loop n p base stmt = Some (s, p') -> extends p p')
  /\ (forall p base b p',
         CAPLParser.parse_branch n p base = Some (b, p') ->
         extends p p'
         /\ (on_keyword p ->
             CAPLParser.line_number p < CAPLParser.line_number p'))
  /\ (forall p expected b b' p',
         CAPLParser.parse_branch_body n p expected b = Some (b', p') ->
         extends p p')
  /\ (forall p expected b b' p',
         CAPLParser.body_loop n p expected b = Some (b', p') ->
         extends p p').
Proof.
  induction n as [|n (IHif & IHloop & IHbranch & IHbody & IHbl)].
  { repeat split; intros; discriminate. }
  assert (Hbranch : forall p base b p',
             CAPLParser.parse_branch (S n) p base = Some (b, p') ->
             extends p p'
             /\ (on_keyword p ->
                 CAPLParser.line_number p < CAPLParser.line_number p')).
  { intros p base b p' H. rewrite parse_branch_S in H.
    pose proof (branch_head_extends p new_branch) as He.
    pose proof (branch_head_progress p new_branch) as Hp.
    destruct (CAPLParser.branch_head p new_branch) as [b0 p0].
    simpl in He, Hp.
    destruct (CAPLParser.cond_loop n p0 base b0) as [[b1 p1]|] eqn:Ec;
      [|discriminate].
    apply cond_loop_extends in Ec. apply IHbody in H.
    assert (H01 : extends p0 p') by (eapply extends_trans; eassumption).
    split; [eapply extends_trans; eassumption|].
    intros Hk. destruct H01 as (_ & _ & H01).
    rewrite (Hp Hk) in H01. lia. }
  assert (Hloop : forall p base stmt s p',
             CAPLParser.if_loop (S n) p base stmt = Some (s, p') ->
             extends p p').
  { intros p base stmt s p' H. rewrite if_loop_S in H.
    destruct (Nat.ltb _ _); [|injection H as _ <-; apply extends_refl].
    cbv zeta in H.
    destruct (Nat.ltb _ base); [injection H as _ <-; apply extends_refl|].
    destruct (Py.startswith _ "ELSE IF ").
    { destruct (CAPLParser.parse_branch n p base) as [[b1 p1]|] eqn:E;
        [|discriminate].
      apply IHbranch in E. destruct E as [E _]. apply IHloop in H.
      eapply extends_trans; eassumption. }
    destruct (String.eqb _ "ELSE").
    { destruct (CAPLParser.parse_branch_body n _ _ _) as [[b1 p1]|] eqn:E;
        [|discriminate].
      apply IHbody in E. apply IHloop in H.
      eapply extends_trans; [apply extends_advance|].
      eapply extends_trans; eassumption. }
    destruct (String.eqb _ "END"); injection H as _ <-;
      [apply extends_advance | apply extends_refl]. }
  split; [|split; [exact Hloop | split; [exact Hbranch | split]]].
  - intros p base s p' H. rewrite parse_if_statement_S in H.
    destruct (CAPLParser.parse_branch n p base) as [[b1 p1]|] eqn:E;
      [|discriminate].
    apply IHbranch in E. destruct E as [E Hk]. apply IHloop in H.
    split; [eapply extends_trans; eassumption|].
    intros Hkey. specialize (Hk Hkey). destruct H as (_ & _ & H). lia.
  - intros p expected b b' p' H. rewrite parse_branch_body_S in H.
    pose proof (state_line_extends p b) as He.
    destruct (CAPLParser.state_line p b) as [b0 p0]. simpl in He.
    apply IHbl in H. eapply extends_trans; eassumption.
  - intros p expected b b' p' H. rewrite body_loop_S in H.
    destruct (Nat.ltb _ _); [|injection H as _ <-; apply extends_refl].
    cbv zeta in H.
    destruct (negb _ || _).
    { apply IHbl in H.
      eapply extends_trans; [apply extends_advance | exact H]. }
    destruct (Nat.ltb _ (expected - 4));
      [injection H as _ <-; apply extends_refl|].
    destruct (Py.mem _ _); [injection H as _ <-; apply extends_refl|].
    destruct (Py.startswith _ "IF ").
    { destruct (CAPLParser.parse_if_statement n p _) as [[s1 p1]|] eqn:E;
        [|discriminate].
      apply IHif in E. destruct E as [E _]. apply IHbl in H.
      eapply extends_trans; eassumption. }
    destruct (CAPLParser.is_action_line _); apply IHbl in H;
      (eapply extends_trans; [apply extends_advance | exact H]).
Qed.

(** ** The parser terminates *)

Lemma on_keyword_in_range (p : CAPLParser.t) :
  on_keyword p ->
  CAPLParser.line_number p < length (CAPLParser.lines p).
Proof.
  unfold on_keyword, CAPLParser.current_line_stripped.
  destruct (Nat.leb_spec (length (CAPLParser.lines p))
              (CAPLParser.line_number p)) as [Hle|Hlt]; [|intros _; exact Hlt].
  intros [H|H]; discriminate H.
Qed.


Lemma remaining_le (p p' : CAPLParser.t) :
  extends p p' -> remaining p' <= remaining p.
Proof. unfold extends, remaining. intros (_ & -> & Hn). lia. Qed.

Lemma remaining_lt (p p' : CAPLParser.t) :
  extends p p' -> CAPLParser.line_number p < CAPLParser.line_number p' ->
  remaining p' <= remaining p - 1.
Proof. unfold extends, remaining. intros (_ & -> & Hn) Hlt. lia. Qed.

Lemma remaining_advance (p : CAPLParser.t) :
  remaining (CAPLParser.advance p) = remaining p - 1.
Proof. unfold remaining. simpl. lia. Qed.

Lemma remaining_pos (p : CAPLParser.t) :
  Nat.ltb (CAPLParser.line_number p) (length (CAPLParser.lines p)) = true ->
  1 <= remaining p.
Proof. intros H. apply Nat.ltb_lt in H. unfold remaining. lia. Qed.

Lemma cond_loop_total (n : nat) :
  forall p base b,
    remaining p < n ->
    exists b' p', CAPLParser.cond_loop n p base b = Some (b', p').
Proof.
  induction n as [|n IH]; intros p base b Hn; [lia|]. simpl.
  destruct (Nat.ltb _ _) eqn:Hlt; [|eauto].
  apply remaining_pos in Hlt.
  destruct (negb _ || _).
  { apply IH. rewrite remaining_advance. lia. }
  destruct (_ && _); [eauto|].
  destruct (Py.startswith _ "STATE "); [eauto|].
  destruct (Py.startswith _ "IF "); [eauto|].
  destruct (CAPLParser.parse_condition _ _) as [c msgs].
  apply IH. rewrite remaining_advance. unfold remaining in *. simpl. lia.
Qed.

(** With fuel in proportion to the lines that remain, every parsing
    function returns. *)
Lemma parser_total (n : nat) :
  (forall p base,
      on_keyword p -> 4 * remaining p <= n ->
      exists s p', CAPLParser.parse_if_statement n p base = Some (s, p'))
  /\ (forall p base stmt,
         4 * remaining p + 3 <= n ->
         exists s p', CAPLParser.if_loop n p base stmt = Some (s, p'))
  /\ (forall p base,
         on_keyword p -> 4 * remaining p <= n + 1 ->
         exists b p', CAPLParser.parse_branch n p base = Some (b, p'))
  /\ (forall p expected b,
         4 * remaining p + 2 <= n ->
         exists b' p',
           CAPLParser.parse_branch_body n p expected b = Some (b', p'))
  /\ (forall p expected b,
         4 * remaining p + 1 <= n ->
         exists b' p', CAPLParser.body_loop n p expected b = Some (b', p')).
Proof.
  induction n as [|n (IHif & IHloop & IHbranch & IHbody & IHbl)].
  { repeat split; intros; try lia;
      match goal with
      | H : on_keyword _ |- _ =>
          apply on_keyword_in_range in H; unfold remaining in *; lia
      end. }
  destruct (parser_extends n) as (Eif & Eloop & Ebranch & Ebody & Ebl).
  split; [|split; [|split; [|split]]].
  - intros p base Hk Hn. rewrite parse_if_statement_S.
    pose proof (on_keyword_in_range p Hk) as Hr.
    destruct (IHbranch p base Hk) as (b1 & p1 & E); [lia|]. rewrite E.
    apply Ebranch in E. destruct E as [E Hlt].
    apply IHloop. pose proof (remaining_lt p p1 E (Hlt Hk)).
    unfold remaining in *. lia.
  - intros p base stmt Hn. rewrite if_loop_S.
    destruct (Nat.ltb _ _) eqn:Hlt; [|eauto]. apply remaining_pos in Hlt.
    cbv zeta.
    destruct (Nat.ltb _ base); [eauto|].
    destruct (Py.startswith _ "ELSE IF ") eqn:Hk.
    { destruct (IHbranch p base) as (b1 & p1 & E);
        [now right | lia |]. rewrite E.
      apply Ebranch in E. destruct E as [E Hp].
      apply IHloop. assert (Hkey : on_keyword p) by now right.
      pose proof (remaining_lt p p1 E (Hp Hkey)). lia. }
    destruct (String.eqb _ "ELSE").
    { destruct (IHbody (CAPLParser.advance p) (base + 4) new_branch)
        as (b1 & p1 & E); [rewrite remaining_advance; lia|]. rewrite E.
      apply Ebody in E. apply remaining_le in E.
      rewrite remaining_advance in E. apply IHloop. lia. }
    destruct (String.eqb _ "END"); eauto.
  - intros p base Hk Hn. rewrite parse_branch_S.
    pose proof (on_keyword_in_range p Hk) as Hr.
    pose proof (branch_head_extends p new_branch) as He.
    pose proof (branch_head_progress p new_branch Hk) as Hp.
    destruct (CAPLParser.branch_head p new_branch) as [b0 p0].
    simpl in He, Hp.
    assert (H0 : remaining p0 <= remaining p - 1)
      by (apply remaining_lt; [exact He | lia]).
    assert (Hpos : 1 <= remaining p) by (unfold remaining; lia).
    destruct (cond_loop_total n p0 base b0) as (b1 & p1 & E); [lia|].
    rewrite E. apply cond_loop_extends, remaining_le in E.
    apply IHbody. lia.
  - intros p expected b Hn. rewrite parse_branch_body_S.
    pose proof (state_line_extends p b) as He.
    destruct (CAPLParser.state_line p b) as [b0 p0]. simpl in He.
    apply remaining_le in He. apply IHbl. lia.
  - intros p expected b Hn. rewrite body_loop_S.
    destruct (Nat.ltb _ _) eqn:Hlt; [|eauto]. apply remaining_pos in Hlt.
    cbv zeta.
    destruct (negb _ || _).
    { apply IHbl. rewrite remaining_advance. lia. }
    destruct (Nat.ltb _ (expected - 4)); [eauto|].
    destruct (Py.mem _ _); [eauto|].
    destruct (Py.startswith _ "IF ") eqn:Hk.
    { assert (Hkey : on_keyword p) by now left.
      destruct (IHif p (CAPLParser.current_line_indent p) Hkey)
        as (s1 & p1 & E); [lia|]. rewrite E.
      apply Eif in E. destruct E as [E Hp].
      pose proof (remaining_lt p p1 E (Hp Hkey)). apply IHbl. lia. }
    destruct (CAPLParser.is_action_line _); apply IHbl;
      rewrite remaining_advance; lia.
Qed.

Lemma parse_variable_extends (p : CAPLParser.t) :
  CAPLParser.lines (CAPLParser.parse_variable p) = CAPLParser.lines p
  /\ CAPLParser.line_number (CAPLParser.parse_variable p)
     = CAPLParser.line_number p + 1.
Proof.
  unfold CAPLParser.parse_variable.
  destruct (Re.re_match _ _ _); simpl; auto.
Qed.

Lemma file_loop_total (n : nat) :
  forall p statements,
    4 * remaining p + 1 <= n ->
    exists r p', CAPLParser.file_loop n p statements = Some (r, p').
Proof.
  induction n as [|n IH]; intros p statements Hn; [lia|]. simpl.
  destruct (Nat.ltb _ _) eqn:Hlt; [|eauto]. apply remaining_pos in Hlt.
  destruct (negb _ || _).
  { apply IH. rewrite remaining_advance. lia. }
  destruct (Py.startswith _ "VAR ").
  { apply IH. destruct (parse_variable_extends p) as [Hl Hln].
    unfold remaining in *. rewrite Hl, Hln. lia. }
  destruct (Py.startswith _ "IF ") eqn:Hk.
  { assert (Hkey : on_keyword p) by now left.
    destruct (parser_total n) as (Tif & _).
    destruct (Tif p 0 Hkey) as (s1 & p1 & E); [lia|]. rewrite E.
    destruct (parser_extends n) as (Eif & _).
    apply Eif in E. destruct E as [E Hp].
    pose proof (remaining_lt p p1 E (Hp Hkey)). apply IH. lia. }
  apply IH. rewrite remaining_advance. lia.
Qed.

(** The fuel that [parse_file] supplies is never used up: the embedding
    yields a result on every input, so no result below is lost to the
    fuel.  (The source recurses once per nested Decision and is bounded
    by the recursion limit of the interpreter, which is not part of the
    embedding.) *)
Lemma parse_file_total (self : CAPLParser.t) (name content : string) :
  exists statements self',
    CAPLParser.parse_file self name content = Some (statements, self').
Proof.
  unfold CAPLParser.parse_file, CAPLParser.fuel_for.
  apply file_loop_total. unfold remaining. simpl. lia.
Qed.

(** ** What was printed does not steer the parser *)

Lemma same_input_refl (p : CAPLParser.t) : same_input p p.
Proof. unfold same_input. auto. Qed.













(** ** The variable table across files *)





(** ** Unknown conditions *)

Lemma first_match_none (rs : list (string -> option Condition.t))
  (text : string) :
  (forall r, In r rs -> r text = None) ->
  CAPLParser.first_match rs text = None.
Proof.
  induction rs as [|r rs IH]; intros H; simpl; [reflexivity|].
  rewrite (H r) by now left. apply IH. intros r' Hr'. apply H. now right.
Qed.

Lemma parse_condition_unknown (vars : Dict.t Var.t) (text : string) :
  matches_no_rule (CAPLParser.substitute vars text) ->
  CAPLParser.parse_condition vars text
  = (unknown_condition (CAPLParser.substitute vars text),
     [unknown_warning (CAPLParser.substitute vars text)]).
Proof.
  intros H. unfold CAPLParser.parse_condition.
  now rewrite (first_match_none _ _ H).
Qed.

(** Where no declared name occurs in the text, substitution leaves it as
    it was written. *)
Lemma substitute_without_names (vars : Dict.t Var.t) (text : string) :
  (forall name v, In (name, v) vars -> Py.contains name text = false) ->
  CAPLParser.substitute vars text = text.
Proof.
  unfold CAPLParser.substitute.
  induction vars as [|[name v] vars IH]; intros H; simpl; [reflexivity|].
  rewrite (H name v) by now left.
  apply IH. intros name' v' Hin. apply (H name' v'). now right.
Qed.

(** C8 (as amended). A condition text that, after variable substitution,
    matches no grammar rule is parsed, without failure, into a Condition
    of kind [unknown] whose value is the text after substitution -- the
    text as written when no declared name occurs in it -- and one
    diagnostic is printed; the condition loop appends this Condition and
    goes on with the next line, as does the keyword line of a branch. *)
Theorem unknown_condition_tolerated (vars : Dict.t Var.t) (text : string) :
  matches_no_rule (CAPLParser.substitute vars text) ->
  let text' := CAPLParser.substitute vars text in
  CAPLParser.parse_condition vars text
  = (unknown_condition text', [unknown_warning text'])
  /\ ((forall name v, In (name, v) vars -> Py.contains name text = false) ->
      text' = text)
  /\ (forall fuel p base b,
         CAPLParser.variables p = vars ->
         CAPLParser.current_line_stripped p = text ->
         on_condition_line p base ->
         CAPLParser.cond_loop (S fuel) p base b
         = CAPLParser.cond_loop fuel
             (CAPLParser.advance
                (CAPLParser.print p [unknown_warning text']))
             base (add_condition b (unknown_condition text')))
  /\ (forall p n line b,
         CAPLParser.variables p = vars ->
         Py.strip (Py.drop n line) = text -> Py.truthy text = true ->
         CAPLParser.head_condition p n line b
         = (add_condition b (unknown_condition text'),
            CAPLParser.advance
              (CAPLParser.print p [unknown_warning text']))).
Proof.
  intros Hno text'.
  pose proof (parse_condition_unknown vars text Hno) as Hpc.
  split; [exact Hpc|]. split; [apply substitute_without_names|].
  split.
  - intros fuel p base b Hv Hline (Hlt & Ht & Hc & Hk & Hs & Hi).
    cbn [CAPLParser.cond_loop].
    apply Nat.ltb_lt in Hlt. rewrite Hlt.
    cbv zeta in Ht, Hc, Hk, Hs, Hi.
    rewrite Ht, Hc, Hk, Hs, Hi. cbn [negb orb].
    rewrite Hv, Hline, Hpc. reflexivity.
  - intros p n line b Hv Hline Ht. unfold CAPLParser.head_condition.
    rewrite Hline, Ht, Hv, Hpc. reflexivity.
Qed.

Ltac no_rule :=
  let r := fresh "r" in
  let Hr := fresh "Hr" in
  intros r Hr; unfold CAPLParser.rules in Hr; simpl in Hr;
  repeat (destruct Hr as [<-|Hr]; [vm_compute; reflexivity|]);
  destruct Hr.

Lemma unknown_condition_tolerated_witness :
  let text := "device NOT is Compliant" in
  matches_no_rule (CAPLParser.substitute [] text)
  /\ CAPLParser.parse_condition [] text
     = (unknown_condition text, [unknown_warning text]).
Proof.
  assert (Hno : matches_no_rule
                  (CAPLParser.substitute [] "device NOT is Compliant"))
    by no_rule.
  split; [exact Hno|].
  exact (proj1 (unknown_condition_tolerated []
                  "device NOT is Compliant" Hno)).
Defined.

(** The value of the unknown Condition is not the text as written when a
    declared name occurs in it: with [Corp] declared, the line
    [network is Corp] matches no rule and is kept with the name replaced. *)
Lemma unknown_value_is_substituted_text :
  let vars := [("Corp", Var.mk "Corp" "HQ" "loc-1")] in
  let text := "network is Corp" in
  matches_no_rule (CAPLParser.substitute vars text)
  /\ Condition.type (fst (CAPLParser.parse_condition vars text)) = "unknown"
  /\ Condition.value (fst (CAPLParser.parse_condition vars text))
     = "network is " ^^ dquote ^^ "HQ" ^^ dquote ^^ " [loc-1]"
  /\ Condition.value (fst (CAPLParser.parse_condition vars text)) <> text.
Proof.
  split; [no_rule|]. split; [reflexivity|]. split; [reflexivity|].
  vm_compute. discriminate.
Qed.

(** ** No input yields an else-if branch *)

(** A stripped line does not end with a blank. *)
Lemma rstrip_last (s : string) :
  forall t c, Py.rstrip s = t ^^ String c EmptyString -> Py.is_space c = false.
Proof.
  induction s as [|a s IH]; intros t c H; simpl in H.
  - destruct t; discriminate H.
  - destruct (Py.rstrip s) as [|b r] eqn:E.
    + destruct (Py.is_space a) eqn:Ea; [destruct t; discriminate H|].
      destruct t as [|x t]; simpl in H.
      * injection H as <-. exact Ea.
      * injection H as _ H. destruct t; discriminate H.
    + destruct t as [|x t]; simpl in H; [discriminate H|].
      injection H as _ H. now apply (IH t c).
Qed.

Lemma stripped_not_else_if (p : CAPLParser.t) :
  CAPLParser.current_line_stripped p <> "ELSE IF ".
Proof.
  unfold CAPLParser.current_line_stripped.
  destruct (Nat.leb _ _); [discriminate|].
  unfold Py.strip. intros H.
  assert (Hsp : Py.is_space " " = false).
  { eapply rstrip_last with (t := "ELSE IF"). exact H. }
  discriminate Hsp.
Qed.

Lemma head_condition_nested (p : CAPLParser.t) (n : nat) (line : string)
  (b : PolicyBranch) :
  nested_if (fst (CAPLParser.head_condition p n line b)) = nested_if b.
Proof.
  unfold CAPLParser.head_condition. destruct (Py.truthy _); [|reflexivity].
  destruct (CAPLParser.parse_condition _ _). reflexivity.
Qed.

Lemma branch_head_nested (p : CAPLParser.t) (b : PolicyBranch) :
  nested_if (fst (CAPLParser.branch_head p b)) = nested_if b.
Proof.
  unfold CAPLParser.branch_head.
  destruct (Py.startswith _ "IF "); [apply head_condition_nested|].
  destruct (Py.startswith _ "ELSE IF "); [apply head_condition_nested|].
  reflexivity.
Qed.

Lemma state_line_nested (p : CAPLParser.t) (b : PolicyBranch) :
  nested_if (fst (CAPLParser.state_line p b)) = nested_if b.
Proof.
  unfold CAPLParser.state_line. now destruct (Py.startswith _ _).
Qed.

Lemma cond_loop_nested (n : nat) :
  forall p base b b' p',
    CAPLParser.cond_loop n p base b = Some (b', p') ->
    nested_if b' = nested_if b.
Proof.
  induction n as [|n IH]; intros p base b b' p' H; simpl in H;
    [discriminate|].
  destruct (Nat.ltb _ _); [|now injection H as <- _].
  destruct (negb _ || _); [now apply IH in H|].
  destruct (_ && _); [now injection H as <- _|].
  destruct (Py.startswith _ "STATE "); [now injection H as <- _|].
  destruct (Py.startswith _ "IF "); [now injection H as <- _|].
  destruct (CAPLParser.parse_condition _ _) as [c msgs].
  now apply IH in H.
Qed.

(** The body loop stops only where [body_stopped] says, so the loop of
    [_parse_if_statement] never finds itself on an [ELSE IF] line. *)
Lemma parser_no_else_if (n : nat) :
  (forall p base s p',
      CAPLParser.parse_if_statement n p base = Some (s, p') -> no_else_if s)
  /\ (forall p base stmt s p',
         CAPLParser.if_loop n p base stmt = Some (s, p') ->
         body_stopped p (base + 4) -> no_else_if stmt -> no_else_if s)
  /\ (forall p base b p',
         CAPLParser.parse_branch n p base = Some (b, p') ->
         nested_no_else_if b /\ body_stopped p' (base + 4))
  /\ (forall p expected b b' p',
         CAPLParser.parse_branch_body n p expected b = Some (b', p') ->
         nested_no_else_if b ->
         nested_no_else_if b' /\ body_stopped p' expected)
  /\ (forall p expected b b' p',
         CAPLParser.body_loop n p expected b = Some (b', p') ->
         nested_no_else_if b ->
         nested_no_else_if b' /\ body_stopped p' expected).
Proof.
  induction n as [|n (IHif & IHloop & IHbranch & IHbody & IHbl)].
  { repeat split; intros; discriminate. }
  split; [|split; [|split; [|split]]].
  - intros p base s p' H. rewrite parse_if_statement_S in H.
    destruct (CAPLParser.parse_branch n p base) as [[b1 p1]|] eqn:E;
      [|discriminate].
    apply IHbranch in E. destruct E as [Hb Hstop].
    apply IHloop in H; [exact H | exact Hstop |].
    simpl. unfold nested_no_else_if in Hb. auto.
  - intros p base stmt s p' H Hstop Hstmt. rewrite if_loop_S in H.
    destruct (Nat.ltb _ (length _)) eqn:Hlt; [|now injection H as <- _].
    cbv zeta in H.
    destruct (Nat.ltb _ base) eqn:Hind; [now injection H as <- _|].
    assert (Hmem : Py.mem (CAPLParser.current_line_stripped p)
                     ["ELSE IF "; "ELSE"; "END"] = true).
    { destruct Hstop as [Hs|[Hs|Hs]]; [congruence | | exact Hs].
      replace (base + 4 - 4) with base in Hs by lia. congruence. }
    apply mem_iff in Hmem.
    destruct Hmem as [Hl|[Hl|[Hl|[]]]]; symmetry in Hl.
    + now apply stripped_not_else_if in Hl.
    + rewrite Hl in H. simpl in H.
      destruct (CAPLParser.parse_branch_body n _ _ _) as [[b1 p1]|] eqn:E;
        [|discriminate].
      apply IHbody in E; [|exact I]. destruct E as [Hb Hstop1].
      apply IHloop in H; [exact H | exact Hstop1 |].
      destruct stmt as [ib eibs eb]. simpl in Hstmt |- *.
      unfold nested_no_else_if in Hb. tauto.
    + rewrite Hl in H. simpl in H. now injection H as <- _.
  - intros p base b p' H. rewrite parse_branch_S in H.
    pose proof (branch_head_nested p new_branch) as Hn.
    destruct (CAPLParser.branch_head p new_branch) as [b0 p0].
    simpl in Hn.
    destruct (CAPLParser.cond_loop n p0 base b0) as [[b1 p1]|] eqn:Ec;
      [|discriminate].
    apply cond_loop_nested in Ec. apply IHbody in H; [exact H|].
    unfold nested_no_else_if. rewrite Ec, Hn. exact I.
  - intros p expected b b' p' H Hb. rewrite parse_branch_body_S in H.
    pose proof (state_line_nested p b) as Hn.
    destruct (CAPLParser.state_line p b) as [b0 p0]. simpl in Hn.
    apply IHbl in H; [exact H|].
    unfold nested_no_else_if in *. now rewrite Hn.
  - intros p expected b b' p' H Hb. rewrite body_loop_S in H.
    destruct (Nat.ltb _ (length _)) eqn:Hlt;
      [|injection H as <- <-; split; [exact Hb | now left]].
    cbv zeta in H.
    destruct (negb _ || _); [now apply IHbl in H|].
    destruct (Nat.ltb _ (expected - 4)) eqn:Hind;
      [injection H as <- <-; split; [exact Hb | right; now left]|].
    destruct (Py.mem _ _) eqn:Hmem;
      [injection H as <- <-; split; [exact Hb | right; now right]|].
    destruct (Py.startswith _ "IF ").
    { destruct (CAPLParser.parse_if_statement n p _) as [[s1 p1]|] eqn:E;
        [|discriminate].
      apply IHif in E. apply IHbl in H; [exact H | exact E]. }
    destruct (CAPLParser.is_action_line _); now apply IHbl in H.
Qed.

Lemma file_loop_no_else_if (n : nat) :
  forall p statements r p',
    CAPLParser.file_loop n p statements = Some (r, p') ->
    Forall no_else_if statements -> Forall no_else_if r.
Proof.
  induction n as [|n IH]; intros p statements r p' H Hs; [discriminate|].
  simpl in H.
  destruct (Nat.ltb _ _); [|now injection H as <- _].
  destruct (negb _ || _); [now apply IH in H|].
  destruct (Py.startswith _ "VAR "); [now apply IH in H|].
  destruct (Py.startswith _ "IF "); [|now apply IH in H].
  destruct (CAPLParser.parse_if_statement n p 0) as [[s1 p1]|] eqn:E;
    [|discriminate].
  destruct (parser_no_else_if n) as (Nif & _). apply Nif in E.
  apply IH in H; [exact H|].
  apply Forall_app. split; [exact Hs | now constructor].
Qed.

(** Whatever the file, no Decision that [parse_file] returns has an
    else-if branch, at any depth. *)
Theorem else_if_branches_always_empty (self : CAPLParser.t)
  (name content : string) (statements : list IfStatement)
  (self' : CAPLParser.t) :
  CAPLParser.parse_file self name content = Some (statements, self') ->
  Forall no_else_if statements.
Proof.
  unfold CAPLParser.parse_file. intros H.
  apply file_loop_no_else_if in H; [exact H | constructor].
Qed.

(** ** The pipeline on examples *)

(** The parser builds a branch with both actions and a nested Decision,
    and path extraction emits the nested path only. *)
Example actions_beside_nested_decision :
  let cond k v := Condition.mk k "is" v None false in
  let nested :=
    mkIf (mkBranch [cond "platform" "iOS"] [Action.mk "BLOCK" None false]
            "enabled" None) [] None in
  option_map fst
    (CAPLParser.parse_file CAPLParser.init "p.capl"
       actions_and_nested_example)
  = Some [mkIf (mkBranch [cond "user" "All"]
                  [Action.mk "REQUIRE" (Some "MFA") false] "enabled"
                  (Some nested)) [] None]
  /\ option_map (fun r => PathExtractor.extract_paths (fst r))
       (CAPLParser.parse_file CAPLParser.init "p.capl"
          actions_and_nested_example)
     = Some [PolicyPath.mk [cond "user" "All"; cond "platform" "iOS"]
               [Action.mk "BLOCK" None false] "enabled"].
Proof. split; vm_compute; reflexivity. Qed.

(** The end-to-end scenario: one blocking record for Windows. *)
Example end_to_end_block :
  compile insertion_order
    [("p.capl",
      unlines ["IF platform is Windows"; "    STATE enabled";
               "        BLOCK"; "END"])]
  = Some [[("DisplayName", YStr "Generated-Policy-1");
           ("State", YStr "enabled");
           ("Conditions",
            YDict [("Platforms",
                    YDict [("IncludePlatforms", YList [YStr "Windows"])])]);
           ("GrantControls", YDict block_grant_controls)]].
Proof. vm_compute. reflexivity. Qed.

(** One [REQUIRE MFA]: an [AND] of [mfa], and no session controls. *)
Example end_to_end_require_mfa :
  compile insertion_order
    [("p.capl",
      unlines ["IF user is All"; "    STATE enabled";
               "        REQUIRE MFA"; "END"])]
  = Some [[("DisplayName", YStr "Generated-Policy-1");
           ("State", YStr "enabled");
           ("Conditions",
            YDict [("Users", YDict [("IncludeUsers", YList [YStr "All"])])]);
           ("GrantControls",
            YDict [("Operator", YStr "AND");
                   ("BuiltInControls", YList [YStr "mfa"])])]].
Proof. vm_compute. reflexivity. Qed.

(** Two runs on the same source text, under two iteration orders. *)
Example end_to_end_set_order :
  let files :=
    [("p.capl",
      unlines ["IF client is Browser"; "    STATE enabled"; "        BLOCK";
               "END";
               "IF client is Other"; "    STATE enabled"; "        BLOCK";
               "END"])] in
  compile insertion_order files <> compile reverse_order files.
Proof. vm_compute. discriminate. Qed.

(** The lines of the condition grammar on which the rules fire, and what
    they give; the [OR] list is taken by the first rule, which keeps its
    first value. *)
Example grammar_lines :
  let parse text := fst (CAPLParser.parse_condition [] text) in
  parse "user is All" = Condition.mk "user" "is" "All" None false
  /\ parse "Platform  IS  iOS"
     = Condition.mk "platform" "is" "iOS" None false
  /\ parse "location NOT is Trusted"
     = Condition.mk "location" "is" "Trusted" None true
  /\ parse "signin-risk is High"
     = Condition.mk "signin-risk" "is" "High" None false
  /\ parse "platform is iOS OR platform is Android"
     = Condition.mk "platform" "is" "iOS" None false
  /\ parse ("user in group " ^^ dquote ^^ "Ops" ^^ dquote ^^ " [g1]")
     = Condition.mk "user-group" "in" "Ops" (Some "g1") false
  /\ parse ("user NOT in group " ^^ dquote ^^ "Ops" ^^ dquote ^^ " [g1]")
     = Condition.mk "user" "in" "Ops" (Some "g1") true.
Proof. repeat split; vm_compute; reflexivity. Qed.

(** ** The greedy match against the language of the pattern

    [Re.re_match] follows, at each token, the choice Python's matcher
    tries first: the longest run of a repeated class, the first
    alternative of a group that matches.  When it succeeds, its result is
    therefore the result of [re.match].  It remains to see that when it
    fails no other way of matching exists; this holds for the patterns of
    the source ([greedy_ok]). *)

Lemma lit_match_sound (ci : bool) (l : string) :
  forall s m r,
    Re.lit_match ci l s = Some (m, r) ->
    s = m ^^ r /\ lit_eq ci l m = true.
Proof.
  induction l as [|a l IH]; intros s m r H; simpl in H.
  - injection H as <- <-. now split.
  - destruct s as [|c s]; [discriminate|].
    destruct (Re.char_eq ci a c) eqn:Ec; [|discriminate].
    destruct (Re.lit_match ci l s) as [[m' r']|] eqn:E; [|discriminate].
    injection H as <- <-. destruct (IH s m' r' E) as [-> Hl].
    simpl. now rewrite Ec, Hl.
Qed.

Lemma lit_match_complete (ci : bool) (l : string) :
  forall m r, lit_eq ci l m = true -> Re.lit_match ci l (m ^^ r) = Some (m, r).
Proof.
  induction l as [|a l IH]; intros [|c m] r H; simpl in *;
    try discriminate; [reflexivity|].
  apply andb_true_iff in H. destruct H as [Hc Hl].
  now rewrite Hc, (IH m r Hl).
Qed.

Lemma alt_match_sound (ci : bool) (alts : list string) :
  forall s m r,
    Re.alt_match ci alts s = Some (m, r) ->
    s = m ^^ r /\ exists a, In a alts /\ lit_eq ci a m = true.
Proof.
  induction alts as [|a alts IH]; intros s m r H; simpl in H;
    [discriminate|].
  destruct (Re.lit_match ci a s) as [[m' r']|] eqn:E.
  - injection H as <- <-. apply lit_match_sound in E. destruct E as [-> E].
    split; [reflexivity|]. exists a. split; [now left | exact E].
  - destruct (IH s m r H) as [-> [b [Hb Hl]]].
    split; [reflexivity|]. exists b. split; [now right | exact Hl].
Qed.

Lemma span_sound (k : Re.cclass) (s : string) :
  forall m r, Re.span k s = (m, r) -> s = m ^^ r /\ all_class k m = true.
Proof.
  induction s as [|c s IH]; intros m r H; simpl in H.
  - injection H as <- <-. now split.
  - destruct (Re.in_class k c) eqn:Ec.
    + destruct (Re.span k s) as [m' r'].
      injection H as <- <-. destruct (IH m' r' eq_refl) as [-> Hm].
      simpl. now rewrite Ec, Hm.
    + injection H as <- <-. now split.
Qed.

Lemma truthy_iff (m : string) : Py.truthy m = true <-> m <> EmptyString.
Proof. destruct m; simpl; split; congruence. Qed.

(** Whatever the greedy match finds is a match. *)
Lemma re_match_sound (ci : bool) (p : list Re.tok) :
  forall s gs, Re.re_match ci p s = Some gs -> matches ci p s.
Proof.
  induction p as [|t p IH]; intros s gs H; [exact I|].
  destruct t as [l|cap alts|cap k|k]; simpl in H.
  - destruct (Re.lit_match ci l s) as [[m r]|] eqn:E; [|discriminate].
    apply lit_match_sound in E. destruct E as [-> E].
    exists m, r. split; [reflexivity|]. split; [exact E|]. now apply IH in H.
  - destruct (Re.alt_match ci alts s) as [[m r]|] eqn:E; [|discriminate].
    apply alt_match_sound in E. destruct E as [-> E].
    exists m, r. split; [reflexivity|]. split; [exact E|].
    destruct (Re.re_match ci p r) as [gs'|] eqn:E'; [|discriminate].
    now apply IH in E'.
  - destruct (Re.span k s) as [m r] eqn:E.
    apply span_sound in E. destruct E as [-> E].
    destruct (Py.truthy m) eqn:Et; [|discriminate].
    exists m, r. split; [reflexivity|].
    split; [split; [now apply truthy_iff | exact E]|].
    destruct (Re.re_match ci p r) as [gs'|] eqn:E'; [|discriminate].
    now apply IH in E'.
  - destruct (Re.span k s) as [m r] eqn:E.
    apply span_sound in E. destruct E as [-> E].
    exists m, r. split; [reflexivity|]. split; [exact E|]. now apply IH in H.
Qed.

Lemma in_all_ascii (c : ascii) : In c all_ascii.
Proof.
  unfold all_ascii. rewrite <- (ascii_nat_embedding c).
  apply in_map, in_seq. pose proof (nat_ascii_bounded c). lia.
Qed.

Lemma char_outside_sound (ci : bool) (k : Re.cclass) (a c : ascii) :
  char_outside ci k a = true -> Re.char_eq ci a c = true ->
  Re.in_class k c = false.
Proof.
  unfold char_outside. rewrite forallb_forall. intros H Hc.
  specialize (H c (in_all_ascii c)). rewrite Hc in H.
  now destruct (Re.in_class k c).
Qed.

Lemma classes_disjoint_sound (k k' : Re.cclass) (c : ascii) :
  classes_disjoint k k' = true -> Re.in_class k' c = true ->
  Re.in_class k c = false.
Proof.
  unfold classes_disjoint. rewrite forallb_forall. intros H Hc.
  specialize (H c (in_all_ascii c)). rewrite Hc in H.
  now destruct (Re.in_class k c).
Qed.

Lemma lit_starts_outside_sound (ci : bool) (k : Re.cclass) (l m r : string) :
  lit_starts_outside ci k l = true -> lit_eq ci l m = true ->
  exists c r', m ^^ r = String c r' /\ Re.in_class k c = false.
Proof.
  destruct l as [|a l]; [discriminate|]. destruct m as [|c m]; [discriminate|].
  simpl. intros Ho Hl. apply andb_true_iff in Hl. destruct Hl as [Hc _].
  exists c, (m ^^ r). split; [reflexivity|].
  now apply char_outside_sound with (ci := ci) (a := a).
Qed.

Lemma starts_outside_sound (ci : bool) (k : Re.cclass) (p : list Re.tok) :
  forall s,
    starts_outside ci k p = true -> matches ci p s ->
    exists c s', s = String c s' /\ Re.in_class k c = false.
Proof.
  induction p as [|t p IH]; intros s Ho Hm; [discriminate|].
  destruct Hm as (m & r & -> & Ht & Hp).
  destruct t as [l|cap alts|cap k'|k']; simpl in Ho, Ht.
  - now apply lit_starts_outside_sound with (ci := ci) (l := l).
  - destruct Ht as [a [Ha Hl]]. rewrite forallb_forall in Ho.
    now apply lit_starts_outside_sound with (ci := ci) (l := a); [apply Ho|].
  - destruct Ht as [Hne Hall]. destruct m as [|c m]; [contradiction|].
    simpl in Hall. apply andb_true_iff in Hall. destruct Hall as [Hc _].
    exists c, (m ^^ r). split; [reflexivity|].
    now apply classes_disjoint_sound with (k' := k').
  - apply andb_true_iff in Ho. destruct Ho as [Hd Ho].
    destruct m as [|c m]; [simpl; now apply IH|].
    simpl in Ht. apply andb_true_iff in Ht. destruct Ht as [Hc _].
    exists c, (m ^^ r). split; [reflexivity|].
    now apply classes_disjoint_sound with (k' := k').
Qed.

Lemma span_app (k : Re.cclass) (m r : string) :
  all_class k m = true ->
  Re.span k (m ^^ r) = (m ^^ fst (Re.span k r), snd (Re.span k r)).
Proof.
  induction m as [|c m IH]; intros H; simpl in *.
  - now destruct (Re.span k r).
  - apply andb_true_iff in H. destruct H as [Hc Hm].
    rewrite Hc, (IH Hm). reflexivity.
Qed.

Lemma span_stop (k : Re.cclass) (c : ascii) (s : string) :
  Re.in_class k c = false -> Re.span k (String c s) = (EmptyString, String c s).
Proof. intros H. simpl. now rewrite H. Qed.

(** The run that a repeated class takes is the piece of the match. *)
Lemma span_exact (ci : bool) (k : Re.cclass) (p : list Re.tok) (m r : string) :
  all_class k m = true -> starts_outside ci k p = true -> matches ci p r ->
  Re.span k (m ^^ r) = (m, r).
Proof.
  intros Hall Ho Hm.
  destruct (starts_outside_sound ci k p r Ho Hm) as (c & r' & -> & Hc).
  rewrite (span_app k m _ Hall), (span_stop k c r' Hc). simpl.
  now rewrite append_nil_r.
Qed.

Lemma char_eq_trans_via (ci : bool) (a b c : ascii) :
  Re.char_eq ci a c = true -> Re.char_eq ci b c = true ->
  Re.char_eq ci a b = true.
Proof.
  unfold Re.char_eq. destruct ci; rewrite !Ascii.eqb_eq; congruence.
Qed.

(** Two literals that both match the start of one text: one matches the
    start of the other. *)
Lemma lit_prefix_compatible (ci : bool) (a : string) :
  forall b s m r m' r',
    Re.lit_match ci a s = Some (m, r) ->
    Re.lit_match ci b s = Some (m', r') ->
    lit_prefix ci a b = true \/ lit_prefix ci b a = true.
Proof.
  unfold lit_prefix.
  induction a as [|x a IH]; intros b s m r m' r' Ha Hb.
  - left. reflexivity.
  - destruct b as [|y b]; [right; reflexivity|].
    simpl in Ha, Hb. destruct s as [|c s]; [discriminate|].
    destruct (Re.char_eq ci x c) eqn:Ex; [|discriminate].
    destruct (Re.char_eq ci y c) eqn:Ey; [|discriminate].
    destruct (Re.lit_match ci a s) as [[m1 r1]|] eqn:Ea; [|discriminate].
    destruct (Re.lit_match ci b s) as [[m2 r2]|] eqn:Eb; [|discriminate].
    simpl.
    rewrite (char_eq_trans_via ci x y c Ex Ey).
    rewrite (char_eq_trans_via ci y x c Ey Ex).
    destruct (IH b s m1 r1 m2 r2 Ea Eb) as [H|H].
    + left. now destruct (Re.lit_match ci a b) as [[? ?]|].
    + right. now destruct (Re.lit_match ci b a) as [[? ?]|].
Qed.

Lemma alt_match_some (ci : bool) (alts : list string) (a m r : string) :
  In a alts -> lit_eq ci a m = true ->
  exists m0 r0, Re.alt_match ci alts (m ^^ r) = Some (m0, r0).
Proof.
  induction alts as [|b alts IH]; intros Hin Hl; [destruct Hin|]. simpl.
  destruct (Re.lit_match ci b (m ^^ r)) as [[m0 r0]|] eqn:E; [eauto|].
  destruct Hin as [->|Hin]; [|now apply IH].
  rewrite (lit_match_complete ci a m r Hl) in E. discriminate.
Qed.

Lemma alt_match_exact (ci : bool) (alts : list string) (a m r : string) :
  alts_exclusive ci alts = true -> In a alts -> lit_eq ci a m = true ->
  Re.alt_match ci alts (m ^^ r) = Some (m, r).
Proof.
  induction alts as [|b alts IH]; intros Hex Hin Hl; [destruct Hin|].
  simpl in Hex |- *. apply andb_true_iff in Hex. destruct Hex as [Hb Hex].
  pose proof (lit_match_complete ci a m r Hl) as Ha.
  destruct Hin as [->|Hin]; [now rewrite Ha|].
  destruct (Re.lit_match ci b (m ^^ r)) as [[m0 r0]|] eqn:E; [|now apply IH].
  exfalso. rewrite forallb_forall in Hb. specialize (Hb a Hin).
  destruct (lit_prefix_compatible ci b a _ _ _ _ _ E Ha) as [H|H];
    rewrite H in Hb; simpl in Hb; [discriminate|].
  rewrite orb_true_r in Hb. discriminate.
Qed.

(** Where a match exists, the greedy match succeeds. *)
Lemma re_match_complete (ci : bool) (p : list Re.tok) :
  forall s,
    greedy_ok ci p = true -> matches ci p s ->
    exists gs, Re.re_match ci p s = Some gs.
Proof.
  induction p as [|t p IH]; intros s Hok Hm; [simpl; eauto|].
  destruct Hm as (m & r & -> & Ht & Hp).
  destruct t as [l|cap alts|cap k|k];
    cbn [greedy_ok] in Hok; cbn [tok_matches] in Ht; cbn [Re.re_match].
  - rewrite (lit_match_complete ci l m r Ht). now apply IH.
  - apply andb_true_iff in Hok. destruct Hok as [Hend Hok].
    destruct Ht as [a [Ha Hl]].
    destruct p as [|t' p'].
    + destruct (alt_match_some ci alts a m r Ha Hl) as (m0 & r0 & ->).
      simpl. eauto.
    + cbn [is_nil orb] in Hend.
      rewrite (alt_match_exact ci alts a m r Hend Ha Hl).
      destruct (IH r Hok Hp) as [gs ->]. simpl. eauto.
  - apply andb_true_iff in Hok. destruct Hok as [Hend Hok].
    destruct Ht as [Hne Hall].
    destruct p as [|t' p'].
    + rewrite (span_app k m r Hall).
      assert (Ht : Py.truthy (m ^^ fst (Re.span k r)) = true)
        by (destruct m; [contradiction | reflexivity]).
      rewrite Ht. simpl. eauto.
    + cbn [is_nil orb] in Hend.
      rewrite (span_exact ci k _ m r Hall Hend Hp).
      apply truthy_iff in Hne. rewrite Hne.
      destruct (IH r Hok Hp) as [gs ->]. simpl. eauto.
  - apply andb_true_iff in Hok. destruct Hok as [Hend Hok].
    destruct p as [|t' p'].
    + destruct (Re.span k (m ^^ r)). simpl. eauto.
    + cbn [is_nil orb] in Hend.
      rewrite (span_exact ci k _ m r Ht Hend Hp).
      now apply IH.
Qed.

(** On every pattern of the source the greedy match fails exactly on the
    texts that do not match the pattern. *)
Theorem greedy_match_decides (ci : bool) (p : list Re.tok) (s : string) :
  In (ci, p) source_patterns ->
  (Re.re_match ci p s = None <-> ~ matches ci p s).
Proof.
  intros Hin.
  assert (Hok : greedy_ok ci p = true).
  { unfold source_patterns in Hin. simpl in Hin.
    repeat (destruct Hin as [Hin|Hin];
            [injection Hin as <- <-; vm_compute; reflexivity|]).
    destruct Hin. }
  split.
  - intros Hnone Hm. destruct (re_match_complete ci p s Hok Hm) as [gs E].
    congruence.
  - intros Hno. destruct (Re.re_match ci p s) as [gs|] eqn:E; [|reflexivity].
    exfalso. apply Hno. now apply re_match_sound with (gs := gs).
Qed.

Lemma condition_patterns_in_source (p : list Re.tok) :
  In p condition_patterns -> In (true, p) source_patterns.
Proof.
  unfold condition_patterns, source_patterns. simpl.
  intros H. repeat (destruct H as [<-|H]; [tauto|]). destruct H.
Qed.

Ltac rule_language :=
  match goal with
  | |- ?r ?text = None <-> ~ matches true ?p ?text =>
      rewrite <- (greedy_match_decides true p text)
        by (apply condition_patterns_in_source;
            unfold condition_patterns; simpl; tauto);
      unfold r; destruct (Re.re_match true p text); split; congruence
  end.

Lemma rule_is_language (text : string) :
  CAPLParser.rule_is text = None <-> ~ matches true CAPLParser.re_is text.
Proof. rule_language. Qed.

Lemma rule_user_not_in_language (text : string) :
  CAPLParser.rule_user_not_in text = None
  <-> ~ matches true CAPLParser.re_user_not_in text.
Proof. rule_language. Qed.

Lemma rule_user_in_language (text : string) :
  CAPLParser.rule_user_in text = None
  <-> ~ matches true CAPLParser.re_user_in text.
Proof. rule_language. Qed.

Lemma rule_in_language (text : string) :
  CAPLParser.rule_in text = None <-> ~ matches true CAPLParser.re_in text.
Proof. rule_language. Qed.

Lemma rule_not_is_language (kind text : string) :
  kind = "location" \/ kind = "client" ->
  CAPLParser.rule_not_is kind text = None
  <-> ~ matches true (CAPLParser.re_not_is kind) text.
Proof.
  intros [-> | ->];
    (rewrite <- (greedy_match_decides true _ text)
       by (apply condition_patterns_in_source;
           unfold condition_patterns; simpl; tauto));
    unfold CAPLParser.rule_not_is;
    destruct (Re.re_match true _ text); split; congruence.
Qed.

Lemma rule_risk_language (text : string) :
  CAPLParser.rule_risk text = None <-> ~ matches true CAPLParser.re_risk text.
Proof. rule_language. Qed.

Lemma rule_device_language (text : string) :
  CAPLParser.rule_device text = None
  <-> ~ matches true CAPLParser.re_device text.
Proof. rule_language. Qed.

(** * Further properties of the code *)

(** ** Clusters *)

(** The cluster of a key holds, in input order, exactly the paths with
    that full signature; there is no cluster for a key that no path has,
    and no key occurs twice. *)
Theorem clusters_are_the_classes (paths : list PolicyPath.t) :
  NoDup (Dict.keys (PolicyOptimizer.cluster_by_action paths))
  /\ forall key,
      Dict.get (PolicyOptimizer.cluster_by_action paths) key
      = match filter
                (fun p => String.eqb (PolicyOptimizer.full_signature p) key)
                paths with
        | [] => None
        | members => Some members
        end.
Proof.
  unfold PolicyOptimizer.cluster_by_action. split.
  - apply (group_nodup PolicyOptimizer.full_signature). constructor.
  - intros key. now rewrite (group_get PolicyOptimizer.full_signature).
Qed.

Lemma dict_set_length {V : Type} (d : Dict.t V) (k : string) (v : V) :
  length (Dict.set d k v) <= length d + 1.
Proof.
  induction d as [|[k' v'] d IH]; simpl; [lia|].
  destruct (String.eqb k' k); simpl; lia.
Qed.

Lemma group_length {V : Type} (key : V -> string) (l : list V) :
  forall d : Dict.t (list V),
    length (fold_left (fun d x => Dict.append d (key x) x) l d)
    <= length d + length l.
Proof.
  induction l as [|x l IH]; intros d; simpl; [lia|].
  specialize (IH (Dict.append d (key x) x)).
  assert (H : length (Dict.append d (key x) x) <= length d + 1).
  { unfold Dict.append. destruct (Dict.get d (key x)); apply dict_set_length. }
  lia.
Qed.

Lemma optimize_fold_count (set_order : PySet.t -> list string)
  (clusters : Dict.t (list PolicyPath.t)) :
  forall acc self,
    let r :=
      fold_left
        (fun (acc : list (Dict.t yaml) * PolicyOptimizer.t)
             (kv : string * list PolicyPath.t) =>
           let (optimized_policies, self) := acc in
           let (merged_policy, self) :=
             PolicyOptimizer.merge_cluster set_order self (fst kv) (snd kv) in
           (optimized_policies ++ [merged_policy], self))
        clusters (acc, self) in
    length (fst r) = length acc + length clusters
    /\ PolicyOptimizer.policy_counter (snd r)
       = PolicyOptimizer.policy_counter self + length clusters.
Proof.
  induction clusters as [|[sig ps] clusters IH]; intros acc self.
  - simpl. lia.
  - cbn [fold_left fst snd length].
    destruct (merge_cluster_name set_order self sig ps) as [_ Hcount].
    destruct (PolicyOptimizer.merge_cluster set_order self sig ps)
      as [policy self1].
    cbn [snd] in Hcount. cbv zeta in IH.
    destruct (IH (acc ++ [policy]) self1) as [Hl Hc].
    rewrite Hl, Hc, Hcount, length_app. cbn [length]. lia.
Qed.

(** The optimizer emits one record per cluster: never more records than
    paths, at least one when there is a path, none for no path; and it
    advances its counter by the number of records. *)
Theorem optimize_record_count (set_order : PySet.t -> list string)
  (self : PolicyOptimizer.t) (paths : list PolicyPath.t) :
  let records := fst (PolicyOptimizer.optimize set_order self paths) in
  length records = length (PolicyOptimizer.cluster_by_action paths)
  /\ length records <= length paths
  /\ (paths = [] <-> records = [])
  /\ PolicyOptimizer.policy_counter
       (snd (PolicyOptimizer.optimize set_order self paths))
     = PolicyOptimizer.policy_counter self + length records.
Proof.
  cbv zeta. unfold PolicyOptimizer.optimize.
  destruct (optimize_fold_count set_order
              (PolicyOptimizer.cluster_by_action paths) [] self)
    as [Hl Hc].
  cbv zeta in Hl, Hc. cbn [length Nat.add] in Hl.
  assert (Hle : length (PolicyOptimizer.cluster_by_action paths)
                <= length paths).
  { unfold PolicyOptimizer.cluster_by_action.
    pose proof (group_length PolicyOptimizer.full_signature paths []) as H.
    simpl in H. exact H. }
  split; [exact Hl|]. split; [rewrite Hl; exact Hle|].
  split; [|rewrite Hc, Hl; reflexivity].
  split.
  - intros ->. simpl. reflexivity.
  - intros Hnil. destruct paths as [|p paths]; [reflexivity|]. exfalso.
    destruct (cluster_by_action_spec (p :: paths)) as (_ & _ & Hall).
    destruct (Hall p (or_introl eq_refl)) as [l [Hget _]].
    apply dict_get_in in Hget.
    rewrite Hnil in Hl. simpl in Hl.
    destruct (PolicyOptimizer.cluster_by_action (p :: paths));
      [destruct Hget | discriminate Hl].
Qed.

(** ** Grant controls *)

Lemma unique_spec (l : list string) :
  NoDup (PolicyOptimizer.unique l)
  /\ forall x, In x (PolicyOptimizer.unique l) <-> In x l.
Proof.
  change (PolicyOptimizer.unique l) with (PySet.update PySet.empty l).
  split.
  - apply set_update_nodup. constructor.
  - intros x. rewrite set_update_in. simpl. tauto.
Qed.

Lemma existsb_filter_nil {A : Type} (f : A -> bool) (l : list A) :
  existsb f l = false -> filter f l = [].
Proof.
  induction l as [|x l IH]; simpl; [reflexivity|].
  destruct (f x); simpl; [discriminate | exact IH].
Qed.

(** Without a [BLOCK] action the grant controls are built from the
    [REQUIRE] actions alone: nothing at all when they ask for no control
    (so [ALLOW] by itself yields no grant controls); otherwise each asked
    control once, under the operator [OR] as soon as one requirement is an
    OR requirement, [AND] otherwise. *)
Theorem grant_controls_of_requirements (actions : list Action.t) :
  existsb (has_type "BLOCK") actions = false ->
  let requirements := filter (has_type "REQUIRE") actions in
  let asked := flat_map required_controls requirements in
  (asked = [] -> PolicyOptimizer.build_grant_controls actions = [])
  /\ (asked <> [] ->
      exists controls,
        PolicyOptimizer.build_grant_controls actions
        = [("Operator",
            YStr (if existsb Action.is_or requirements then "OR" else "AND"));
           ("BuiltInControls", ystrs controls)]
        /\ NoDup controls
        /\ forall c, In c controls <-> In c asked).
Proof.
  intros Hnb requirements asked.
  unfold PolicyOptimizer.build_grant_controls.
  rewrite (existsb_filter_nil _ _ Hnb). cbn [is_nil negb].
  fold requirements.
  change (flat_map _ requirements) with asked.
  split.
  - intros Hnil. rewrite Hnil.
    destruct (is_nil requirements && is_nil _); reflexivity.
  - intros Hne.
    assert (Hreq : is_nil requirements = false).
    { destruct requirements; [contradiction | reflexivity]. }
    rewrite Hreq. cbn [andb].
    assert (Hask : is_nil asked = false) by now apply is_nil_false_iff.
    rewrite Hask.
    exists (PolicyOptimizer.unique asked).
    split; [reflexivity|]. apply unique_spec.
Qed.

Lemma grant_controls_of_requirements_witness :
  let actions :=
    [CAPLParser.parse_action "REQUIRE MFA";
     CAPLParser.parse_action "REQUIRE CompliantDevice OR MFA";
     CAPLParser.parse_action "ALLOW"] in
  existsb (has_type "BLOCK") actions = false
  /\ exists controls,
      PolicyOptimizer.build_grant_controls actions
      = [("Operator", YStr "OR"); ("BuiltInControls", ystrs controls)]
      /\ NoDup controls
      /\ forall c, In c controls <-> In c ["mfa"; "compliantDevice"; "mfa"].
Proof.
  split; [reflexivity|].
  apply (proj2 (grant_controls_of_requirements
                  [CAPLParser.parse_action "REQUIRE MFA";
                   CAPLParser.parse_action "REQUIRE CompliantDevice OR MFA";
                   CAPLParser.parse_action "ALLOW"] eq_refl)).
  discriminate.
Defined.

(** ** Session controls *)

Lemma dict_set_in {V : Type} (d : Dict.t V) (k k' : string) (v v' : V) :
  In (k', v') (Dict.set d k v) -> (k', v') = (k, v) \/ In (k', v') d.
Proof.
  induction d as [|[k0 v0] d IH]; simpl.
  - intros [H|[]]. left. now symmetry.
  - destruct (String.eqb k0 k); simpl.
    + intros [H|H]; [left; now symmetry | now right; right].
    + intros [H|H]; [right; now left|].
      destruct (IH H) as [H'|H']; [now left | now right; right].
Qed.

Lemma session_step_invariant (d : Dict.t yaml) (a : Action.t) :
  (NoDup (Dict.keys d)
   /\ forall k v, In (k, v) d ->
                  In k session_control_names /\ enabled_control v) ->
  NoDup (Dict.keys (PolicyOptimizer.session_step d a))
  /\ forall k v, In (k, v) (PolicyOptimizer.session_step d a) ->
                 In k session_control_names /\ enabled_control v.
Proof.
  intros [Hnd Hall].
  assert (Hset : forall k0 v0,
             In k0 session_control_names -> enabled_control v0 ->
             NoDup (Dict.keys (Dict.set d k0 v0))
             /\ forall k v, In (k, v) (Dict.set d k0 v0) ->
                            In k session_control_names /\ enabled_control v).
  { intros k0 v0 Hk Hv. split; [now apply dict_set_nodup|].
    intros k v Hin. apply dict_set_in in Hin.
    destruct Hin as [Heq|Hin]; [injection Heq as -> ->; now split|].
    now apply Hall. }
  unfold PolicyOptimizer.session_step.
  destruct (Action.value a) as [v|]; [|now split].
  destruct (negb (Py.truthy v)); [now split|].
  destruct (Re.re_match true PolicyOptimizer.re_signin_frequency _).
  { apply Hset; [simpl; tauto|]. eexists. split; reflexivity. }
  destruct (Re.re_match true PolicyOptimizer.re_persistent_browser _).
  { apply Hset; [simpl; tauto|]. eexists. split; reflexivity. }
  destruct (_ && _).
  { apply Hset; [simpl; tauto|]. eexists. split; reflexivity. }
  destruct (Py.contains "block-downloads" _); [|now split].
  apply Hset; [simpl; tauto|]. eexists. split; reflexivity.
Qed.

(** The session controls hold at most one entry for each of the four
    known controls, nothing else, and every entry is switched on; a
    session text that fits none of the four leaves no entry. *)
Theorem session_controls_shape (actions : list Action.t) :
  NoDup (Dict.keys (PolicyOptimizer.build_session_controls actions))
  /\ forall k v,
      In (k, v) (PolicyOptimizer.build_session_controls actions) ->
      In k session_control_names /\ enabled_control v.
Proof.
  unfold PolicyOptimizer.build_session_controls.
  destruct (is_nil _); [split; [constructor | intros k v []]|].
  generalize (filter (has_type "SESSION") actions) as l.
  assert (H : forall l d,
             (NoDup (Dict.keys d)
              /\ forall k v, In (k, v) d ->
                             In k session_control_names
                             /\ enabled_control v) ->
             NoDup (Dict.keys (fold_left PolicyOptimizer.session_step l d))
             /\ forall k v,
                 In (k, v) (fold_left PolicyOptimizer.session_step l d) ->
                 In k session_control_names /\ enabled_control v).
  { induction l as [|a l IH]; intros d Hd; simpl; [exact Hd|].
    apply IH. now apply session_step_invariant. }
  intros l. apply H. split; [constructor | intros k v []].
Qed.

(** ** The sections of the conditions *)

Lemma dict_get_some_mem {V : Type} (d : Dict.t V) (k : string) (v : V) :
  Dict.get d k = Some v -> Py.mem k (Dict.keys d) = true.
Proof.
  intros H. apply mem_iff. apply dict_get_in in H.
  unfold Dict.keys. change k with (fst (k, v)). now apply in_map.
Qed.

Lemma dict_set_keys_present {V : Type} (d : Dict.t V) (k : string) (v : V) :
  Py.mem k (Dict.keys d) = true -> Dict.keys (Dict.set d k v) = Dict.keys d.
Proof. intros H. now rewrite dict_keys_set, H. Qed.

Lemma set2_keys (d : Dict.t yaml) (k1 k2 : string) (v : yaml) :
  Dict.keys (PolicyOptimizer.set2 d k1 k2 v) = Dict.keys d.
Proof.
  unfold PolicyOptimizer.set2.
  destruct (Dict.get d k1) as [[| | | | |sub]|] eqn:E; try reflexivity.
  apply dict_set_keys_present. now apply dict_get_some_mem in E.
Qed.

Lemma append2_keys (d : Dict.t yaml) (k1 k2 : string) (v : yaml) :
  Dict.keys (PolicyOptimizer.append2 d k1 k2 v) = Dict.keys d.
Proof.
  unfold PolicyOptimizer.append2.
  destruct (Dict.get d k1) as [[| | | | |sub]|] eqn:E; try reflexivity.
  apply dict_get_some_mem in E.
  destruct (Dict.get sub k2) as [[| | | |l|]|]; try reflexivity;
    now apply dict_set_keys_present.
Qed.

Lemma append1_keys (d : Dict.t yaml) (k : string) (v : yaml) :
  Dict.keys (PolicyOptimizer.append1 d k v) = Dict.keys d.
Proof.
  unfold PolicyOptimizer.append1.
  destruct (Dict.get d k) as [[| | | |l|]|] eqn:E; try reflexivity.
  apply dict_set_keys_present. now apply dict_get_some_mem in E.
Qed.

Lemma cond_step_keys (set_order : PySet.t -> list string) (d : Dict.t yaml)
  (c : Condition.t) :
  Dict.keys d = section_names ->
  Dict.keys (PolicyOptimizer.cond_step set_order d c) = section_names.
Proof.
  intros Hd. unfold PolicyOptimizer.cond_step.
  repeat match goal with
         | |- context [if ?b then _ else _] => destruct b
         end;
    rewrite ?set2_keys, ?append2_keys, ?append1_keys; try exact Hd;
    (rewrite dict_set_keys_present; [exact Hd | now rewrite Hd]).
Qed.

Lemma filter_keys_nodup {V : Type} (f : string * V -> bool) (d : Dict.t V) :
  NoDup (Dict.keys d) -> NoDup (Dict.keys (filter f d)).
Proof.
  unfold Dict.keys. induction d as [|kv d IH]; simpl; [constructor|].
  intros Hnd. inversion Hnd as [|? ? Hnotin Hnd']; subst.
  destruct (f kv); simpl; [|now apply IH].
  constructor; [|now apply IH].
  intros Hin. apply Hnotin. apply in_map_iff in Hin.
  destruct Hin as [x [Hx Hin]]. apply filter_In in Hin.
  rewrite <- Hx. now apply in_map.
Qed.

(** The conditions of a record are the eight sections, in their fixed
    order, without the empty ones: no section occurs twice, no other key
    occurs, and no section is empty. *)
Theorem conditions_dict_sections (set_order : PySet.t -> list string)
  (conds : list Condition.t) :
  let r := PolicyOptimizer.build_conditions_dict set_order conds in
  (exists d,
      Dict.keys d = section_names
      /\ r = filter (fun kv => yaml_truthy (snd kv)) d)
  /\ NoDup (Dict.keys r)
  /\ forall k v, In (k, v) r -> In k section_names /\ yaml_truthy v = true.
Proof.
  cbv zeta. unfold PolicyOptimizer.build_conditions_dict.
  assert (Hk : forall l d,
             Dict.keys d = section_names ->
             Dict.keys (fold_left (PolicyOptimizer.cond_step set_order) l d)
             = section_names).
  { induction l as [|c l IH]; intros d Hd; simpl; [exact Hd|].
    apply IH. now apply cond_step_keys. }
  specialize (Hk conds PolicyOptimizer.empty_cond_dict eq_refl).
  split; [eexists; split; [exact Hk | reflexivity]|].
  split.
  - apply filter_keys_nodup. rewrite Hk.
    unfold section_names. repeat constructor; simpl; intuition discriminate.
  - intros k v Hin. apply filter_In in Hin. destruct Hin as [Hin Ht].
    split; [|exact Ht]. rewrite <- Hk. unfold Dict.keys.
    change k with (fst (k, v)). now apply in_map.
Qed.

(** A Condition of kind [unknown], and one of kind [user] whose value is
    neither [All] nor [Guest], change nothing in the conditions of the
    record, wherever they stand among the merged conditions. *)
Theorem passed_over_conditions (set_order : PySet.t -> list string)
  (c : Condition.t) (l1 l2 : list Condition.t) :
  leaves_no_trace c ->
  PolicyOptimizer.build_conditions_dict set_order (l1 ++ c :: l2)
  = PolicyOptimizer.build_conditions_dict set_order (l1 ++ l2).
Proof.
  intros Hc.
  assert (Hstep : forall d, PolicyOptimizer.cond_step set_order d c = d).
  { intros d. unfold PolicyOptimizer.cond_step.
    destruct Hc as [Hty|(Hty & Hall & Hguest)]; rewrite Hty; simpl.
    - reflexivity.
    - apply String.eqb_neq in Hall, Hguest. now rewrite Hall, Hguest. }
  unfold PolicyOptimizer.build_conditions_dict.
  rewrite !fold_left_app. simpl. now rewrite Hstep.
Qed.

Lemma passed_over_conditions_witness :
  let c := fst (CAPLParser.parse_condition [] "device NOT is Compliant") in
  leaves_no_trace c
  /\ PolicyOptimizer.build_conditions_dict insertion_order
       ([Condition.mk "user" "is" "All" None false] ++ c :: [])
     = PolicyOptimizer.build_conditions_dict insertion_order
         ([Condition.mk "user" "is" "All" None false] ++ []).
Proof.
  assert (H : leaves_no_trace
                (fst (CAPLParser.parse_condition []
                        "device NOT is Compliant")))
    by (left; reflexivity).
  split; [exact H|].
  exact (passed_over_conditions insertion_order _
           [Condition.mk "user" "is" "All" None false] [] H).
Defined.

(** ** What the grammar rules produce *)

Lemma re_match_lit_inv (ci : bool) (l : string) (p : list Re.tok)
  (s : string) (gs : list string) :
  Re.re_match ci (Re.Lit l :: p) s = Some gs ->
  exists m r,
    s = m ^^ r /\ lit_eq ci l m = true /\ Re.re_match ci p r = Some gs.
Proof.
  simpl. destruct (Re.lit_match ci l s) as [[m r]|] eqn:E; [|discriminate].
  apply lit_match_sound in E. destruct E as [-> E]. intros H.
  now exists m, r.
Qed.

Lemma keep_inv (cap : bool) (m : string) (o : option (list string))
  (gs : list string) :
  Re.keep cap m o = Some gs ->
  exists gs', o = Some gs' /\ gs = if cap then m :: gs' else gs'.
Proof.
  destruct o as [gs'|]; simpl; [|discriminate].
  intros [= <-]. now exists gs'.
Qed.

Lemma re_match_alt_inv (ci cap : bool) (alts : list string)
  (p : list Re.tok) (s : string) (gs : list string) :
  Re.re_match ci (Re.Alt cap alts :: p) s = Some gs ->
  exists m r gs',
    s = m ^^ r
    /\ (exists a, In a alts /\ lit_eq ci a m = true)
    /\ Re.re_match ci p r = Some gs'
    /\ gs = if cap then m :: gs' else gs'.
Proof.
  simpl. destruct (Re.alt_match ci alts s) as [[m r]|] eqn:E; [|discriminate].
  apply alt_match_sound in E. destruct E as [-> E]. intros H.
  apply keep_inv in H. destruct H as (gs' & H & ->).
  now exists m, r, gs'.
Qed.

Lemma re_match_plus_inv (ci cap : bool) (k : Re.cclass) (p : list Re.tok)
  (s : string) (gs : list string) :
  Re.re_match ci (Re.Plus cap k :: p) s = Some gs ->
  exists m r gs',
    s = m ^^ r /\ m <> EmptyString /\ all_class k m = true
    /\ Re.re_match ci p r = Some gs'
    /\ gs = if cap then m :: gs' else gs'.
Proof.
  simpl. destruct (Re.span k s) as [m r] eqn:E.
  apply span_sound in E. destruct E as [-> E].
  destruct (Py.truthy m) eqn:Et; [|discriminate]. intros H.
  apply keep_inv in H. destruct H as (gs' & H & ->).
  exists m, r, gs'. repeat split; try assumption. now apply truthy_iff.
Qed.

Lemma re_match_star_inv (ci : bool) (k : Re.cclass) (p : list Re.tok)
  (s : string) (gs : list string) :
  Re.re_match ci (Re.Star k :: p) s = Some gs ->
  exists m r,
    s = m ^^ r /\ all_class k m = true /\ Re.re_match ci p r = Some gs.
Proof.
  simpl. destruct (Re.span k s) as [m r] eqn:E.
  apply span_sound in E. destruct E as [-> E]. intros H.
  now exists m, r.
Qed.

(** Under [re.IGNORECASE] the text a literal matches is the literal up to
    case. *)
Lemma lit_eq_lower (a : string) :
  forall m, lit_eq true a m = true -> Py.lower m = Py.lower a.
Proof.
  induction a as [|x a IH]; intros [|c m] H; simpl in H; try discriminate;
    [reflexivity|].
  apply andb_true_iff in H. destruct H as [Hc Hl].
  unfold Re.char_eq in Hc. apply Ascii.eqb_eq in Hc.
  simpl. now rewrite Hc, (IH m Hl).
Qed.

Lemma alt_lower (alts : list string) (m : string) :
  (exists a, In a alts /\ lit_eq true a m = true) ->
  In (Py.lower m) (map Py.lower alts).
Proof.
  intros [a [Ha Hl]]. rewrite (lit_eq_lower a m Hl). now apply in_map.
Qed.

(** Peel the first token off a successful match. *)
Ltac peel H :=
  first
    [ apply re_match_lit_inv in H;
      let m := fresh "m" in
      let r := fresh "r" in
      destruct H as (m & r & _ & _ & H)
    | apply re_match_alt_inv in H;
      let m := fresh "m" in
      let r := fresh "r" in
      let gs := fresh "gs" in
      let Ha := fresh "Halt" in
      let Hg := fresh "Hg" in
      destruct H as (m & r & gs & _ & Ha & H & Hg);
      apply alt_lower in Ha; simpl in Ha, Hg
    | apply re_match_plus_inv in H;
      let m := fresh "m" in
      let r := fresh "r" in
      let gs := fresh "gs" in
      let Hg := fresh "Hg" in
      destruct H as (m & r & gs & _ & _ & _ & H & Hg); simpl in Hg
    | apply re_match_star_inv in H;
      let m := fresh "m" in
      let r := fresh "r" in
      destruct H as (m & r & _ & _ & H) ].

Lemma rule_is_shape (text : string) (c : Condition.t) :
  CAPLParser.rule_is text = Some c ->
  In (Condition.type c)
    ["user"; "app"; "platform"; "device"; "location"; "client"]
  /\ Condition.operator c = "is" /\ Condition.is_negated c = false.
Proof.
  unfold CAPLParser.rule_is.
  destruct (Re.re_match true CAPLParser.re_is text) as [gs|] eqn:E;
    [|discriminate].
  intros [= <-]. simpl. split; [|now split].
  unfold CAPLParser.re_is in E. peel E. subst gs. exact Halt.
Qed.

Lemma rule_user_not_in_shape (text : string) (c : Condition.t) :
  CAPLParser.rule_user_not_in text = Some c ->
  Condition.type c = "user" /\ Condition.operator c = "in"
  /\ Condition.is_negated c = true.
Proof.
  unfold CAPLParser.rule_user_not_in.
  destruct (Re.re_match true CAPLParser.re_user_not_in text) as [gs|] eqn:E;
    [|discriminate].
  intros [= <-]. simpl. split; [|now split].
  unfold CAPLParser.re_user_not_in in E. cbn [app] in E. peel E. subst gs.
  destruct Halt as [H|[]]. now symmetry.
Qed.

Lemma rule_user_in_shape (text : string) (c : Condition.t) :
  CAPLParser.rule_user_in text = Some c ->
  In (Condition.type c) ["user-group"; "user-role"]
  /\ Condition.operator c = "in" /\ Condition.is_negated c = false.
Proof.
  unfold CAPLParser.rule_user_in.
  destruct (Re.re_match true CAPLParser.re_user_in text) as [gs|] eqn:E;
    [|discriminate].
  intros [= <-]. simpl. split; [|now split].
  unfold CAPLParser.re_user_in in E. cbn [app] in E.
  peel E. peel E. peel E. peel E. peel E. subst.
  unfold CAPLParser.group. simpl.
  destruct Halt as [<-|[]]. destruct Halt0 as [<-|[<-|[]]]; simpl; auto.
Qed.

Lemma rule_in_shape (text : string) (c : Condition.t) :
  CAPLParser.rule_in text = Some c ->
  In (Condition.type c) ["app"; "location"]
  /\ Condition.operator c = "in" /\ Condition.is_negated c = false.
Proof.
  unfold CAPLParser.rule_in.
  destruct (Re.re_match true CAPLParser.re_in text) as [gs|] eqn:E;
    [|discriminate].
  intros [= <-]. simpl. split; [|now split].
  unfold CAPLParser.re_in in E. cbn [app] in E. peel E. subst gs.
  exact Halt.
Qed.

Lemma rule_not_is_shape (kind text : string) (c : Condition.t) :
  CAPLParser.rule_not_is kind text = Some c ->
  Condition.type c = Py.lower kind /\ Condition.operator c = "is"
  /\ Condition.is_negated c = true.
Proof.
  unfold CAPLParser.rule_not_is.
  destruct (Re.re_match true (CAPLParser.re_not_is kind) text) as [gs|] eqn:E;
    [|discriminate].
  intros [= <-]. simpl. split; [|now split].
  unfold CAPLParser.re_not_is in E. peel E. subst gs.
  destruct Halt as [H|[]]. now symmetry.
Qed.

Lemma or_rule_shape (text : string) (c : Condition.t) :
  CAPLParser.or_rule text = Some c ->
  In (Condition.type c) ["platform"; "client"]
  /\ Condition.operator c = "is-or" /\ Condition.is_negated c = false.
Proof.
  unfold CAPLParser.or_rule.
  destruct (Py.contains " OR " text); [|discriminate].
  destruct (Re.re_match true (CAPLParser.re_or_part true) _) as [gs|] eqn:E;
    [|discriminate].
  intros [= <-]. simpl. split; [|now split].
  unfold CAPLParser.re_or_part in E. peel E. subst gs. exact Halt.
Qed.

Lemma rule_risk_shape (text : string) (c : Condition.t) :
  CAPLParser.rule_risk text = Some c ->
  In (Condition.type c) ["signin-risk"; "user-risk"]
  /\ Condition.operator c = "is" /\ Condition.is_negated c = false.
Proof.
  unfold CAPLParser.rule_risk.
  destruct (Re.re_match true CAPLParser.re_risk text) as [gs|] eqn:E;
    [|discriminate].
  intros [= <-]. simpl. split; [|now split].
  unfold CAPLParser.re_risk in E. peel E. subst gs. exact Halt.
Qed.

Lemma rule_device_shape (text : string) (c : Condition.t) :
  CAPLParser.rule_device text = Some c ->
  Condition.type c = "device"
  /\ Condition.operator c = "is" /\ Condition.is_negated c = false.
Proof.
  unfold CAPLParser.rule_device.
  destruct (Re.re_match true CAPLParser.re_device text) as [gs|] eqn:E;
    [|discriminate].
  intros [= <-]. simpl. split; [|now split].
  unfold CAPLParser.re_device in E. peel E. subst gs.
  destruct Halt as [H|[]]. now symmetry.
Qed.

(** The Condition of the first rule that matches: its kind is one of the
    ten kinds of the rules, its operator one of the three, and it is
    negated only as a [user], [location] or [client] condition, never as
    an [is-or] one. *)
Lemma first_match_shape (text : string) (c : Condition.t) :
  CAPLParser.first_match CAPLParser.rules text = Some c ->
  In (Condition.type c) rule_kinds
  /\ In (Condition.operator c) ["is"; "in"; "is-or"]
  /\ (Condition.is_negated c = true ->
      In (Condition.type c) ["user"; "location"; "client"]
      /\ Condition.operator c <> "is-or").
Proof.
  unfold CAPLParser.rules, rule_kinds. simpl.
  destruct (CAPLParser.rule_is text) eqn:E1.
  { intros [= <-]. apply rule_is_shape in E1.
    destruct E1 as (Ht & -> & ->). simpl in *.
    split; [tauto|]. split; [tauto | discriminate]. }
  destruct (CAPLParser.rule_user_not_in text) eqn:E2.
  { intros [= <-]. apply rule_user_not_in_shape in E2.
    destruct E2 as (-> & -> & _). simpl.
    split; [tauto|]. split; [tauto|]. intros _. split; [tauto|discriminate]. }
  destruct (CAPLParser.rule_user_in text) eqn:E3.
  { intros [= <-]. apply rule_user_in_shape in E3.
    destruct E3 as (Ht & -> & ->). simpl in *.
    split; [tauto|]. split; [tauto | discriminate]. }
  destruct (CAPLParser.rule_in text) eqn:E4.
  { intros [= <-]. apply rule_in_shape in E4.
    destruct E4 as (Ht & -> & ->). simpl in *.
    split; [tauto|]. split; [tauto | discriminate]. }
  destruct (CAPLParser.rule_not_is "location" text) eqn:E5.
  { intros [= <-]. apply rule_not_is_shape in E5.
    destruct E5 as (-> & -> & _). simpl.
    split; [tauto|]. split; [tauto|]. intros _. split; [tauto|discriminate]. }
  destruct (CAPLParser.rule_not_is "client" text) eqn:E6.
  { intros [= <-]. apply rule_not_is_shape in E6.
    destruct E6 as (-> & -> & _). simpl.
    split; [tauto|]. split; [tauto|]. intros _. split; [tauto|discriminate]. }
  destruct (CAPLParser.or_rule text) eqn:E7.
  { intros [= <-]. apply or_rule_shape in E7.
    destruct E7 as (Ht & -> & ->). simpl in *.
    split; [tauto|]. split; [tauto | discriminate]. }
  destruct (CAPLParser.rule_risk text) eqn:E8.
  { intros [= <-]. apply rule_risk_shape in E8.
    destruct E8 as (Ht & -> & ->). simpl in *.
    split; [tauto|]. split; [tauto | discriminate]. }
  destruct (CAPLParser.rule_device text) eqn:E9; [|discriminate].
  intros [= <-]. apply rule_device_shape in E9.
  destruct E9 as (-> & -> & ->). simpl.
  split; [tauto|]. split; [tauto | discriminate].
Qed.

(** On a text that, after substitution, holds ASCII characters only,
    the Condition that [_parse_condition] returns has one of the eleven
    kinds ([unknown] or a kind of the rules; the application kind is
    spelled [app]) and one of the three operators, and is negated only as
    a [user], [location] or [client] condition with operator [is] or
    [in]; a negated membership in a group has kind [user], not
    [user-group].  (Outside ASCII the patterns of the source fold more
    characters than [Re.char_eq] does, and the kind is the lowered text
    of the line's first word.) *)
Theorem parsed_condition_well_formed (vars : Dict.t Var.t) (text : string) :
  ascii_only (CAPLParser.substitute vars text) ->
  let c := fst (CAPLParser.parse_condition vars text) in
  In (Condition.type c) ("unknown" :: rule_kinds)
  /\ In (Condition.operator c) ["is"; "in"; "is-or"]
  /\ (Condition.is_negated c = true ->
      In (Condition.type c) ["user"; "location"; "client"]
      /\ Condition.operator c <> "is-or").
Proof.
  intros _. cbv zeta. unfold CAPLParser.parse_condition.
  destruct (CAPLParser.first_match CAPLParser.rules _) as [c|] eqn:E.
  - apply first_match_shape in E. destruct E as (Ht & Ho & Hn).
    simpl. split; [now right|]. now split.
  - simpl. split; [now left|]. split; [tauto | discriminate].
Qed.

Lemma parsed_condition_well_formed_witness :
  let vars := [("admins", Var.mk "admins" "Admins" "1234-abcd")] in
  let text := "user not in admins" in
  ascii_only (CAPLParser.substitute vars text)
  /\ (let c := fst (CAPLParser.parse_condition vars text) in
      In (Condition.type c) ("unknown" :: rule_kinds)
      /\ In (Condition.operator c) ["is"; "in"; "is-or"]
      /\ (Condition.is_negated c = true ->
          In (Condition.type c) ["user"; "location"; "client"]
          /\ Condition.operator c <> "is-or")).
Proof.
  intros vars text.
  assert (H : ascii_only (CAPLParser.substitute vars text))
    by (vm_compute; reflexivity).
  split; [exact H|].
  exact (parsed_condition_well_formed vars text H).
Defined.

Lemma first_match_some (rs : list (string -> option Condition.t))
  (text : string) (c : Condition.t) :
  CAPLParser.first_match rs text = Some c ->
  exists r, In r rs /\ r text = Some c.
Proof.
  induction rs as [|r rs IH]; simpl; [discriminate|].
  destruct (r text) as [c'|] eqn:E.
  - intros [= <-]. exists r. split; [now left | exact E].
  - intros H. destruct (IH H) as [r' [Hin Hr']]. exists r'.
    split; [now right | exact Hr'].
Qed.

(** [_parse_condition] returns kind [unknown] exactly for the texts that,
    after substitution, match no grammar rule, and prints its warning
    exactly then. *)
Theorem unknown_exactly_when_no_rule (vars : Dict.t Var.t) (text : string) :
  (Condition.type (fst (CAPLParser.parse_condition vars text)) = "unknown"
   <-> matches_no_rule (CAPLParser.substitute vars text))
  /\ (snd (CAPLParser.parse_condition vars text) <> []
      <-> matches_no_rule (CAPLParser.substitute vars text)).
Proof.
  unfold CAPLParser.parse_condition.
  destruct (CAPLParser.first_match CAPLParser.rules
              (CAPLParser.substitute vars text)) as [c|] eqn:E.
  - assert (Hno : ~ matches_no_rule (CAPLParser.substitute vars text)).
    { intros Hno. apply first_match_some in E.
      destruct E as [r [Hin Hr]]. rewrite (Hno r Hin) in Hr. discriminate. }
    apply first_match_shape in E. destruct E as (Ht & _).
    simpl. split; split; try tauto.
    intros Hu. rewrite Hu in Ht. unfold rule_kinds in Ht. simpl in Ht.
    intuition discriminate.
  - assert (Hno : matches_no_rule (CAPLParser.substitute vars text)).
    { intros r Hin. destruct (r (CAPLParser.substitute vars text)) eqn:Er;
        [|reflexivity].
      exfalso. clear - E Hin Er. revert E Hin.
      generalize CAPLParser.rules as rs.
      induction rs as [|r' rs IH]; simpl; [tauto|].
      destruct (r' (CAPLParser.substitute vars text)) eqn:Er';
        [discriminate|].
      intros H [->|Hin]; [congruence | now apply IH]. }
    simpl. split; split; try tauto. intros _. discriminate.
Qed.

(** ** The signature does not depend on the order of the actions *)

Lemma ascii_compare_spec (x y : ascii) :
  CompareSpec (x = y) (N_of_ascii x < N_of_ascii y)%N
    (N_of_ascii y < N_of_ascii x)%N (Ascii.compare x y).
Proof.
  unfold Ascii.compare.
  destruct (N.compare_spec (N_of_ascii x) (N_of_ascii y)) as [H|H|H];
    constructor; try assumption.
  rewrite <- (ascii_N_embedding x), <- (ascii_N_embedding y). now rewrite H.
Qed.

Lemma str_le_trans (a : string) :
  forall b c, str_le a b -> str_le b c -> str_le a c.
Proof.
  unfold str_le, String.leb.
  induction a as [|x a IH]; intros [|y b] [|z c]; simpl; try easy.
  specialize (IH b c).
  destruct (ascii_compare_spec x y) as [Hxy|Hxy|Hxy];
    destruct (ascii_compare_spec y z) as [Hyz|Hyz|Hyz];
    destruct (ascii_compare_spec x z) as [Hxz|Hxz|Hxz];
    subst; try easy; try lia.
  all: try (intros _ _; exfalso; lia).
Qed.

Lemma sorted_strongly (l : list string) :
  Sorted str_le l -> StronglySorted str_le l.
Proof.
  apply Sorted_StronglySorted. intros a b c. apply str_le_trans.
Qed.

(** Two ordered lists with the same elements are the same list. *)
Lemma sorted_perm_eq (l : list string) :
  forall l', StronglySorted str_le l -> StronglySorted str_le l' ->
             Permutation l l' -> l = l'.
Proof.
  induction l as [|x l IH]; intros l' Hs Hs' Hp.
  - apply Permutation_nil in Hp. now subst.
  - destruct l' as [|y l'];
      [apply Permutation_sym, Permutation_nil in Hp; discriminate|].
    inversion Hs as [|? ? Hsl Hx]; subst.
    inversion Hs' as [|? ? Hsl' Hy]; subst.
    assert (Hxy : x = y).
    { assert (Hin : In x (y :: l'))
        by (apply Permutation_in with (x :: l); [exact Hp | now left]).
      assert (Hin' : In y (x :: l))
        by (apply Permutation_in with (y :: l');
            [now apply Permutation_sym | now left]).
      destruct Hin as [->|Hin]; [reflexivity|].
      destruct Hin' as [->|Hin']; [reflexivity|].
      rewrite Forall_forall in Hx, Hy.
      apply String.leb_antisym; [apply Hx, Hin' | apply Hy, Hin]. }
    subst y. f_equal. apply IH; try assumption.
    now apply Permutation_cons_inv with x.
Qed.

Lemma sort_of_permutation (l l' : list string) :
  Permutation l l' -> Py.sort l = Py.sort l'.
Proof.
  intros Hp. apply sorted_perm_eq.
  - apply sorted_strongly, sort_sorted.
  - apply sorted_strongly, sort_sorted.
  - apply perm_trans with l; [apply sort_perm|].
    apply perm_trans with l'; [exact Hp | apply Permutation_sym, sort_perm].
Qed.

Lemma existsb_permutation {A : Type} (f : A -> bool) (l l' : list A) :
  Permutation l l' -> existsb f l = existsb f l'.
Proof.
  intros Hp. induction Hp; simpl.
  - reflexivity.
  - now rewrite IHHp.
  - now destruct (f x), (f y).
  - congruence.
Qed.

(** Paths whose action lists are rearrangements of one another have the
    same outcome signature, so the order in which a branch lists its
    actions does not separate clusters. *)
Theorem signature_ignores_action_order (p q : PolicyPath.t) :
  Permutation (PolicyPath.actions p) (PolicyPath.actions q) ->
  get_action_signature p = get_action_signature q.
Proof.
  intros Hp. unfold get_action_signature.
  rewrite (existsb_permutation _ _ _ Hp), !collect_controls_values.
  assert (Hv : forall ty,
             Py.sort (values_of ty (PolicyPath.actions p))
             = Py.sort (values_of ty (PolicyPath.actions q))).
  { intros ty. apply sort_of_permutation. unfold values_of.
    now apply Permutation_flat_map. }
  now rewrite !Hv.
Qed.

Lemma signature_ignores_action_order_witness :
  let a := CAPLParser.parse_action "REQUIRE MFA" in
  let b := CAPLParser.parse_action "REQUIRE CompliantDevice" in
  let s := CAPLParser.parse_action "SESSION block-downloads" in
  Permutation [a; s; b] [b; a; s]
  /\ get_action_signature (PolicyPath.mk [] [a; s; b] "enabled")
     = get_action_signature (PolicyPath.mk [] [b; a; s] "enabled").
Proof.
  intros a b s.
  assert (Hp : Permutation [a; s; b] [b; a; s]).
  { apply perm_trans with [a; b; s];
      [apply perm_skip, perm_swap | apply perm_swap]. }
  split; [exact Hp|].
  exact (signature_ignores_action_order
           (PolicyPath.mk [] [a; s; b] "enabled")
           (PolicyPath.mk [] [b; a; s] "enabled") Hp).
Defined.

(** ** Merging identifier-keyed and other kinds *)

Lemma collect_guids_spec (conds : list Condition.t) :
  NoDup (PolicyOptimizer.collect_guids conds)
  /\ forall g,
      In g (PolicyOptimizer.collect_guids conds)
      <-> g <> EmptyString
          /\ exists c, In c conds /\ Condition.guid c = Some g.
Proof.
  unfold PolicyOptimizer.collect_guids.
  assert (H : forall (s : PySet.t),
             NoDup s ->
             let r :=
               fold_left
                 (fun unique_guids cond =>
                    if Py.truthy_opt (Condition.guid cond)
                    then PySet.add unique_guids
                           (match Condition.guid cond with
                            | Some g => g
                            | None => EmptyString
                            end)
                    else unique_guids)
                 conds s in
             NoDup r
             /\ forall g, In g r
                          <-> In g s
                              \/ (g <> EmptyString
                                  /\ exists c, In c conds
                                               /\ Condition.guid c = Some g)).
  { induction conds as [|c conds IH]; intros s Hnd; simpl.
    - split; [exact Hnd|]. intros g. split; [now left|].
      intros [H|[_ [c [[] _]]]]. exact H.
    - match goal with
      | |- context [fold_left _ conds ?s0] =>
          destruct (IH s0) as [Hnd' Hin]
      end.
      { destruct (Py.truthy_opt _); [now apply set_add_nodup | exact Hnd]. }
      split; [exact Hnd'|]. intros g. rewrite Hin. clear Hin IH.
      destruct (Condition.guid c) as [gc|] eqn:Eg; simpl.
      + destruct (Py.truthy gc) eqn:Et.
        * rewrite set_add_in. apply truthy_iff in Et. split.
          -- intros [[H| ->]|(Hne & c' & Hc' & Hg)].
             ++ now left.
             ++ right. split; [exact Et|]. exists c. split; [now left|exact Eg].
             ++ right. split; [exact Hne|]. exists c'. split; [now right|exact Hg].
          -- intros [H|(Hne & c' & [<-|Hc'] & Hg)].
             ++ left. now left.
             ++ left. right. congruence.
             ++ right. split; [exact Hne|]. now exists c'.
        * split.
          -- intros [H|(Hne & c' & Hc' & Hg)]; [now left|].
             right. split; [exact Hne|]. exists c'. split; [now right|exact Hg].
          -- intros [H|(Hne & c' & [<-|Hc'] & Hg)]; [now left | |].
             ++ exfalso. rewrite Eg in Hg. injection Hg as ->.
                destruct g; [contradiction | discriminate].
             ++ right. split; [exact Hne|]. now exists c'.
      + split.
        * intros [H|(Hne & c' & Hc' & Hg)]; [now left|].
          right. split; [exact Hne|]. exists c'. split; [now right|exact Hg].
        * intros [H|(Hne & c' & [<-|Hc'] & Hg)]; [now left | congruence |].
          right. split; [exact Hne|]. now exists c'. }
  destruct (H PySet.empty) as [Hnd Hin]; [constructor|].
  split; [exact Hnd|]. intros g. rewrite Hin. simpl. tauto.
Qed.

Lemma find_first {A : Type} (f : A -> bool) (l : list A) (x : A) :
  find f l = Some x ->
  exists pre post,
    l = pre ++ x :: post /\ f x = true /\ forall y, In y pre -> f y = false.
Proof.
  induction l as [|a l IH]; simpl; [discriminate|].
  destruct (f a) eqn:E.
  - intros [= <-]. exists [], l. repeat split; [exact E | intros y []].
  - intros H. destruct (IH H) as (pre & post & -> & Hx & Hpre).
    exists (a :: pre), post. repeat split; [exact Hx|].
    intros y [<-|Hy]; [exact E | now apply Hpre].
Qed.

Lemma guid_is_iff (g : string) (c : Condition.t) :
  PolicyOptimizer.guid_is g c = true <-> Condition.guid c = Some g.
Proof.
  unfold PolicyOptimizer.guid_is. destruct (Condition.guid c) as [g'|].
  - rewrite String.eqb_eq. split; congruence.
  - split; discriminate.
Qed.

(** The merge of a [user-group] or [user-role] group emits one Condition
    for each distinct non-empty identifier of the group and nothing else;
    each takes its display name and its negation from the first Condition
    of the group that carries the identifier. *)
Theorem identifier_merge (set_order : PySet.t -> list string) (k : string)
  (conds : list Condition.t) :
  valid_set_order set_order ->
  In k ["user-group"; "user-role"] ->
  let emitted :=
    PolicyOptimizer.merge_conditions_of_type set_order k conds in
  NoDup (map Condition.guid emitted)
  /\ (forall g,
         In (Some g) (map Condition.guid emitted)
         <-> g <> EmptyString
             /\ exists c, In c conds /\ Condition.guid c = Some g)
  /\ forall e,
      In e emitted ->
      Condition.type e = k /\ Condition.operator e = "in"
      /\ exists g pre orig post,
          Condition.guid e = Some g
          /\ conds = pre ++ orig :: post
          /\ Condition.guid orig = Some g
          /\ (forall x, In x pre -> Condition.guid x <> Some g)
          /\ Condition.value e = Condition.value orig
          /\ Condition.is_negated e = Condition.is_negated orig.
Proof.
  intros Hvalid Hk emitted. subst emitted.
  destruct (collect_guids_spec conds) as [Hnd Hin].
  unfold PolicyOptimizer.merge_conditions_of_type.
  destruct conds as [|first rest] eqn:Ec.
  { simpl. split; [constructor|]. split; [|intros e []].
    intros g. split; [intros [] | intros (_ & c & [] & _)]. }
  rewrite <- Ec in *.
  assert (Hm1 : Py.mem k ["platform"; "location"; "client"; "app"] = false)
    by (destruct Hk as [<-|[<-|[]]]; reflexivity).
  assert (Hm2 : Py.mem k ["user-group"; "user-role"] = true)
    by now apply mem_iff.
  rewrite Hm1, Hm2.
  set (guids := set_order (PolicyOptimizer.collect_guids conds)).
  assert (Hperm : Permutation guids (PolicyOptimizer.collect_guids conds))
    by apply Hvalid.
  rewrite map_map. cbn [Condition.guid].
  split; [|split].
  - apply Finite.Injective_map_NoDup; [intros x y [= ->]; reflexivity|].
    apply Permutation_NoDup with (PolicyOptimizer.collect_guids conds);
      [now apply Permutation_sym | exact Hnd].
  - intros g. rewrite <- Hin, in_map_iff. split.
    + intros [g' [[= ->] Hg]]. now apply Permutation_in with guids.
    + intros Hg. exists g. split; [reflexivity|].
      apply Permutation_in with (PolicyOptimizer.collect_guids conds);
        [now apply Permutation_sym | exact Hg].
  - intros e He. apply in_map_iff in He. destruct He as [g [<- Hg]].
    cbn [Condition.type Condition.operator Condition.guid Condition.value
         Condition.is_negated].
    split; [reflexivity|]. split; [reflexivity|].
    assert (Hg' : In g (PolicyOptimizer.collect_guids conds))
      by now apply Permutation_in with guids.
    apply Hin in Hg'. destruct Hg' as (_ & c & Hc & Hcg).
    destruct (find (PolicyOptimizer.guid_is g) conds) as [orig|] eqn:Ef.
    + destruct (find_first _ _ _ Ef) as (pre & post & Hl & Ho & Hpre).
      exists g, pre, orig, post. apply guid_is_iff in Ho.
      repeat split; try assumption.
      intros x Hx Hxg. apply guid_is_iff in Hxg.
      rewrite (Hpre x Hx) in Hxg. discriminate.
    + exfalso. apply (find_none _ _ Ef) in Hc.
      apply guid_is_iff in Hcg. congruence.
Qed.

Lemma identifier_merge_witness :
  let conds :=
    [Condition.mk "user-group" "in" "Ops" (Some "g1") false;
     Condition.mk "user-group" "in" "Dev" (Some "g2") false;
     Condition.mk "user-group" "in" "Ops again" (Some "g1") false] in
  (valid_set_order reverse_order
   /\ In "user-group" ["user-group"; "user-role"])
  /\ NoDup (map Condition.guid
              (PolicyOptimizer.merge_conditions_of_type reverse_order
                 "user-group" conds)).
Proof.
  intros conds.
  assert (Hv : valid_set_order reverse_order)
    by (intros s; apply Permutation_sym, Permutation_rev).
  assert (Hk : In "user-group" ["user-group"; "user-role"]) by now left.
  split; [now split|].
  exact (proj1 (identifier_merge reverse_order "user-group" conds Hv Hk)).
Defined.

(** For a kind that is neither list-capable nor identifier-keyed, the
    merged conditions of a cluster hold the first Condition of that kind
    met in the cluster and drop every later one, whatever its value. *)
Theorem other_kinds_keep_first (set_order : PySet.t -> list string)
  (paths : list PolicyPath.t) (k : string) :
  ~ In k list_capable_types -> ~ In k ["user-group"; "user-role"] ->
  filter (fun c => String.eqb (Condition.type c) k)
    (PolicyOptimizer.merge_groups set_order
       (PolicyOptimizer.group_conditions paths))
  = firstn 1 (conditions_of_type k paths).
Proof.
  intros H1 H2. rewrite merge_groups_of_type.
  unfold PolicyOptimizer.merge_conditions_of_type.
  destruct (conditions_of_type k paths) as [|first rest]; [reflexivity|].
  apply mem_false_iff in H1, H2. unfold list_capable_types in H1.
  now rewrite H1, H2.
Qed.

Lemma other_kinds_keep_first_witness :
  let paths :=
    [PolicyPath.mk [Condition.mk "user" "is" "Guest" None false]
       [Action.mk "BLOCK" None false] "enabled";
     PolicyPath.mk [Condition.mk "user" "is" "All" None false]
       [Action.mk "BLOCK" None false] "enabled"] in
  (~ In "user" list_capable_types /\ ~ In "user" ["user-group"; "user-role"])
  /\ filter (fun c => String.eqb (Condition.type c) "user")
       (PolicyOptimizer.merge_groups insertion_order
          (PolicyOptimizer.group_conditions paths))
     = firstn 1 (conditions_of_type "user" paths).
Proof.
  intros paths.
  assert (H1 : ~ In "user" list_capable_types)
    by (unfold list_capable_types; simpl; intuition discriminate).
  assert (H2 : ~ In "user" ["user-group"; "user-role"])
    by (simpl; intuition discriminate).
  split; [now split|].
  exact (other_kinds_keep_first insertion_order paths "user" H1 H2).
Defined.

(** ** Path extraction over the whole tree *)

Section DecisionInduction.

Variable P : IfStatement -> Prop.
Variable Q : PolicyBranch -> Prop.

Hypothesis branch_case :
  forall c a s n,
    match n with Some nested => P nested | None => True end ->
    Q (mkBranch c a s n).

Hypothesis decision_case :
  forall ib eibs eb,
    Q ib -> Forall Q eibs ->
    match eb with Some b => Q b | None => True end ->
    P (mkIf ib eibs eb).

Lemma decision_ind : forall s, P s.
Proof.
  exact
    (fix on_decision (s : IfStatement) : P s :=
       match s with
       | mkIf ib eibs eb =>
           decision_case ib eibs eb (on_branch ib)
             ((fix on_list (l : list PolicyBranch) : Forall Q l :=
                 match l with
                 | [] => Forall_nil Q
                 | b :: l' => Forall_cons b (on_branch b) (on_list l')
                 end) eibs)
             (match eb
                    return match eb with Some b => Q b | None => True end
              with
              | Some b => on_branch b
              | None => I
              end)
       end
     with on_branch (b : PolicyBranch) : Q b :=
       match b with
       | mkBranch c a st n =>
           branch_case c a st n
             (match n
                    return match n with
                           | Some nested => P nested
                           | None => True
                           end
              with
              | Some nested => on_decision nested
              | None => I
              end)
       end
     for on_decision).
Qed.

End DecisionInduction.

Lemma paths_of_branch_eq (parent : list Condition.t) (c : list Condition.t)
  (a : list Action.t) (st : string) (n : option IfStatement) :
  paths_of_branch parent (mkBranch c a st n)
  = match n with
    | Some nested =>
        PathExtractor.extract_paths_from_statement nested (parent ++ c)
    | None => [PolicyPath.mk (parent ++ c) a st]
    end.
Proof. reflexivity. Qed.

Lemma stmt_branches_eq (s : IfStatement) :
  stmt_branches s
  = branches_below (if_branch s)
    ++ flat_map branches_below (else_if_branches s)
    ++ match else_branch s with
       | Some b => branches_below b
       | None => []
       end.
Proof. destruct s as [ib eibs eb]. reflexivity. Qed.

Lemma under_under (outer inner : list Condition.t) (p : PolicyPath.t) :
  under outer (under inner p) = under (outer ++ inner) p.
Proof. unfold under. simpl. now rewrite app_assoc. Qed.

Lemma flat_map_map_ext {A B C : Type} (f : A -> list C) (g : A -> list B)
  (h : B -> C) (l : list A) :
  Forall (fun x => f x = map h (g x)) l ->
  flat_map f l = map h (flat_map g l).
Proof.
  induction 1 as [|x l Hx _ IH]; [reflexivity|].
  simpl. now rewrite Hx, IH, map_app.
Qed.

Lemma extract_under (s : IfStatement) :
  forall outer inner,
    PathExtractor.extract_paths_from_statement s (outer ++ inner)
    = map (under outer) (PathExtractor.extract_paths_from_statement s inner).
Proof.
  apply (decision_ind
           (fun s =>
              forall outer inner,
                PathExtractor.extract_paths_from_statement s (outer ++ inner)
                = map (under outer)
                    (PathExtractor.extract_paths_from_statement s inner))
           (fun b =>
              forall outer inner,
                paths_of_branch (outer ++ inner) b
                = map (under outer) (paths_of_branch inner b))).
  - intros c a st [nested|] H outer inner; rewrite !paths_of_branch_eq.
    + rewrite <- app_assoc. apply H.
    + unfold under. simpl. now rewrite app_assoc.
  - intros ib eibs eb Hib Heibs Heb outer inner.
    rewrite !extract_paths_from_statement_eq. cbn [if_branch
      else_if_branches else_branch].
    rewrite !map_app, Hib. f_equal. f_equal.
    + apply flat_map_map_ext.
      eapply Forall_impl; [|exact Heibs]. intros b Hb. apply Hb.
    + destruct eb as [b|]; [apply Heb | reflexivity].
Qed.

(** The paths of a Decision under parent conditions are its paths under
    none, each with the parent conditions in front of its own: the
    conditions of the enclosing branches reach a path unchanged and in
    order, and neither the number of paths nor their actions and state
    depend on them. *)
Theorem paths_under_parent_conditions (s : IfStatement)
  (parent : list Condition.t) :
  PathExtractor.extract_paths_from_statement s parent
  = map (under parent) (PathExtractor.extract_paths_from_statement s []).
Proof.
  rewrite <- (app_nil_r parent) at 1. apply extract_under.
Qed.

Lemma extract_nonempty (s : IfStatement) :
  forall parent,
    1 <= length (PathExtractor.extract_paths_from_statement s parent).
Proof.
  apply (decision_ind
           (fun s =>
              forall parent,
                1 <= length
                       (PathExtractor.extract_paths_from_statement s parent))
           (fun b =>
              forall parent, 1 <= length (paths_of_branch parent b))).
  - intros c a st [nested|] H parent; rewrite paths_of_branch_eq.
    + apply H.
    + simpl. lia.
  - intros ib eibs eb Hib _ _ parent.
    rewrite extract_paths_from_statement_eq. cbn [if_branch].
    rewrite length_app. specialize (Hib parent). lia.
Qed.

(** The paths of a Decision are, in order, its branches without a nested
    Decision, at every depth: each such branch gives one path with the
    branch's actions and state, and a branch with a nested Decision gives
    none of its own. *)
Theorem paths_are_the_leaves (s : IfStatement) (parent : list Condition.t) :
  map (fun p => (PolicyPath.actions p, PolicyPath.state p))
    (PathExtractor.extract_paths_from_statement s parent)
  = map (fun b => (actions b, state b)) (filter is_leaf (stmt_branches s)).
Proof.
  revert s parent.
  apply (decision_ind
           (fun s =>
              forall parent,
                map (fun p => (PolicyPath.actions p, PolicyPath.state p))
                  (PathExtractor.extract_paths_from_statement s parent)
                = map (fun b => (actions b, state b))
                    (filter is_leaf (stmt_branches s)))
           (fun b =>
              forall parent,
                map (fun p => (PolicyPath.actions p, PolicyPath.state p))
                  (paths_of_branch parent b)
                = map (fun b => (actions b, state b))
                    (filter is_leaf (branches_below b)))).
  - intros c a st [nested|] H parent; rewrite paths_of_branch_eq.
    + unfold branches_below. cbn [nested_if filter is_leaf]. apply H.
    + reflexivity.
  - intros ib eibs eb Hib Heibs Heb parent.
    rewrite extract_paths_from_statement_eq, stmt_branches_eq.
    cbn [if_branch else_if_branches else_branch].
    rewrite !filter_app, !map_app, Hib. f_equal. f_equal.
    + clear Hib Heb. induction Heibs as [|b l Hb _ IH]; [reflexivity|].
      cbn [flat_map]. rewrite filter_app, !map_app, Hb, IH. reflexivity.
    + destruct eb as [b|]; [apply Heb | reflexivity].
Qed.

(** Every Decision yields at least one path, so [extract_paths] returns
    no path only for no Decision. *)
Theorem every_decision_yields_a_path (statements : list IfStatement) :
  length statements <= length (PathExtractor.extract_paths statements)
  /\ (PathExtractor.extract_paths statements = [] <-> statements = []).
Proof.
  assert (H : length statements
              <= length (PathExtractor.extract_paths statements)).
  { unfold PathExtractor.extract_paths.
    induction statements as [|s l IH]; [simpl; lia|].
    cbn [flat_map length]. rewrite length_app.
    pose proof (extract_nonempty s []). lia. }
  split; [exact H|]. split.
  - intros E. rewrite E in H. destruct statements; [reflexivity|].
    simpl in H. lia.
  - intros ->. reflexivity.
Qed.

(** ** The [OR] rule behind the first rule *)

Lemma lstrip_length (s : string) :
  String.length (Py.lstrip s) <= String.length s.
Proof.
  induction s as [|c s IH]; simpl; [lia|].
  destruct (Py.is_space c); simpl; lia.
Qed.

Lemma lstrip_fixed (c : ascii) (s : string) :
  Py.lstrip (String c s) = String c s <-> Py.is_space c = false.
Proof.
  simpl. destruct (Py.is_space c); split; try congruence; try reflexivity.
  intros H. pose proof (lstrip_length s) as Hl. rewrite H in Hl.
  simpl in Hl. lia.
Qed.

Lemma lstrip_fixed_prefix (a b : string) :
  Py.lstrip (a ^^ b) = a ^^ b -> Py.lstrip a = a.
Proof.
  destruct a as [|c a]; [reflexivity|]. cbn [String.append].
  rewrite !lstrip_fixed. auto.
Qed.

Lemma rstrip_prefix (s : string) : exists t, s = Py.rstrip s ^^ t.
Proof.
  induction s as [|c s [t IH]]; [now exists EmptyString|]. simpl.
  destruct (Py.rstrip s) as [|b r] eqn:E.
  - destruct (Py.is_space c).
    + now exists (String c s).
    + exists s. reflexivity.
  - exists t. cbn [String.append]. f_equal. exact IH.
Qed.

Lemma rstrip_keeps_head (s : string) :
  Py.lstrip s = s -> Py.lstrip (Py.rstrip s) = Py.rstrip s.
Proof.
  destruct s as [|c s]; [reflexivity|]. rewrite lstrip_fixed. intros Hc.
  cbn [Py.rstrip]. destruct (Py.rstrip s).
  - rewrite Hc. now apply lstrip_fixed.
  - now apply lstrip_fixed.
Qed.

Lemma lstrip_idempotent (s : string) :
  Py.lstrip (Py.lstrip s) = Py.lstrip s.
Proof.
  induction s as [|c s IH]; [reflexivity|]. simpl.
  destruct (Py.is_space c) eqn:E; [exact IH|]. simpl. now rewrite E.
Qed.

(** A stripped text has no blank in front. *)
Lemma strip_no_leading_space (u : string) :
  Py.lstrip (Py.strip u) = Py.strip u.
Proof. unfold Py.strip. apply rstrip_keeps_head, lstrip_idempotent. Qed.

Lemma rev_acc_app (s acc : string) :
  Py.rev_acc s acc = Py.rev_acc s EmptyString ^^ acc.
Proof.
  revert acc. induction s as [|c s IH]; intros acc; [reflexivity|]. simpl.
  rewrite (IH (String c acc)), (IH (String c EmptyString)), append_assoc.
  reflexivity.
Qed.

(** The first piece of a split is the start of the text. *)
Lemma split_aux_head (sep : string) (s : string) :
  forall cur,
    exists pre rest,
      s = pre ^^ rest
      /\ nth 0 (Py.split_aux sep s 0 cur) EmptyString
         = Py.rev_acc cur EmptyString ^^ pre.
Proof.
  induction s as [|c s IH]; intros cur.
  - exists EmptyString, EmptyString. simpl. now rewrite append_nil_r.
  - cbn [Py.split_aux]. destruct (String.prefix sep (String c s)).
    + exists EmptyString, (String c s). simpl. now rewrite append_nil_r.
    + destruct (IH (String c cur)) as (pre & rest & -> & Hn).
      exists (String c pre), rest. split; [reflexivity|].
      rewrite Hn. cbn [Py.rev_acc]. rewrite rev_acc_app, append_assoc.
      reflexivity.
Qed.

Lemma split_head (s sep : string) :
  exists rest, s = nth 0 (Py.split s sep) EmptyString ^^ rest.
Proof.
  unfold Py.split.
  destruct (split_aux_head sep s EmptyString) as (pre & rest & -> & Hn).
  exists rest. rewrite Hn. reflexivity.
Qed.

Lemma matches_extend (ci : bool) (p : list Re.tok) :
  forall s t, matches ci p s -> matches ci p (s ^^ t).
Proof.
  induction p as [|k p IH]; intros s t H; [exact I|].
  destruct H as (m & r & -> & Hk & Hp).
  exists m, (r ^^ t). rewrite append_assoc. auto.
Qed.

Lemma matches_or_part_is (capture : bool) (s : string) :
  matches true (CAPLParser.re_or_part capture) s ->
  matches true CAPLParser.re_is s.
Proof.
  unfold CAPLParser.re_or_part, CAPLParser.re_is.
  intros (m & r & -> & (a & Ha & Hm) & Hp).
  exists m, r. split; [reflexivity|]. split; [|exact Hp].
  exists a. split; [|exact Hm]. simpl in Ha |- *. tauto.
Qed.

(** On a text with no blank in front, the [OR] rule applies only where
    the first rule has applied already. *)
Lemma or_rule_shadowed (text : string) :
  Py.lstrip text = text ->
  CAPLParser.rule_is text = None -> CAPLParser.or_rule text = None.
Proof.
  intros Hhead Hnone. unfold CAPLParser.or_rule.
  destruct (Py.contains " OR " text); [|reflexivity]. cbv zeta.
  destruct (Re.re_match true (CAPLParser.re_or_part true) _) as [gs|] eqn:E;
    [|reflexivity].
  exfalso. apply rule_is_language in Hnone. apply Hnone.
  apply re_match_sound in E.
  rewrite (map_nth Py.strip (Py.split text " OR ") EmptyString 0
           : nth 0 (map Py.strip (Py.split text " OR ")) EmptyString = _)
    in E.
  destruct (split_head text " OR ") as [rest Hrest].
  set (part := nth 0 (Py.split text " OR ") EmptyString) in *.
  assert (Hpart : Py.lstrip part = part).
  { apply lstrip_fixed_prefix with (b := rest). now rewrite <- Hrest. }
  unfold Py.strip in E. rewrite Hpart in E.
  destruct (rstrip_prefix part) as [t Ht].
  rewrite Hrest, Ht, append_assoc.
  apply matches_extend. now apply matches_or_part_is with (capture := true).
Qed.

Lemma replace_no_leading_space (s old new : string) (q : ascii) :
  Py.is_space q = false -> Py.lstrip s = s ->
  Py.lstrip (Py.replace s old (String q new))
  = Py.replace s old (String q new).
Proof.
  intros Hq Hs. destruct s as [|c s]; [reflexivity|].
  apply lstrip_fixed in Hs. unfold Py.replace. cbn [Py.replace_aux].
  destruct (String.prefix old (String c s)).
  - cbn [String.append]. now apply lstrip_fixed.
  - now apply lstrip_fixed.
Qed.

Lemma substitute_no_leading_space (vars : Dict.t Var.t) :
  forall text,
    Py.lstrip text = text ->
    Py.lstrip (CAPLParser.substitute vars text)
    = CAPLParser.substitute vars text.
Proof.
  unfold CAPLParser.substitute.
  induction vars as [|[k v] vars IH]; intros text H; [exact H|].
  cbn [fold_left]. apply IH.
  destruct (Py.contains k text); [|exact H].
  apply replace_no_leading_space; [reflexivity | exact H].
Qed.

Lemma first_match_without_or (text : string) (c : Condition.t) :
  Py.lstrip text = text ->
  CAPLParser.first_match CAPLParser.rules text = Some c ->
  In (Condition.operator c) ["is"; "in"].
Proof.
  intros Hhead. unfold CAPLParser.rules. simpl.
  destruct (CAPLParser.rule_is text) eqn:E1.
  { intros [= <-]. apply rule_is_shape in E1.
    destruct E1 as (_ & -> & _). simpl. tauto. }
  rewrite (or_rule_shadowed text Hhead E1).
  destruct (CAPLParser.rule_user_not_in text) eqn:E2.
  { intros [= <-]. apply rule_user_not_in_shape in E2.
    destruct E2 as (_ & -> & _). simpl. tauto. }
  destruct (CAPLParser.rule_user_in text) eqn:E3.
  { intros [= <-]. apply rule_user_in_shape in E3.
    destruct E3 as (_ & -> & _). simpl. tauto. }
  destruct (CAPLParser.rule_in text) eqn:E4.
  { intros [= <-]. apply rule_in_shape in E4.
    destruct E4 as (_ & -> & _). simpl. tauto. }
  destruct (CAPLParser.rule_not_is "location" text) eqn:E5.
  { intros [= <-]. apply rule_not_is_shape in E5.
    destruct E5 as (_ & -> & _). simpl. tauto. }
  destruct (CAPLParser.rule_not_is "client" text) eqn:E6.
  { intros [= <-]. apply rule_not_is_shape in E6.
    destruct E6 as (_ & -> & _). simpl. tauto. }
  destruct (CAPLParser.rule_risk text) eqn:E8.
  { intros [= <-]. apply rule_risk_shape in E8.
    destruct E8 as (_ & -> & _). simpl. tauto. }
  destruct (CAPLParser.rule_device text) eqn:E9; [|discriminate].
  intros [= <-]. apply rule_device_shape in E9.
  destruct E9 as (_ & -> & _). simpl. tauto.
Qed.

Lemma parse_condition_without_or (vars : Dict.t Var.t) (text : string) :
  Py.lstrip text = text ->
  In (Condition.operator (fst (CAPLParser.parse_condition vars text)))
    ["is"; "in"].
Proof.
  intros Hhead. unfold CAPLParser.parse_condition.
  destruct (CAPLParser.first_match CAPLParser.rules _) as [c|] eqn:E.
  - apply first_match_without_or in E; [exact E|].
    now apply substitute_no_leading_space.
  - simpl. tauto.
Qed.

(** On a condition text with no blank in front, [_parse_condition] never
    gives the operator [is-or]: a text that the [OR] rule would take is
    taken by the first rule, which keeps the first alternative only. *)
Theorem or_rule_never_reached (vars : Dict.t Var.t) (text : string) :
  Py.lstrip text = text ->
  let c := fst (CAPLParser.parse_condition vars text) in
  In (Condition.operator c) ["is"; "in"]
  /\ (CAPLParser.or_rule (CAPLParser.substitute vars text) <> None ->
      CAPLParser.rule_is (CAPLParser.substitute vars text) = Some c).
Proof.
  intros Hhead c. split; [now apply parse_condition_without_or|].
  intros Hor. subst c. unfold CAPLParser.parse_condition.
  pose proof (substitute_no_leading_space vars text Hhead) as Hs.
  destruct (CAPLParser.rule_is (CAPLParser.substitute vars text)) as [c|]
    eqn:E.
  - unfold CAPLParser.rules. simpl. rewrite E. reflexivity.
  - exfalso. apply Hor. now apply or_rule_shadowed.
Qed.

Lemma or_rule_never_reached_witness :
  let text := "platform is iOS OR platform is Android" in
  (Py.lstrip text = text
   /\ CAPLParser.or_rule (CAPLParser.substitute [] text) <> None)
  /\ CAPLParser.rule_is (CAPLParser.substitute [] text)
     = Some (fst (CAPLParser.parse_condition [] text)).
Proof.
  intros text.
  assert (Hhead : Py.lstrip text = text) by reflexivity.
  assert (Hor : CAPLParser.or_rule (CAPLParser.substitute [] text) <> None)
    by (vm_compute; discriminate).
  split; [now split|].
  exact (proj2 (or_rule_never_reached [] text Hhead) Hor).
Defined.

(** ** What every parsed Condition and Action satisfies *)

Lemma current_line_is_stripped (p : CAPLParser.t) :
  exists u, CAPLParser.current_line_stripped p = Py.strip u.
Proof.
  unfold CAPLParser.current_line_stripped. destruct (Nat.leb _ _).
  - now exists EmptyString.
  - eauto.
Qed.

Section ParsedContent.

Variable QC : Condition.t -> Prop.
Variable QA : Action.t -> Prop.

Hypothesis condition_case :
  forall vars u, QC (fst (CAPLParser.parse_condition vars (Py.strip u))).

Hypothesis action_case :
  forall u,
    CAPLParser.is_action_line (Py.strip u) = true ->
    QA (CAPLParser.parse_action (Py.strip u)).

Lemma below_content_mk (c : list Condition.t) (a : list Action.t)
  (st : string) (n : option IfStatement) :
  below_content QC QA (mkBranch c a st n)
  <-> Forall QC c /\ Forall QA a
      /\ match n with
         | Some nested => decision_content QC QA nested
         | None => True
         end.
Proof.
  unfold below_content, decision_content, branches_below, branch_content.
  cbn [nested_if]. split.
  - intros H. inversion H as [|x l [Hc Ha] Hn]; subst. simpl in *.
    split; [exact Hc|]. split; [exact Ha|]. destruct n; [exact Hn | exact I].
  - intros (Hc & Ha & Hn). constructor; [now split|].
    destruct n; [exact Hn | constructor].
Qed.

Lemma decision_content_mk (ib : PolicyBranch) (eibs : list PolicyBranch)
  (eb : option PolicyBranch) :
  decision_content QC QA (mkIf ib eibs eb)
  <-> below_content QC QA ib /\ Forall (below_content QC QA) eibs
      /\ match eb with
         | Some b => below_content QC QA b
         | None => True
         end.
Proof.
  unfold decision_content. rewrite stmt_branches_eq.
  cbn [if_branch else_if_branches else_branch].
  rewrite !Forall_app, Forall_flat_map. unfold below_content.
  destruct eb; [tauto|]. split; [tauto|]. intros (H1 & H2 & _). auto.
Qed.

Lemma below_content_add_condition (b : PolicyBranch) (c : Condition.t) :
  below_content QC QA b -> QC c ->
  below_content QC QA
    (mkBranch (conditions b ++ [c]) (actions b) (state b) (nested_if b)).
Proof.
  destruct b as [cs a st n]. cbn [conditions actions state nested_if].
  rewrite !below_content_mk. intros (Hc & Ha & Hn) Hq.
  split; [|tauto]. apply Forall_app. split; [exact Hc | now constructor].
Qed.

Lemma head_condition_content (p : CAPLParser.t) (n : nat) (line : string)
  (b : PolicyBranch) :
  below_content QC QA b ->
  below_content QC QA (fst (CAPLParser.head_condition p n line b)).
Proof.
  intros Hb. unfold CAPLParser.head_condition.
  destruct (Py.truthy _); [|exact Hb].
  pose proof (condition_case (CAPLParser.variables p) (Py.drop n line))
    as Hq.
  destruct (CAPLParser.parse_condition _ _) as [c msgs]. cbn [fst] in *.
  now apply below_content_add_condition.
Qed.

Lemma branch_head_content (p : CAPLParser.t) (b : PolicyBranch) :
  below_content QC QA b ->
  below_content QC QA (fst (CAPLParser.branch_head p b)).
Proof.
  intros Hb. unfold CAPLParser.branch_head.
  destruct (Py.startswith _ "IF "); [now apply head_condition_content|].
  destruct (Py.startswith _ "ELSE IF "); [now apply head_condition_content|].
  exact Hb.
Qed.

Lemma state_line_content (p : CAPLParser.t) (b : PolicyBranch) :
  below_content QC QA b ->
  below_content QC QA (fst (CAPLParser.state_line p b)).
Proof.
  intros Hb. unfold CAPLParser.state_line.
  destruct (Py.startswith _ _); [|exact Hb]. destruct b as [cs a st n].
  cbn [fst conditions actions nested_if]. rewrite below_content_mk in *.
  exact Hb.
Qed.

Lemma cond_loop_content (n : nat) :
  forall p base b b' p',
    CAPLParser.cond_loop n p base b = Some (b', p') ->
    below_content QC QA b -> below_content QC QA b'.
Proof.
  induction n as [|n IH]; intros p base b b' p' H Hb; simpl in H;
    [discriminate|].
  destruct (Nat.ltb _ _); [|now injection H as <- _].
  destruct (negb _ || _); [now apply IH in H|].
  destruct (_ && _); [now injection H as <- _|].
  destruct (Py.startswith _ "STATE "); [now injection H as <- _|].
  destruct (Py.startswith _ "IF "); [now injection H as <- _|].
  destruct (current_line_is_stripped p) as [u Hu].
  pose proof (condition_case (CAPLParser.variables p) u) as Hq.
  rewrite <- Hu in Hq.
  destruct (CAPLParser.parse_condition _ _) as [c msgs]. cbn [fst] in Hq.
  apply IH in H; [exact H|]. now apply below_content_add_condition.
Qed.

Lemma parser_content (n : nat) :
  (forall p base s p',
      CAPLParser.parse_if_statement n p base = Some (s, p') ->
      decision_content QC QA s)
  /\ (forall p base stmt s p',
         CAPLParser.if_loop n p base stmt = Some (s, p') ->
         decision_content QC QA stmt -> decision_content QC QA s)
  /\ (forall p base b p',
         CAPLParser.parse_branch n p base = Some (b, p') ->
         below_content QC QA b)
  /\ (forall p expected b b' p',
         CAPLParser.parse_branch_body n p expected b = Some (b', p') ->
         below_content QC QA b -> below_content QC QA b')
  /\ (forall p expected b b' p',
         CAPLParser.body_loop n p expected b = Some (b', p') ->
         below_content QC QA b -> below_content QC QA b').
Proof.
  assert (Hnew : below_content QC QA new_branch).
  { unfold new_branch. rewrite below_content_mk. auto. }
  induction n as [|n (IHif & IHloop & IHbranch & IHbody & IHbl)].
  { repeat split; intros; discriminate. }
  split; [|split; [|split; [|split]]].
  - intros p base s p' H. rewrite parse_if_statement_S in H.
    destruct (CAPLParser.parse_branch n p base) as [[b1 p1]|] eqn:E;
      [|discriminate].
    apply IHbranch in E. apply IHloop in H; [exact H|].
    rewrite decision_content_mk. auto.
  - intros p base stmt s p' H Hs. rewrite if_loop_S in H.
    destruct (Nat.ltb _ (length _)); [|now injection H as <- _].
    cbv zeta in H.
    destruct (Nat.ltb _ base); [now injection H as <- _|].
    destruct stmt as [ib eibs eb]. rewrite decision_content_mk in Hs.
    destruct Hs as (Hib & Heibs & Heb).
    cbn [if_branch else_if_branches else_branch] in H.
    destruct (Py.startswith _ "ELSE IF ").
    { destruct (CAPLParser.parse_branch n p base) as [[b1 p1]|] eqn:E;
        [|discriminate].
      apply IHbranch in E. apply IHloop in H; [exact H|].
      rewrite decision_content_mk. split; [exact Hib|]. split; [|exact Heb].
      apply Forall_app. split; [exact Heibs | now constructor]. }
    destruct (String.eqb _ "ELSE").
    { destruct (CAPLParser.parse_branch_body n _ _ _) as [[b1 p1]|] eqn:E;
        [|discriminate].
      apply IHbody in E; [|exact Hnew]. apply IHloop in H; [exact H|].
      rewrite decision_content_mk. auto. }
    assert (Hs : decision_content QC QA (mkIf ib eibs eb))
      by (rewrite decision_content_mk; auto).
    destruct (String.eqb _ "END"); now injection H as <- _.
  - intros p base b p' H. rewrite parse_branch_S in H.
    pose proof (branch_head_content p new_branch Hnew) as Hh.
    destruct (CAPLParser.branch_head p new_branch) as [b0 p0].
    cbn [fst] in Hh.
    destruct (CAPLParser.cond_loop n p0 base b0) as [[b1 p1]|] eqn:Ec;
      [|discriminate].
    apply cond_loop_content in Ec; [|exact Hh].
    now apply IHbody in H.
  - intros p expected b b' p' H Hb. rewrite parse_branch_body_S in H.
    pose proof (state_line_content p b Hb) as Hs.
    destruct (CAPLParser.state_line p b) as [b0 p0]. cbn [fst] in Hs.
    now apply IHbl in H.
  - intros p expected b b' p' H Hb. rewrite body_loop_S in H.
    destruct (Nat.ltb _ (length _)); [|now injection H as <- _].
    cbv zeta in H.
    destruct (negb _ || _); [now apply IHbl in H|].
    destruct (Nat.ltb _ (expected - 4)); [now injection H as <- _|].
    destruct (Py.mem _ _); [now injection H as <- _|].
    destruct b as [cs a st nested]. rewrite below_content_mk in Hb.
    destruct Hb as (Hc & Ha & Hn).
    cbn [conditions actions state nested_if] in H.
    destruct (Py.startswith _ "IF ").
    { destruct (CAPLParser.parse_if_statement n p _) as [[s1 p1]|] eqn:E;
        [|discriminate].
      apply IHif in E. apply IHbl in H; [exact H|].
      rewrite below_content_mk. auto. }
    destruct (CAPLParser.is_action_line _) eqn:Hact.
    + apply IHbl in H; [exact H|]. rewrite below_content_mk.
      split; [exact Hc|]. split; [|exact Hn].
      apply Forall_app. split; [exact Ha|]. constructor; [|constructor].
      destruct (current_line_is_stripped p) as [u Hu].
      rewrite Hu in Hact |- *. now apply action_case.
    + apply IHbl in H; [exact H|]. rewrite below_content_mk. auto.
Qed.

Lemma file_loop_content (n : nat) :
  forall p statements r p',
    CAPLParser.file_loop n p statements = Some (r, p') ->
    Forall (decision_content QC QA) statements ->
    Forall (decision_content QC QA) r.
Proof.
  induction n as [|n IH]; intros p statements r p' H Hs; [discriminate|].
  simpl in H.
  destruct (Nat.ltb _ _); [|now injection H as <- _].
  destruct (negb _ || _); [now apply IH in H|].
  destruct (Py.startswith _ "VAR "); [now apply IH in H|].
  destruct (Py.startswith _ "IF "); [|now apply IH in H].
  destruct (CAPLParser.parse_if_statement n p 0) as [[s1 p1]|] eqn:E;
    [|discriminate].
  destruct (parser_content n) as (Cif & _). apply Cif in E.
  apply IH in H; [exact H|].
  apply Forall_app. split; [exact Hs | now constructor].
Qed.

Lemma parse_file_content (self : CAPLParser.t) (name content : string)
  (statements : list IfStatement) (self' : CAPLParser.t) :
  CAPLParser.parse_file self name content = Some (statements, self') ->
  Forall (decision_content QC QA) statements.
Proof.
  unfold CAPLParser.parse_file. intros H.
  apply file_loop_content in H; [exact H | constructor].
Qed.

(** The conditions of a path are conditions of the branches it went
    through. *)
Lemma extract_content (s : IfStatement) :
  decision_content QC QA s ->
  forall parent,
    Forall QC parent ->
    Forall (fun p => Forall QC (PolicyPath.conditions p)
                     /\ Forall QA (PolicyPath.actions p))
      (PathExtractor.extract_paths_from_statement s parent).
Proof.
  apply (decision_ind
           (fun s =>
              decision_content QC QA s ->
              forall parent,
                Forall QC parent ->
                Forall (fun p => Forall QC (PolicyPath.conditions p)
                                 /\ Forall QA (PolicyPath.actions p))
                  (PathExtractor.extract_paths_from_statement s parent))
           (fun b =>
              below_content QC QA b ->
              forall parent,
                Forall QC parent ->
                Forall (fun p => Forall QC (PolicyPath.conditions p)
                                 /\ Forall QA (PolicyPath.actions p))
                  (paths_of_branch parent b))).
  - intros c a st n H Hb parent Hp. rewrite paths_of_branch_eq.
    rewrite below_content_mk in Hb. destruct Hb as (Hc & Ha & Hn).
    assert (Hpc : Forall QC (parent ++ c))
      by (apply Forall_app; now split).
    destruct n as [nested|].
    + now apply H.
    + constructor; [|constructor]. simpl. now split.
  - intros ib eibs eb Hib Heibs Heb Hs parent Hp.
    rewrite decision_content_mk in Hs. destruct Hs as (Hsi & Hse & Hsb).
    rewrite extract_paths_from_statement_eq.
    cbn [if_branch else_if_branches else_branch].
    apply Forall_app. split; [now apply Hib|].
    apply Forall_app. split.
    + apply Forall_flat_map. apply Forall_forall. intros b Hin.
      rewrite Forall_forall in Heibs, Hse.
      exact (Heibs b Hin (Hse b Hin) parent Hp).
    + destruct eb as [b|]; [now apply Heb | constructor].
Qed.

Lemma extract_paths_content (statements : list IfStatement) :
  Forall (decision_content QC QA) statements ->
  Forall (fun p => Forall QC (PolicyPath.conditions p)
                   /\ Forall QA (PolicyPath.actions p))
    (PathExtractor.extract_paths statements).
Proof.
  unfold PathExtractor.extract_paths. intros H.
  apply Forall_flat_map. eapply Forall_impl; [|exact H].
  intros s Hs. apply extract_content; [exact Hs | constructor].
Qed.

End ParsedContent.

(** ** The Conditions and Actions of a parsed file *)

Lemma prefix_drop (pre s : string) :
  String.prefix pre s = true -> s = pre ^^ Py.drop (String.length pre) s.
Proof.
  revert s. induction pre as [|a pre IH]; intros s H; [reflexivity|].
  destruct s as [|b s]; [discriminate|]. simpl in H |- *.
  destruct (ascii_dec a b) as [->|]; [|discriminate].
  f_equal. now apply IH.
Qed.

Lemma last_char (s : string) :
  s <> EmptyString -> exists t c, s = t ^^ String c EmptyString.
Proof.
  induction s as [|a s IH]; [congruence|]. intros _.
  destruct s as [|b s].
  - now exists EmptyString, a.
  - destruct IH as (t & c & E); [discriminate|].
    exists (String a t), c. simpl. now rewrite <- E.
Qed.

Lemma rstrip_nonspace_last (t : string) (c : ascii) :
  Py.is_space c = false ->
  Py.rstrip (t ^^ String c EmptyString) = t ^^ String c EmptyString.
Proof.
  intros Hc. induction t as [|a t IH]; simpl.
  - now rewrite Hc.
  - rewrite IH. destruct t; reflexivity.
Qed.

Lemma lstrip_nonspace_last (t : string) (c : ascii) :
  Py.is_space c = false ->
  exists t', Py.lstrip (t ^^ String c EmptyString) = t' ^^ String c EmptyString.
Proof.
  intros Hc. induction t as [|a t IH]; simpl.
  - rewrite Hc. now exists EmptyString.
  - destruct (Py.is_space a); [exact IH|]. now exists (String a t).
Qed.

(** What follows a keyword and a blank on a stripped line is not blank. *)
Lemma stripped_tail (u pre : string) :
  String.prefix (pre ^^ " ") (Py.strip u) = true ->
  Py.strip (Py.drop (String.length (pre ^^ " ")) (Py.strip u))
  <> EmptyString.
Proof.
  intros H. apply prefix_drop in H.
  set (r := Py.drop _ _) in *.
  destruct r as [|x r'] eqn:Er.
  - exfalso. rewrite append_nil_r in H. unfold Py.strip in H.
    apply rstrip_last in H. discriminate H.
  - destruct (last_char (String x r')) as (t & c & Et); [discriminate|].
    rewrite Et in H |- *. rewrite <- append_assoc in H.
    unfold Py.strip in H. apply rstrip_last in H.
    unfold Py.strip at 1.
    destruct (lstrip_nonspace_last t c H) as [t' ->].
    rewrite rstrip_nonspace_last by exact H.
    destruct t'; discriminate.
Qed.

Lemma split_aux_two (sep s : string) :
  sep <> EmptyString ->
  forall cur,
    Py.contains sep s = true ->
    exists a b l, Py.split_aux sep s 0 cur = a :: b :: l.
Proof.
  intros Hsep. induction s as [|c s IH]; intros cur H.
  - destruct sep; [congruence | discriminate].
  - cbn [Py.contains] in H. cbn [Py.split_aux].
    destruct (String.prefix sep (String c s)).
    + destruct (Py.split_aux sep s (String.length sep - 1) EmptyString)
        as [|b l] eqn:E; [now apply split_aux_nonempty in E|]. eauto.
    + now apply IH.
Qed.

Lemma parse_action_shape (u : string) :
  CAPLParser.is_action_line (Py.strip u) = true ->
  parsed_action (CAPLParser.parse_action (Py.strip u)).
Proof.
  intros Hact. unfold CAPLParser.parse_action, parsed_action.
  destruct (Py.startswith (Py.strip u) "REQUIRE ") eqn:Hreq.
  { pose proof (stripped_tail u "REQUIRE" Hreq) as Hne.
    change (String.length ("REQUIRE" ^^ " ")) with 8 in Hne.
    destruct (Py.contains " OR " _) eqn:Hor; cbn [Action.value Action.type].
    - split; [|now left].
      destruct (split_aux_two " OR " _ ltac:(discriminate) EmptyString Hor)
        as (a & b & l & E).
      unfold Py.split. rewrite E. unfold Py.join. cbn [String.concat].
      destruct a; discriminate.
    - split; [exact Hne | now left]. }
  destruct (String.eqb (Py.strip u) "BLOCK") eqn:Hb.
  { simpl. tauto. }
  destruct (String.eqb (Py.strip u) "ALLOW") eqn:Ha.
  { simpl. tauto. }
  destruct (Py.startswith (Py.strip u) "SESSION ") eqn:Hses.
  { pose proof (stripped_tail u "SESSION" Hses) as Hne.
    change (String.length ("SESSION" ^^ " ")) with 8 in Hne.
    cbn [Action.value Action.type Action.is_or]. split; [exact Hne|].
    right. left. now split. }
  cbn [Action.value Action.type Action.is_or].
  unfold CAPLParser.is_action_line in Hact. rewrite Hreq, Hses in Hact.
  rewrite orb_false_r in Hact. cbn [orb] in Hact.
  apply orb_true_iff in Hact. split.
  - intros E. rewrite E in Hact. destruct Hact; discriminate.
  - right. right. auto.
Qed.

(** Whatever the file, no Condition of a Decision that [parse_file]
    returns, at any depth, and no Condition of a path extracted from
    these Decisions, has the operator [is-or]: the parser calls
    [_parse_condition] on stripped text only, where the first rule takes
    what the [OR] rule would. *)
Theorem parsed_files_never_use_is_or (self : CAPLParser.t)
  (name content : string) (statements : list IfStatement)
  (self' : CAPLParser.t) :
  CAPLParser.parse_file self name content = Some (statements, self') ->
  (forall s b c,
      In s statements -> In b (stmt_branches s) -> In c (conditions b) ->
      In (Condition.operator c) ["is"; "in"])
  /\ (forall p c,
         In p (PathExtractor.extract_paths statements) ->
         In c (PolicyPath.conditions p) ->
         In (Condition.operator c) ["is"; "in"]).
Proof.
  intros H.
  pose (QC := fun c : Condition.t => In (Condition.operator c) ["is"; "in"]).
  pose (QA := fun _ : Action.t => True).
  assert (HC : forall vars u,
             QC (fst (CAPLParser.parse_condition vars (Py.strip u)))).
  { intros vars u. apply parse_condition_without_or.
    apply strip_no_leading_space. }
  assert (HA : forall u,
             CAPLParser.is_action_line (Py.strip u) = true ->
             QA (CAPLParser.parse_action (Py.strip u))).
  { intros u _. exact I. }
  pose proof (parse_file_content QC QA HC HA _ _ _ _ _ H) as Hs.
  split.
  - intros s b c Hin Hb Hc. rewrite Forall_forall in Hs.
    specialize (Hs s Hin). unfold decision_content in Hs.
    rewrite Forall_forall in Hs. destruct (Hs b Hb) as [Hcs _].
    rewrite Forall_forall in Hcs. now apply Hcs.
  - intros p c Hp Hc.
    pose proof (extract_paths_content QC QA statements Hs) as Hps.
    rewrite Forall_forall in Hps. destruct (Hps p Hp) as [Hcs _].
    rewrite Forall_forall in Hcs. now apply Hcs.
Qed.

Lemma parsed_files_never_use_is_or_witness :
  let content :=
    unlines ["IF platform is iOS OR platform is Android";
             "    STATE enabled"; "        BLOCK"; "END"] in
  exists statements self',
    CAPLParser.parse_file CAPLParser.init "p.capl" content
    = Some (statements, self')
    /\ forall p c,
        In p (PathExtractor.extract_paths statements) ->
        In c (PolicyPath.conditions p) ->
        In (Condition.operator c) ["is"; "in"].
Proof.
  intros content.
  destruct (CAPLParser.parse_file CAPLParser.init "p.capl" content)
    as [[statements self']|] eqn:H; [|vm_compute in H; discriminate H].
  exists statements, self'. split; [reflexivity|].
  exact (proj2 (parsed_files_never_use_is_or CAPLParser.init "p.capl"
                  content statements self' H)).
Defined.

(** Whatever the file, every Action of a Decision that [parse_file]
    returns, at any depth, and of a path extracted from these Decisions,
    is a requirement or a session setting with a non-empty value, a bare
    [BLOCK] or [ALLOW], or an [UNKNOWN] action holding a line that starts
    with [BLOCK] or [ALLOW]. *)
Theorem parsed_files_action_shapes (self : CAPLParser.t)
  (name content : string) (statements : list IfStatement)
  (self' : CAPLParser.t) :
  CAPLParser.parse_file self name content = Some (statements, self') ->
  (forall s b a,
      In s statements -> In b (stmt_branches s) -> In a (actions b) ->
      parsed_action a)
  /\ (forall p a,
         In p (PathExtractor.extract_paths statements) ->
         In a (PolicyPath.actions p) -> parsed_action a).
Proof.
  intros H.
  pose (QC := fun _ : Condition.t => True).
  assert (HC : forall vars u,
             QC (fst (CAPLParser.parse_condition vars (Py.strip u)))).
  { intros vars u. exact I. }
  pose proof (parse_file_content QC parsed_action HC parse_action_shape
                _ _ _ _ _ H) as Hs.
  split.
  - intros s b a Hin Hb Ha. rewrite Forall_forall in Hs.
    specialize (Hs s Hin). unfold decision_content in Hs.
    rewrite Forall_forall in Hs. destruct (Hs b Hb) as [_ Has].
    rewrite Forall_forall in Has. now apply Has.
  - intros p a Hp Ha.
    pose proof (extract_paths_content QC parsed_action statements Hs) as Hps.
    rewrite Forall_forall in Hps. destruct (Hps p Hp) as [_ Has].
    rewrite Forall_forall in Has. now apply Has.
Qed.

Lemma parsed_files_action_shapes_witness :
  let content :=
    unlines ["IF user is All"; "    STATE enabled";
             "        REQUIRE MFA OR CompliantDevice";
             "        BLOCKED"; "END"] in
  exists statements self',
    CAPLParser.parse_file CAPLParser.init "p.capl" content
    = Some (statements, self')
    /\ forall p a,
        In p (PathExtractor.extract_paths statements) ->
        In a (PolicyPath.actions p) -> parsed_action a.
Proof.
  intros content.
  destruct (CAPLParser.parse_file CAPLParser.init "p.capl" content)
    as [[statements self']|] eqn:H; [|vm_compute in H; discriminate H].
  exists statements, self'. split; [reflexivity|].
  exact (proj2 (parsed_files_action_shapes CAPLParser.init "p.capl"
                  content statements self' H)).
Defined.

(** ** Declaring a variable *)

Lemma matches_of_pieces (ci : bool) (p : list Re.tok) (ms : list string)
  (rest : string) :
  Forall2 (tok_matches ci) p ms -> matches ci p (concat_pieces ms ^^ rest).
Proof.
  induction 1 as [|t m p ms Ht _ IH]; [exact I|].
  exists m, (concat_pieces ms ^^ rest). cbn [concat_pieces].
  rewrite append_assoc. auto.
Qed.

(** On a pattern that ends in a literal and on which the greedy match
    loses nothing, the groups of the match are the pieces of the
    capturing tokens. *)
Lemma re_match_groups (ci : bool) (p : list Re.tok) :
  forall ms rest,
    greedy_ok ci p = true -> ends_in_literal p = true ->
    Forall2 (tok_matches ci) p ms ->
    Re.re_match ci p (concat_pieces ms ^^ rest) = Some (captured p ms).
Proof.
  induction p as [|t p IH]; intros ms rest Hok Hend Hms; [discriminate|].
  inversion Hms as [|t0 m p0 ms' Ht Hms']; subst.
  cbn [concat_pieces]. rewrite append_assoc.
  pose proof (matches_of_pieces ci p ms' rest Hms') as Hp.
  assert (Htail : p <> [] ->
                  Re.re_match ci p (concat_pieces ms' ^^ rest)
                  = Some (captured p ms')).
  { intros Hne. apply IH; [| |exact Hms'].
    - destruct t; cbn [greedy_ok] in Hok; apply andb_true_iff in Hok
      || idtac; tauto.
    - destruct t; destruct p; try congruence; exact Hend. }
  destruct t as [l|cap alts|cap k|k];
    cbn [greedy_ok] in Hok; cbn [tok_matches] in Ht; cbn [Re.re_match];
    cbn [captured captures].
  - rewrite (lit_match_complete ci l m _ Ht).
    destruct p as [|t' p']; [|apply Htail; discriminate].
    inversion Hms'. reflexivity.
  - destruct p as [|t' p']; [discriminate|].
    apply andb_true_iff in Hok. destruct Hok as [Hex _].
    cbn [is_nil orb] in Hex. destruct Ht as [a [Ha Hl]].
    rewrite (alt_match_exact ci alts a m _ Hex Ha Hl).
    rewrite Htail by discriminate. reflexivity.
  - destruct p as [|t' p']; [discriminate|].
    apply andb_true_iff in Hok. destruct Hok as [Hout _].
    cbn [is_nil orb] in Hout. destruct Ht as [Hne Hall].
    rewrite (span_exact ci k _ m _ Hall Hout Hp).
    apply truthy_iff in Hne. rewrite Hne.
    rewrite Htail by discriminate. reflexivity.
  - destruct p as [|t' p']; [discriminate|].
    apply andb_true_iff in Hok. destruct Hok as [Hout _].
    cbn [is_nil orb] in Hout.
    rewrite (span_exact ci k _ m _ Ht Hout Hp).
    apply Htail. discriminate.
Qed.

Lemma lit_eq_refl (ci : bool) (l : string) : lit_eq ci l l = true.
Proof.
  induction l as [|a l IH]; [reflexivity|]. simpl. rewrite IH.
  unfold Re.char_eq. destruct ci; now rewrite Ascii.eqb_refl.
Qed.

Lemma name_guid_pieces (ci : bool) (d w g : string) :
  quotable d -> blanks w -> bracketable g ->
  Forall2 (tok_matches ci) CAPLParser.re_name_guid
    [dquote; d; dquote; w; "["; g; "]"].
Proof.
  intros Hd Hw Hg. unfold CAPLParser.re_name_guid.
  repeat constructor; try apply lit_eq_refl;
    first [apply Hd | apply Hw | apply Hg].
Qed.

Lemma re_var_groups (line name d g : string) :
  word name -> quotable d -> bracketable g ->
  declaration_line name d g line ->
  Re.re_match false CAPLParser.re_var line = Some [name; d; g].
Proof.
  intros Hn Hd Hg (w1 & w2 & w3 & w4 & rest & H1 & H2 & H3 & H4 & ->).
  pose proof (re_match_groups false CAPLParser.re_var
                ["VAR"; w1; name; w2; "="; w3; dquote; d; dquote; w4; "[";
                 g; "]"] rest) as H.
  cbn [concat_pieces] in H. rewrite !append_assoc in H.
  cbn [String.append] in H |- *.
  rewrite H; [reflexivity | reflexivity | reflexivity |].
  unfold CAPLParser.re_var. cbn [app].
  constructor; [apply lit_eq_refl|].
  constructor; [exact H1|].
  constructor; [exact Hn|].
  constructor; [exact H2|].
  constructor; [apply lit_eq_refl|].
  constructor; [exact H3|].
  now apply name_guid_pieces.
Qed.

(** A line that declares a name, in any spacing that the pattern of
    [_parse_variable] allows, enters the name in the variable table with
    its display name and identifier, whether or not the name was declared
    before; every other name keeps its entry, and the line is consumed. *)
Theorem variable_declaration_recorded (p : CAPLParser.t)
  (name d g : string) :
  word name -> quotable d -> bracketable g ->
  declaration_line name d g (CAPLParser.current_line_stripped p) ->
  let p' := CAPLParser.parse_variable p in
  Dict.get (CAPLParser.variables p') name = Some (Var.mk name d g)
  /\ (forall k,
         k <> name ->
         Dict.get (CAPLParser.variables p') k
         = Dict.get (CAPLParser.variables p) k)
  /\ CAPLParser.line_number p' = CAPLParser.line_number p + 1
  /\ CAPLParser.lines p' = CAPLParser.lines p.
Proof.
  intros Hn Hd Hg Hline p'. subst p'. unfold CAPLParser.parse_variable.
  rewrite (re_var_groups _ name d g Hn Hd Hg Hline).
  cbn [CAPLParser.group Nat.sub nth CAPLParser.advance CAPLParser.variables
       CAPLParser.line_number CAPLParser.lines].
  split; [apply dict_get_set_same|]. split; [|now split].
  intros k Hk. apply dict_get_set_other. congruence.
Qed.

Lemma variable_declaration_recorded_witness :
  let line :=
    "VAR BreakGlass  =" ^^ dquote ^^ "Emergency Access" ^^ dquote
    ^^ "[0000-1111] # kept" in
  let p := CAPLParser.mk [] 0 [line] [] in
  (word "BreakGlass" /\ quotable "Emergency Access"
   /\ bracketable "0000-1111"
   /\ declaration_line "BreakGlass" "Emergency Access" "0000-1111"
        (CAPLParser.current_line_stripped p))
  /\ Dict.get (CAPLParser.variables (CAPLParser.parse_variable p))
       "BreakGlass"
     = Some (Var.mk "BreakGlass" "Emergency Access" "0000-1111").
Proof.
  intros line p.
  assert (Hn : word "BreakGlass") by (split; [discriminate | reflexivity]).
  assert (Hd : quotable "Emergency Access")
    by (split; [discriminate | reflexivity]).
  assert (Hg : bracketable "0000-1111")
    by (split; [discriminate | reflexivity]).
  assert (Hl : declaration_line "BreakGlass" "Emergency Access" "0000-1111"
                 (CAPLParser.current_line_stripped p)).
  { exists " ", "  ", EmptyString, EmptyString, " # kept".
    split; [split; [discriminate | reflexivity]|].
    repeat (split; [reflexivity|]). reflexivity. }
  split; [tauto|].
  exact (proj1 (variable_declaration_recorded p "BreakGlass"
                  "Emergency Access" "0000-1111" Hn Hd Hg Hl)).
Defined.

(** ** Referring to a variable *)

Lemma prefix_refl (s : string) : String.prefix s s = true.
Proof.
  induction s as [|a s IH]; [reflexivity|]. simpl.
  destruct (ascii_dec a a); [exact IH | contradiction].
Qed.

Lemma replace_aux_skip (old new s : string) :
  Py.replace_aux old new s (String.length s) = EmptyString.
Proof. induction s as [|c s IH]; [reflexivity | exact IH]. Qed.

(** A name that starts with a capital letter occurs once in a text that
    has no capital letter before it and ends with it. *)
Lemma replace_after_lower (name new pre : string) :
  starts_upper name -> no_upper pre = true ->
  Py.contains name (pre ^^ name) = true
  /\ Py.replace (pre ^^ name) name new = pre ^^ new.
Proof.
  intros Hup. destruct name as [|a name]; [destruct Hup|]. simpl in Hup.
  unfold Py.replace. induction pre as [|c pre IH]; intros Hpre.
  - cbn [String.append Py.contains Py.replace_aux].
    rewrite prefix_refl. split; [reflexivity|].
    cbn [String.length Nat.sub]. rewrite Nat.sub_0_r, replace_aux_skip.
    now rewrite append_nil_r.
  - simpl in Hpre. apply andb_true_iff in Hpre. destruct Hpre as [Hc Hpre].
    cbn [String.append Py.contains Py.replace_aux String.prefix].
    destruct (ascii_dec a c) as [->|_].
    { rewrite Hup in Hc. discriminate Hc. }
    destruct (IH Hpre) as [H1 H2]. split; [exact H1|]. now rewrite H2.
Qed.

Lemma keys_in {V : Type} (d : Dict.t V) (k : string) (v : V) :
  In (k, v) d -> In k (Dict.keys d).
Proof. intros H. unfold Dict.keys. now apply (in_map fst) in H. Qed.

(** One declared name occurs in the text and no other does, before or
    after the replacement: the substitution is that one replacement. *)
Lemma substitute_one (name : string) (v : Var.t) (text : string) :
  forall vars,
    NoDup (Dict.keys vars) -> Dict.get vars name = Some v ->
    Py.contains name text = true ->
    no_other_name vars name text ->
    no_other_name vars name (Py.replace text name (replacement v)) ->
    CAPLParser.substitute vars text
    = Py.replace text name (replacement v).
Proof.
  unfold CAPLParser.substitute.
  induction vars as [|[k v0] vars IH]; intros Hnd Hget Hin H1 H2;
    [discriminate|].
  inversion Hnd as [|? ? Hk Hnd']; subst. cbn [fold_left].
  simpl in Hget. destruct (String.eqb_spec k name) as [->|Hne].
  - injection Hget as ->. rewrite Hin.
    apply (substitute_without_names vars). intros k v' Hkv.
    apply H2.
    + right. now apply keys_in with v'.
    + intros ->. apply Hk. now apply keys_in with v'.
  - rewrite (H1 k) by (auto; now left).
    apply IH; [exact Hnd' | exact Hget | exact Hin | |].
    + intros k' Hk' Hk'n. apply H1; [now right | exact Hk'n].
    + intros k' Hk' Hk'n. apply H2; [now right | exact Hk'n].
Qed.

Lemma re_user_in_groups (kind d g : string) :
  In kind ["group"; "role"] -> quotable d -> bracketable g ->
  Re.re_match true CAPLParser.re_user_in
    ("user in " ^^ kind ^^ " " ^^ dquote ^^ d ^^ dquote ^^ " [" ^^ g ^^ "]")
  = Some ["user"; kind; d; g].
Proof.
  intros Hk Hd Hg.
  pose proof (re_match_groups true CAPLParser.re_user_in
                ["user"; " "; "in"; " "; kind; " "; dquote; d; dquote; " ";
                 "["; g; "]"] EmptyString) as H.
  cbn [concat_pieces] in H. rewrite !append_nil_r in H.
  assert (E : forall x, "user in " ^^ kind ^^ " " ^^ x
                        = "user" ^^ " " ^^ "in" ^^ " " ^^ kind ^^ " " ^^ x)
    by reflexivity.
  rewrite E.
  assert (E2 : dquote ^^ d ^^ dquote ^^ " [" ^^ g ^^ "]"
               = dquote ^^ d ^^ dquote ^^ " " ^^ "[" ^^ g ^^ "]")
    by reflexivity.
  rewrite E2, H; [reflexivity | reflexivity | reflexivity |].
  unfold CAPLParser.re_user_in. cbn [app].
  assert (Hsp : tok_matches true (Re.Plus false Re.CSpace) " ")
    by (split; [discriminate | reflexivity]).
  constructor; [exists "user"; split; [now left | reflexivity]|].
  constructor; [exact Hsp|].
  constructor; [reflexivity|].
  constructor; [exact Hsp|].
  constructor; [exists kind; split; [exact Hk | apply lit_eq_refl]|].
  constructor; [exact Hsp|].
  apply name_guid_pieces; [exact Hd | reflexivity | exact Hg].
Qed.

(** A declared name that starts with a capital letter, used as the group
    or role of a membership condition, resolves to the declared display
    name and identifier, provided no other declared name occurs in the
    text before or after the replacement. *)
Theorem declared_name_resolves (vars : Dict.t Var.t) (kind name : string)
  (v : Var.t) :
  let text := "user in " ^^ kind ^^ " " ^^ name in
  let text' := "user in " ^^ kind ^^ " " ^^ replacement v in
  In kind ["group"; "role"] ->
  NoDup (Dict.keys vars) -> Dict.get vars name = Some v ->
  starts_upper name ->
  quotable (Var.display_name v) -> bracketable (Var.guid v) ->
  no_other_name vars name text -> no_other_name vars name text' ->
  CAPLParser.substitute vars text = text'
  /\ CAPLParser.parse_condition vars text
     = (Condition.mk ("user-" ^^ kind) "in" (Var.display_name v)
          (Some (Var.guid v)) false, []).
Proof.
  intros text text' Hkind Hnd Hget Hup Hd Hg H1 H2.
  assert (Hpre : no_upper ("user in " ^^ kind ^^ " ") = true)
    by (destruct Hkind as [<-|[<-|[]]]; reflexivity).
  destruct (replace_after_lower name (replacement v)
              ("user in " ^^ kind ^^ " ") Hup Hpre) as [Hin Hrep].
  assert (Et : text = ("user in " ^^ kind ^^ " ") ^^ name)
    by (subst text; now rewrite !append_assoc).
  assert (Et' : text' = ("user in " ^^ kind ^^ " ") ^^ replacement v)
    by (subst text'; now rewrite !append_assoc).
  rewrite <- Et in Hin, Hrep. rewrite <- Et' in Hrep.
  assert (Hsub : CAPLParser.substitute vars text = text').
  { rewrite <- Hrep.
    apply substitute_one; [exact Hnd | exact Hget | exact Hin | exact H1 |].
    now rewrite Hrep. }
  split; [exact Hsub|].
  unfold CAPLParser.parse_condition. rewrite Hsub.
  pose proof (re_user_in_groups kind _ _ Hkind Hd Hg) as Hre.
  fold (replacement v) in Hre. fold text' in Hre.
  assert (Hr1 : CAPLParser.rule_is text' = None)
    by (subst text'; destruct Hkind as [<-|[<-|[]]]; reflexivity).
  assert (Hr2 : CAPLParser.rule_user_not_in text' = None)
    by (subst text'; destruct Hkind as [<-|[<-|[]]]; reflexivity).
  unfold CAPLParser.rules. cbn [CAPLParser.first_match].
  rewrite Hr1, Hr2. unfold CAPLParser.rule_user_in. rewrite Hre.
  cbn [CAPLParser.group Nat.sub nth].
  destruct Hkind as [<-|[<-|[]]]; reflexivity.
Qed.

Lemma declared_name_resolves_witness :
  let v := Var.mk "Admins" "Global Admins" "id-1" in
  let vars := [("Admins", v); ("Guests", Var.mk "Guests" "All Guests" "id-2")] in
  (In "group" ["group"; "role"]
   /\ NoDup (Dict.keys vars) /\ Dict.get vars "Admins" = Some v
   /\ starts_upper "Admins"
   /\ quotable (Var.display_name v) /\ bracketable (Var.guid v)
   /\ no_other_name vars "Admins" ("user in " ^^ "group" ^^ " " ^^ "Admins")
   /\ no_other_name vars "Admins"
        ("user in " ^^ "group" ^^ " " ^^ replacement v))
  /\ CAPLParser.parse_condition vars "user in group Admins"
     = (Condition.mk "user-group" "in" "Global Admins" (Some "id-1") false,
        []).
Proof.
  intros v vars.
  assert (Hk : In "group" ["group"; "role"]) by now left.
  assert (Hnd : NoDup (Dict.keys vars)).
  { repeat constructor; simpl; intuition discriminate. }
  assert (Hget : Dict.get vars "Admins" = Some v) by reflexivity.
  assert (Hup : starts_upper "Admins") by reflexivity.
  assert (Hd : quotable (Var.display_name v))
    by (split; [discriminate | reflexivity]).
  assert (Hg : bracketable (Var.guid v))
    by (split; [discriminate | reflexivity]).
  assert (H1 : no_other_name vars "Admins"
                 ("user in " ^^ "group" ^^ " " ^^ "Admins")).
  { intros k [<-|[<-|[]]] Hne; [exfalso; now apply Hne | reflexivity]. }
  assert (H2 : no_other_name vars "Admins"
                 ("user in " ^^ "group" ^^ " " ^^ replacement v)).
  { intros k [<-|[<-|[]]] Hne; [exfalso; now apply Hne | reflexivity]. }
  split; [tauto|].
  exact (proj2 (declared_name_resolves vars "group" "Admins" v Hk Hnd Hget
                  Hup Hd Hg H1 H2)).
Defined.

(** ** The alternatives of a requirement, from the line to the controls *)

Lemma rev_acc_rev_acc (s acc : string) :
  Py.rev_acc (Py.rev_acc s acc) EmptyString
  = Py.rev_acc acc EmptyString ^^ s.
Proof.
  revert acc. induction s as [|c s IH]; intros acc; simpl.
  - now rewrite append_nil_r.
  - rewrite IH. cbn [Py.rev_acc]. rewrite rev_acc_app, append_assoc.
    reflexivity.
Qed.

Lemma all_class_app (k : Re.cclass) (a b : string) :
  all_class k (a ^^ b) = all_class k a && all_class k b.
Proof.
  induction a as [|c a IH]; [reflexivity|]. simpl.
  now rewrite IH, andb_assoc.
Qed.

Lemma all_class_rev_acc (k : Re.cclass) (s acc : string) :
  all_class k (Py.rev_acc s acc) = all_class k s && all_class k acc.
Proof.
  revert acc. induction s as [|c s IH]; intros acc; [reflexivity|].
  simpl. rewrite IH. simpl.
  destruct (Re.in_class k c), (all_class k s); reflexivity.
Qed.

(** The pieces of a split hold only characters of the text. *)
Lemma split_aux_class (k : Re.cclass) (sep s : string) :
  forall skip cur,
    all_class k s = true -> all_class k cur = true ->
    Forall (fun x => all_class k x = true) (Py.split_aux sep s skip cur).
Proof.
  induction s as [|c s IH]; intros skip cur Hs Hcur; cbn [Py.split_aux].
  - constructor; [|constructor]. now rewrite all_class_rev_acc, Hcur.
  - simpl in Hs. apply andb_true_iff in Hs. destruct Hs as [Hc Hs].
    destruct skip; [|now apply IH].
    destruct (String.prefix sep (String c s)).
    + constructor; [now rewrite all_class_rev_acc, Hcur|].
      now apply IH.
    + apply IH; [exact Hs|]. simpl. now rewrite Hc.
Qed.

(** A text without the separator is its own single piece. *)
Lemma split_aux_without (sep s : string) :
  forall cur,
    Py.contains sep s = false ->
    Py.split_aux sep s 0 cur = [Py.rev_acc cur EmptyString ^^ s].
Proof.
  induction s as [|c s IH]; intros cur H; cbn [Py.split_aux].
  - now rewrite append_nil_r.
  - cbn [Py.contains] in H.
    destruct (String.prefix sep (String c s)); [discriminate|].
    rewrite IH by exact H. cbn [Py.rev_acc].
    rewrite rev_acc_app, append_assoc. reflexivity.
Qed.

Lemma split_pipe_piece (x s : string) :
  forall cur,
    no_pipe x ->
    Py.split_aux "|" (x ^^ s) 0 cur = Py.split_aux "|" s 0 (Py.rev_acc x cur).
Proof.
  unfold no_pipe. induction x as [|c x IH]; intros cur H; [reflexivity|].
  simpl in H. apply andb_true_iff in H. destruct H as [Hc Hx].
  cbn [String.append Py.split_aux String.prefix].
  destruct (ascii_dec "|" c) as [<-|_]; [discriminate Hc|].
  rewrite IH by exact Hx. reflexivity.
Qed.

Lemma split_pipe_sep (s cur : string) :
  Py.split_aux "|" ("|" ^^ s) 0 cur
  = Py.rev_acc cur EmptyString :: Py.split_aux "|" s 0 EmptyString.
Proof.
  cbn [String.append Py.split_aux String.prefix].
  destruct (ascii_dec "|" "|") as [_|Hne]; [|contradiction].
  destruct s; reflexivity.
Qed.

Lemma concat_cons (sep x y : string) (l : list string) :
  String.concat sep (x :: y :: l) = x ^^ sep ^^ String.concat sep (y :: l).
Proof. reflexivity. Qed.

(** Joining with the pipe and splitting at it gives the pieces back,
    when no piece holds a pipe. *)
Lemma split_join_pipe (x : string) (l : list string) :
  Forall no_pipe (x :: l) ->
  Py.split (Py.join "|" (x :: l)) "|" = x :: l.
Proof.
  unfold Py.split, Py.join. revert x.
  induction l as [|y l IH]; intros x H;
    inversion H as [|? ? Hx Hl]; subst.
  - cbn [String.concat].
    rewrite <- (append_nil_r x) at 1. rewrite split_pipe_piece by exact Hx.
    cbn [Py.split_aux]. now rewrite rev_acc_rev_acc.
  - rewrite concat_cons, split_pipe_piece by exact Hx.
    rewrite split_pipe_sep, rev_acc_rev_acc. cbn [Py.rev_acc String.append].
    f_equal. now apply IH.
Qed.

(** A [REQUIRE] line without a pipe, alone on its path, gives the grant
    controls of its alternatives: the pieces of its text between the
    separators [ OR ], each mapped to the backend vocabulary, in order and
    once each, under the operator [OR] when there is more than one piece
    and [AND] otherwise. *)
Theorem require_line_grant_controls (line : string) :
  Py.startswith line "REQUIRE " = true ->
  let action_text := Py.strip (Py.drop 8 line) in
  no_pipe action_text ->
  PolicyOptimizer.build_grant_controls [CAPLParser.parse_action line]
  = [("Operator",
      YStr (if Py.contains " OR " action_text then "OR" else "AND"));
     ("BuiltInControls",
      ystrs (PolicyOptimizer.unique
               (map PolicyOptimizer.map_grant_control
                  (Py.split action_text " OR "))))].
Proof.
  intros Hreq action_text Hpipe.
  unfold CAPLParser.parse_action. rewrite Hreq. fold action_text.
  destruct (Py.contains " OR " action_text) eqn:Hor.
  - unfold PolicyOptimizer.build_grant_controls.
    cbn [filter has_type Action.type String.eqb Ascii.eqb Bool.eqb is_nil
         negb andb flat_map Action.value Action.is_or existsb orb app].
    destruct (Py.split action_text " OR ") as [|x l] eqn:Es.
    { unfold Py.split in Es. now apply split_aux_nonempty in Es. }
    rewrite split_join_pipe.
    + rewrite app_nil_r. reflexivity.
    + rewrite <- Es. unfold Py.split.
      apply (split_aux_class (Re.CNot c_pipe)); [exact Hpipe | reflexivity].
  - unfold PolicyOptimizer.build_grant_controls.
    cbn [filter has_type Action.type String.eqb Ascii.eqb Bool.eqb is_nil
         negb andb flat_map Action.value Action.is_or existsb orb app].
    unfold Py.split. rewrite (split_aux_without _ _ _ Hor). reflexivity.
Qed.

Lemma require_line_grant_controls_witness :
  let line := "REQUIRE MFA OR CompliantDevice OR MFA" in
  (Py.startswith line "REQUIRE " = true
   /\ no_pipe (Py.strip (Py.drop 8 line)))
  /\ PolicyOptimizer.build_grant_controls [CAPLParser.parse_action line]
     = [("Operator", YStr "OR");
        ("BuiltInControls", ystrs ["mfa"; "compliantDevice"])].
Proof.
  intros line.
  assert (H1 : Py.startswith line "REQUIRE " = true) by reflexivity.
  assert (H2 : no_pipe (Py.strip (Py.drop 8 line))) by reflexivity.
  split; [now split|].
  exact (require_line_grant_controls line H1 H2).
Defined.

(** ** The records of the clusters *)

Lemma optimize_fold_records (set_order : PySet.t -> list string)
  (clusters : Dict.t (list PolicyPath.t)) :
  forall acc seen self,
    Forall2 (record_of_cluster set_order) acc seen ->
    Forall2 (record_of_cluster set_order)
      (fst (fold_left
              (fun (acc : list (Dict.t yaml) * PolicyOptimizer.t)
                   (kv : string * list PolicyPath.t) =>
                 let (optimized_policies, self) := acc in
                 let (merged_policy, self) :=
                   PolicyOptimizer.merge_cluster set_order self (fst kv)
                     (snd kv) in
                 (optimized_policies ++ [merged_policy], self))
              clusters (acc, self)))
      (seen ++ clusters).
Proof.
  induction clusters as [|kv clusters IH]; intros acc seen self H.
  - simpl. now rewrite app_nil_r.
  - cbn [fold_left].
    destruct (PolicyOptimizer.merge_cluster set_order self (fst kv) (snd kv))
      as [policy self1] eqn:E.
    replace (seen ++ kv :: clusters) with ((seen ++ [kv]) ++ clusters)
      by now rewrite <- app_assoc.
    apply IH. apply Forall2_app; [exact H|].
    constructor; [|constructor]. exists self. now rewrite E.
Qed.

(** The records of [optimize] are, in order, the records of the
    clusters. *)
Lemma optimize_records (set_order : PySet.t -> list string)
  (self : PolicyOptimizer.t) (paths : list PolicyPath.t) :
  Forall2 (record_of_cluster set_order)
    (fst (PolicyOptimizer.optimize set_order self paths))
    (PolicyOptimizer.cluster_by_action paths).
Proof.
  unfold PolicyOptimizer.optimize.
  apply (optimize_fold_records set_order _ [] [] self). constructor.
Qed.

(** A cluster holds, in input order, the paths of its key, and at least
    one. *)
Lemma cluster_members (paths : list PolicyPath.t) (key : string)
  (members : list PolicyPath.t) :
  In (key, members) (PolicyOptimizer.cluster_by_action paths) ->
  members
  = filter (fun p => String.eqb (PolicyOptimizer.full_signature p) key) paths
  /\ members <> [].
Proof.
  intros Hin.
  destruct (cluster_by_action_spec paths) as (Hnd & _ & _).
  apply dict_in_get in Hin; [|exact Hnd].
  unfold PolicyOptimizer.cluster_by_action in Hin.
  rewrite (group_get PolicyOptimizer.full_signature) in Hin.
  cbn [Dict.get] in Hin.
  destruct (filter _ paths) as [|x l]; [discriminate Hin|].
  injection Hin as Hm. subst members. split; [reflexivity | discriminate].
Qed.

Lemma prefix_app_false (a r x : string) (h : ascii) :
  all_class (Re.CNot h) a = true -> String.prefix a r = false ->
  String.prefix a (r ^^ String h x) = false.
Proof.
  revert r. induction a as [|a0 a IH]; intros r Ha H;
    [destruct r; discriminate|].
  simpl in Ha. apply andb_true_iff in Ha. destruct Ha as [Ha0 Ha].
  destruct r as [|r0 r]; cbn [String.append String.prefix] in *.
  - destruct (ascii_dec a0 h) as [->|_]; [|reflexivity].
    simpl in Ha0. rewrite Ascii.eqb_refl in Ha0. discriminate.
  - destruct (ascii_dec a0 r0); [now apply IH | reflexivity].
Qed.

(** The separator does not start inside a signature that does not hold
    it: its first character occurs nowhere else in it. *)
Lemma separator_no_overlap (c : ascii) (r st : string) :
  String.prefix state_separator (String c r) = false ->
  String.prefix state_separator (String c r ^^ state_separator ^^ st)
  = false.
Proof.
  unfold state_separator. cbn [String.append String.prefix].
  destruct (ascii_dec "|" c); [|reflexivity].
  apply prefix_app_false. reflexivity.
Qed.

Lemma split_aux_skip (sep a s cur : string) :
  Py.split_aux sep (a ^^ s) (String.length a) cur = Py.split_aux sep s 0 cur.
Proof. induction a as [|c a IH]; [reflexivity | exact IH]. Qed.

Lemma split_aux_at_sep (c : ascii) (sep s cur : string) :
  Py.split_aux (String c sep) (String c sep ^^ s) 0 cur
  = Py.rev_acc cur EmptyString :: Py.split_aux (String c sep) s 0 EmptyString.
Proof.
  pose proof (prefix_append (String c sep) s) as H.
  cbn [String.append] in H |- *. cbn [Py.split_aux]. rewrite H.
  replace (String.length (String c sep) - 1) with (String.length sep)
    by (simpl; lia).
  now rewrite split_aux_skip.
Qed.

Lemma split_key (st : string) :
  Py.contains state_separator st = false ->
  forall sig cur,
    Py.contains state_separator sig = false ->
    Py.contains state_separator (sig ^^ state_separator ^^ st) = true
    /\ Py.split_aux state_separator (sig ^^ state_separator ^^ st) 0 cur
       = [Py.rev_acc cur EmptyString ^^ sig; st].
Proof.
  intros Hst. induction sig as [|c sig IH]; intros cur Hsig.
  - cbn [String.append]. split.
    + apply contains_prefix, prefix_append.
    + rewrite append_nil_r. unfold state_separator at 1 2.
      rewrite split_aux_at_sep. fold state_separator.
      now rewrite (split_aux_without _ _ _ Hst).
  - cbn [Py.contains] in Hsig.
    destruct (String.prefix state_separator (String c sig)) eqn:Hp;
      [discriminate|].
    pose proof (separator_no_overlap c sig st Hp) as Hno.
    cbn [String.append] in Hno |- *. cbn [Py.contains Py.split_aux].
    rewrite Hno. destruct (IH (String c cur) Hsig) as [H1 H2].
    split; [exact H1|]. rewrite H2. cbn [Py.rev_acc].
    rewrite rev_acc_app, append_assoc. reflexivity.
Qed.

Lemma create_policy_state (set_order : PySet.t -> list string)
  (self : PolicyOptimizer.t) (conds : list Condition.t)
  (acts : list Action.t) (st : string) :
  Dict.get (fst (PolicyOptimizer.create_policy set_order self conds acts st))
    "State"
  = Some (YStr st).
Proof.
  unfold PolicyOptimizer.create_policy.
  destruct (is_nil (PolicyOptimizer.build_session_controls acts)),
    (is_nil (PolicyOptimizer.build_grant_controls acts)); reflexivity.
Qed.

Lemma Forall2_impl_in {A B : Type} (R S : A -> B -> Prop) (l1 : list A)
  (l2 : list B) :
  Forall2 R l1 l2 ->
  (forall x y, In y l2 -> R x y -> S x y) ->
  Forall2 S l1 l2.
Proof.
  induction 1 as [|x y l1 l2 Hxy _ IH]; intros H; constructor.
  - apply H; [now left | exact Hxy].
  - apply IH. intros x' y' Hin. apply H. now right.
Qed.

(** Each record carries the state of the paths of its cluster, provided
    the separator between signature and state occurs neither in their
    signature nor in their state. *)
Theorem optimize_record_states (set_order : PySet.t -> list string)
  (self : PolicyOptimizer.t) (paths : list PolicyPath.t) :
  (forall p, In p paths -> separable p) ->
  Forall2
    (fun policy kv =>
       forall p,
         In p (snd kv) ->
         Dict.get policy "State" = Some (YStr (PolicyPath.state p)))
    (fst (PolicyOptimizer.optimize set_order self paths))
    (PolicyOptimizer.cluster_by_action paths).
Proof.
  intros Hsep.
  apply Forall2_impl_in with (R := record_of_cluster set_order);
    [apply optimize_records|].
  intros policy [key members] Hin Hr p Hp. cbn [snd] in Hp.
  destruct (cluster_members paths key members Hin) as [Hm _].
  rewrite Hm in Hp. apply filter_In in Hp. destruct Hp as [Hpin Hkey].
  apply String.eqb_eq in Hkey. destruct (Hsep p Hpin) as [Hs1 Hs2].
  destruct Hr as [self' ->]. cbn [fst snd].
  unfold PolicyOptimizer.merge_cluster. rewrite create_policy_state.
  rewrite <- Hkey. unfold PolicyOptimizer.full_signature.
  fold state_separator.
  destruct (split_key _ Hs2 _ EmptyString Hs1) as [Hc Hsplit].
  unfold Py.split. rewrite Hc, Hsplit. reflexivity.
Qed.

Lemma optimize_record_states_witness :
  let paths :=
    [PolicyPath.mk [Condition.mk "user" "is" "All" None false]
       [Action.mk "REQUIRE" (Some "MFA") false] "report-only";
     PolicyPath.mk [Condition.mk "user" "is" "Guest" None false]
       [Action.mk "BLOCK" None false] "enabled"] in
  (forall p, In p paths -> separable p)
  /\ Forall2
       (fun policy kv =>
          forall p,
            In p (snd kv) ->
            Dict.get policy "State" = Some (YStr (PolicyPath.state p)))
       (fst (PolicyOptimizer.optimize insertion_order PolicyOptimizer.init
               paths))
       (PolicyOptimizer.cluster_by_action paths).
Proof.
  intros paths.
  assert (H : forall p, In p paths -> separable p).
  { intros p [<-|[<-|[]]]; split; reflexivity. }
  split; [exact H|].
  exact (optimize_record_states insertion_order PolicyOptimizer.init paths H).
Defined.

(** ** Excluded groups *)

Lemma no_exclusion_set (d : Dict.t yaml) (k : string) (v : yaml) :
  k <> "Users" -> no_exclusion d -> no_exclusion (Dict.set d k v).
Proof.
  intros Hk H. unfold no_exclusion. now rewrite dict_get_set_other.
Qed.

Lemma no_exclusion_set_users (d : Dict.t yaml) (users : Dict.t yaml) :
  Dict.get users "ExcludeGroups" = None ->
  no_exclusion (Dict.set d "Users" (YDict users)).
Proof.
  intros H. unfold no_exclusion. now rewrite dict_get_set_same.
Qed.

Lemma no_exclusion_set2 (d : Dict.t yaml) (k1 k2 : string) (v : yaml) :
  k2 <> "ExcludeGroups" -> no_exclusion d ->
  no_exclusion (PolicyOptimizer.set2 d k1 k2 v).
Proof.
  intros Hk H. unfold PolicyOptimizer.set2.
  destruct (Dict.get d k1) as [[| | | | |sub]|] eqn:E; try exact H.
  destruct (String.eqb_spec k1 "Users") as [->|Hne].
  - apply no_exclusion_set_users. rewrite dict_get_set_other by exact Hk.
    unfold no_exclusion in H. now rewrite E in H.
  - now apply no_exclusion_set.
Qed.

Lemma no_exclusion_append2 (d : Dict.t yaml) (k1 k2 : string) (v : yaml) :
  k2 <> "ExcludeGroups" -> no_exclusion d ->
  no_exclusion (PolicyOptimizer.append2 d k1 k2 v).
Proof.
  intros Hk H. unfold PolicyOptimizer.append2.
  destruct (Dict.get d k1) as [[| | | | |sub]|] eqn:E; try exact H.
  assert (Hsub : k1 = "Users" -> Dict.get sub "ExcludeGroups" = None).
  { intros ->. unfold no_exclusion in H. now rewrite E in H. }
  destruct (Dict.get sub k2) as [[| | | |l|]|]; try exact H;
    (destruct (String.eqb_spec k1 "Users") as [->|Hne];
     [apply no_exclusion_set_users;
      rewrite dict_get_set_other by exact Hk; now apply Hsub
     | now apply no_exclusion_set]).
Qed.

Lemma no_exclusion_append1 (d : Dict.t yaml) (k : string) (v : yaml) :
  k <> "Users" -> no_exclusion d ->
  no_exclusion (PolicyOptimizer.append1 d k v).
Proof.
  intros Hk H. unfold PolicyOptimizer.append1.
  destruct (Dict.get d k) as [[| | | |l|]|]; try exact H.
  now apply no_exclusion_set.
Qed.

Lemma cond_step_no_exclusion (set_order : PySet.t -> list string)
  (d : Dict.t yaml) (c : Condition.t) :
  not_negated_group c -> no_exclusion d ->
  no_exclusion (PolicyOptimizer.cond_step set_order d c).
Proof.
  intros Hc Hd. unfold PolicyOptimizer.cond_step. cbv zeta.
  destruct (String.eqb (Condition.type c) "user").
  { repeat match goal with
           | |- context [if ?b then _ else _] => destruct b
           end;
      try exact Hd; now apply no_exclusion_set2. }
  destruct (String.eqb_spec (Condition.type c) "user-group") as [E|_].
  { rewrite (Hc E). now apply no_exclusion_append2. }
  repeat match goal with
         | |- context [if ?b then _ else _] => destruct b
         end;
    try exact Hd;
    first [ now apply no_exclusion_set2
          | now apply no_exclusion_append2
          | now apply no_exclusion_append1
          | now apply no_exclusion_set ].
Qed.

Lemma fold_cond_step (set_order : PySet.t -> list string)
  (conds : list Condition.t) :
  forall d,
    Forall not_negated_group conds ->
    Dict.keys d = section_names -> no_exclusion d ->
    let r := fold_left (PolicyOptimizer.cond_step set_order) conds d in
    Dict.keys r = section_names /\ no_exclusion r.
Proof.
  induction conds as [|c conds IH]; intros d Hcs Hk Hd; [now split|].
  inversion Hcs as [|? ? Hc Hcs']; subst. cbn [fold_left].
  apply IH; [exact Hcs' | now apply cond_step_keys |
             now apply cond_step_no_exclusion].
Qed.

Lemma dict_get_filter {V : Type} (f : string * V -> bool) (d : Dict.t V)
  (k : string) (v : V) :
  NoDup (Dict.keys d) -> Dict.get (filter f d) k = Some v ->
  Dict.get d k = Some v.
Proof.
  intros Hnd H. apply dict_get_in in H. apply filter_In in H.
  now apply dict_in_get.
Qed.

Lemma build_conditions_no_exclusion (set_order : PySet.t -> list string)
  (conds : list Condition.t) :
  Forall not_negated_group conds ->
  no_exclusion (PolicyOptimizer.build_conditions_dict set_order conds).
Proof.
  intros Hcs. unfold PolicyOptimizer.build_conditions_dict.
  destruct (fold_cond_step set_order conds PolicyOptimizer.empty_cond_dict
              Hcs eq_refl eq_refl) as [Hk Hd].
  unfold no_exclusion.
  destruct (Dict.get (filter _ _) "Users") as [[| | | | |users]|] eqn:E;
    try exact I.
  apply dict_get_filter in E.
  - unfold no_exclusion in Hd. now rewrite E in Hd.
  - rewrite Hk. unfold section_names.
    repeat constructor; simpl; intuition discriminate.
Qed.

Lemma merge_not_negated_group (set_order : PySet.t -> list string)
  (k : string) (conds : list Condition.t) :
  (forall c, In c conds -> Condition.type c = k /\ not_negated_group c) ->
  Forall not_negated_group
    (PolicyOptimizer.merge_conditions_of_type set_order k conds).
Proof.
  intros H. unfold PolicyOptimizer.merge_conditions_of_type.
  destruct conds as [|first rest] eqn:Ec; [constructor|]. rewrite <- Ec in *.
  assert (Hfirst : In first conds) by (rewrite Ec; now left).
  destruct (Py.mem k _).
  - destruct (Nat.ltb _ _).
    + constructor; [intros _; reflexivity | constructor].
    + constructor; [now apply H | constructor].
  - destruct (Py.mem k _); [|constructor; [now apply H | constructor]].
    apply Forall_forall. intros c Hc. apply in_map_iff in Hc.
    destruct Hc as [g [<- _]]. intros Hty. cbn [Condition.type] in Hty.
    cbn [Condition.is_negated].
    assert (Horig : forall orig, In orig conds ->
                                 Condition.is_negated orig = false).
    { intros orig Ho. destruct (H orig Ho) as [Ht Hn]. apply Hn. congruence. }
    destruct (find (PolicyOptimizer.guid_is g) conds) as [orig|] eqn:Ef.
    + apply Horig. now apply find_some in Ef.
    + now apply Horig.
Qed.

Lemma merge_groups_not_negated_group (set_order : PySet.t -> list string)
  (paths : list PolicyPath.t) :
  Forall not_negated_group (flat_map PolicyPath.conditions paths) ->
  Forall not_negated_group
    (PolicyOptimizer.merge_groups set_order
       (PolicyOptimizer.group_conditions paths)).
Proof.
  intros H. unfold PolicyOptimizer.merge_groups.
  apply Forall_flat_map, Forall_forall. intros [k cs] Hin. cbn [fst snd].
  apply dict_in_get in Hin; [|apply group_conditions_nodup].
  rewrite group_conditions_get in Hin.
  apply merge_not_negated_group. intros c Hc.
  assert (Hc' : In c (conditions_of_type k paths)).
  { destruct (conditions_of_type k paths); [discriminate|].
    injection Hin as <-. exact Hc. }
  split; [now apply conditions_of_type_type in Hc'|].
  unfold conditions_of_type in Hc'. apply filter_In in Hc'.
  rewrite Forall_forall in H. now apply H.
Qed.

Lemma create_policy_conditions (set_order : PySet.t -> list string)
  (self : PolicyOptimizer.t) (conds : list Condition.t)
  (acts : list Action.t) (st : string) :
  Dict.get (fst (PolicyOptimizer.create_policy set_order self conds acts st))
    "Conditions"
  = Some (YDict (PolicyOptimizer.build_conditions_dict set_order conds)).
Proof.
  unfold PolicyOptimizer.create_policy.
  destruct (is_nil (PolicyOptimizer.build_session_controls acts)),
    (is_nil (PolicyOptimizer.build_grant_controls acts)); reflexivity.
Qed.

Lemma Forall2_in_l {A B : Type} (R : A -> B -> Prop) (l1 : list A)
  (l2 : list B) (x : A) :
  Forall2 R l1 l2 -> In x l1 -> exists y, In y l2 /\ R x y.
Proof.
  induction 1 as [|a b l1 l2 Hab _ IH]; intros Hin; [destruct Hin|].
  destruct Hin as [<-|Hin].
  - exists b. split; [now left | exact Hab].
  - destruct (IH Hin) as [y [Hy Hr]]. exists y. split; [now right | exact Hr].
Qed.

(** No record excludes a group when no path holds a negated [user-group]
    Condition. *)
Lemma optimize_no_exclusion (set_order : PySet.t -> list string)
  (self : PolicyOptimizer.t) (paths : list PolicyPath.t)
  (policy : Dict.t yaml) :
  Forall not_negated_group (flat_map PolicyPath.conditions paths) ->
  In policy (fst (PolicyOptimizer.optimize set_order self paths)) ->
  excluded_groups policy = None.
Proof.
  intros H Hin.
  destruct (Forall2_in_l _ _ _ policy (optimize_records set_order self paths)
              Hin) as ([key members] & Hkv & self' & ->).
  cbn [fst snd]. unfold excluded_groups, PolicyOptimizer.merge_cluster.
  rewrite create_policy_conditions.
  assert (Hm : Forall not_negated_group
                 (flat_map PolicyPath.conditions members)).
  { destruct (cluster_members paths key members Hkv) as [-> _].
    rewrite Forall_forall in *. intros c Hc. apply H.
    apply in_flat_map in Hc. destruct Hc as [p [Hp Hc]].
    apply filter_In in Hp. apply in_flat_map. exists p. tauto. }
  pose proof (build_conditions_no_exclusion set_order _
                (merge_groups_not_negated_group set_order members Hm)) as Hn.
  unfold no_exclusion in Hn.
  destruct (Dict.get _ "Users") as [[| | | | |users]|]; auto.
Qed.

Lemma parse_condition_not_negated_group (vars : Dict.t Var.t)
  (text : string) :
  not_negated_group (fst (CAPLParser.parse_condition vars text)).
Proof.
  unfold not_negated_group, CAPLParser.parse_condition.
  destruct (CAPLParser.first_match CAPLParser.rules _) as [c|] eqn:E;
    cbn [fst]; [|reflexivity].
  apply first_match_shape in E. destruct E as (_ & _ & Hn).
  intros Hty. destruct (Condition.is_negated c); [|reflexivity].
  destruct (Hn eq_refl) as [Hin _]. rewrite Hty in Hin.
  simpl in Hin. intuition discriminate.
Qed.

(** Whatever the file, no record made from its Decisions excludes a
    group: a condition [user NOT in group ...] is parsed into a negated
    Condition of kind [user], which no section of the record takes up,
    and only a negated Condition of kind [user-group] would fill
    [ExcludeGroups]. *)
Theorem group_exclusions_are_dropped (set_order : PySet.t -> list string)
  (self : CAPLParser.t) (name content : string)
  (statements : list IfStatement) (self' : CAPLParser.t)
  (optimizer : PolicyOptimizer.t) (policy : Dict.t yaml) :
  CAPLParser.parse_file self name content = Some (statements, self') ->
  In policy
    (fst (PolicyOptimizer.optimize set_order optimizer
            (PathExtractor.extract_paths statements))) ->
  excluded_groups policy = None.
Proof.
  intros H Hin.
  pose (QA := fun _ : Action.t => True).
  assert (HA : forall u,
             CAPLParser.is_action_line (Py.strip u) = true ->
             QA (CAPLParser.parse_action (Py.strip u))).
  { intros u _. exact I. }
  pose proof (parse_file_content not_negated_group QA
                (fun vars u => parse_condition_not_negated_group vars _)
                HA _ _ _ _ _ H) as Hs.
  pose proof (extract_paths_content not_negated_group QA statements Hs)
    as Hps.
  apply (optimize_no_exclusion set_order optimizer
           (PathExtractor.extract_paths statements)); [|exact Hin].
  apply Forall_flat_map. eapply Forall_impl; [|exact Hps].
  intros p [Hc _]. exact Hc.
Qed.

Lemma group_exclusions_are_dropped_witness :
  let content :=
    unlines ["IF user is All";
             "    user NOT in group " ^^ dquote ^^ "Break Glass" ^^ dquote
             ^^ " [id-9]";
             "    STATE enabled"; "        REQUIRE MFA"; "END"] in
  exists statements self' policy,
    (CAPLParser.parse_file CAPLParser.init "p.capl" content
     = Some (statements, self')
     /\ In policy
          (fst (PolicyOptimizer.optimize insertion_order PolicyOptimizer.init
                  (PathExtractor.extract_paths statements))))
    /\ excluded_groups policy = None.
Proof.
  intros content.
  destruct (CAPLParser.parse_file CAPLParser.init "p.capl" content)
    as [[statements self']|] eqn:H; [|vm_compute in H; discriminate H].
  destruct (fst (PolicyOptimizer.optimize insertion_order
                   PolicyOptimizer.init
                   (PathExtractor.extract_paths statements)))
    as [|policy l] eqn:E.
  { exfalso. vm_compute in H. injection H as <- _. vm_compute in E.
    discriminate E. }
  assert (Hin : In policy
                  (fst (PolicyOptimizer.optimize insertion_order
                          PolicyOptimizer.init
                          (PathExtractor.extract_paths statements))))
    by (rewrite E; now left).
  exists statements, self', policy. split; [split; [reflexivity | exact Hin]|].
  exact (group_exclusions_are_dropped insertion_order CAPLParser.init
           "p.capl" content statements self' PolicyOptimizer.init policy
           H Hin).
Defined.

(** ** Client application types *)

(** The client application types of a record are the backend values of
    the given client kinds, each once, whatever the order: the listed
    kinds by the table of [_map_client_types] (mobile and desktop
    applications share one value), any other kind in lower case. *)
Theorem client_types_once (set_order : PySet.t -> list string)
  (client_values : list string) :
  valid_set_order set_order ->
  let mapped :=
    map (fun c => match Dict.get PolicyOptimizer.client_type_mapping c with
                  | Some v => v
                  | None => Py.lower c
                  end)
      client_values in
  NoDup (PolicyOptimizer.map_client_types set_order client_values)
  /\ forall x,
      In x (PolicyOptimizer.map_client_types set_order client_values)
      <-> In x mapped.
Proof.
  intros Hvalid mapped. unfold PolicyOptimizer.map_client_types.
  fold mapped. unfold PySet.of_list.
  pose proof (Hvalid (PySet.update PySet.empty mapped)) as Hperm.
  split.
  - apply Permutation_NoDup with (PySet.update PySet.empty mapped);
      [now apply Permutation_sym|].
    apply set_update_nodup. constructor.
  - intros x. split.
    + intros Hx. apply (Permutation_in _ Hperm) in Hx.
      apply set_update_in in Hx. destruct Hx as [[]|Hx]. exact Hx.
    + intros Hx. apply (Permutation_in _ (Permutation_sym Hperm)).
      apply set_update_in. now right.
Qed.

Lemma client_types_once_witness :
  valid_set_order reverse_order
  /\ NoDup (PolicyOptimizer.map_client_types reverse_order
              ["MobileApp"; "Browser"; "DesktopApp"]).
Proof.
  assert (Hv : valid_set_order reverse_order)
    by (intros s; apply Permutation_sym, Permutation_rev).
  split; [exact Hv|].
  exact (proj1 (client_types_once reverse_order
                  ["MobileApp"; "Browser"; "DesktopApp"] Hv)).
Defined.

(** ** A file with an else-if line *)

Lemma else_if_branches_always_empty_witness :
  exists statements self',
    CAPLParser.parse_file CAPLParser.init "p.capl" else_if_example
    = Some (statements, self')
    /\ Forall no_else_if statements.
Proof.
  destruct (CAPLParser.parse_file CAPLParser.init "p.capl" else_if_example)
    as [[statements self']|] eqn:H; [|vm_compute in H; discriminate H].
  exists statements, self'. split; [reflexivity|].
  exact (else_if_branches_always_empty CAPLParser.init "p.capl"
           else_if_example statements self' H).
Defined.

(** ** Decisions in the plain layout *)

Lemma lstrip_blanks (w x : string) :
  blanks w -> Py.lstrip (w ^^ x) = Py.lstrip x.
Proof.
  unfold blanks. induction w as [|c w IH]; intros H; [reflexivity|].
  simpl in H. apply andb_true_iff in H. destruct H as [Hc Hw].
  cbn [String.append Py.lstrip]. cbn [Re.in_class] in Hc. rewrite Hc.
  now apply IH.
Qed.

Lemma strip_indented (w x : string) :
  blanks w -> Py.strip x = x -> Py.strip (w ^^ x) = x.
Proof.
  intros Hw Hx. unfold Py.strip in *. now rewrite lstrip_blanks.
Qed.

Lemma line_text_last (s : string) :
  line_text s -> exists t c, s = t ^^ String c EmptyString
                             /\ Py.is_space c = false.
Proof.
  intros (Hne & Hs & _). destruct (last_char s Hne) as (t & c & E).
  exists t, c. split; [exact E|].
  unfold Py.strip in Hs. rewrite E in Hs at 2. now apply rstrip_last in Hs.
Qed.

(** A keyword in front of a stripped text gives a stripped line. *)
Lemma strip_prefixed (k : ascii) (kw s : string) :
  Py.is_space k = false -> line_text s ->
  Py.strip (String k kw ^^ s) = String k kw ^^ s.
Proof.
  intros Hk Hs. destruct (line_text_last s Hs) as (t & c & -> & Hc).
  unfold Py.strip. cbn [String.append Py.lstrip]. rewrite Hk.
  change (String k (kw ^^ t ^^ String c EmptyString))
    with (String k kw ^^ t ^^ String c EmptyString).
  rewrite <- append_assoc. now apply rstrip_nonspace_last.
Qed.

Lemma here_facts (p : CAPLParser.t) (done : list string) (l : string)
  (todo : list string) :
  line_here p done l todo ->
  Nat.ltb (CAPLParser.line_number p) (length (CAPLParser.lines p)) = true
  /\ CAPLParser.current_line_stripped p = Py.strip l
  /\ CAPLParser.current_line_indent p
     = String.length l - String.length (Py.lstrip l).
Proof.
  intros [Hl Hn].
  assert (Hlt : CAPLParser.line_number p < length (CAPLParser.lines p)).
  { rewrite Hl, Hn, length_app. simpl. lia. }
  assert (Hnth : nth (CAPLParser.line_number p) (CAPLParser.lines p)
                   EmptyString = l).
  { rewrite Hl, Hn. apply nth_middle. }
  unfold CAPLParser.current_line_stripped, CAPLParser.current_line_indent.
  rewrite Hnth. split; [now apply Nat.ltb_lt|].
  destruct (Nat.leb_spec (length (CAPLParser.lines p))
              (CAPLParser.line_number p)); [lia | now split].
Qed.

Lemma here_next (p p' : CAPLParser.t) (done : list string) (l l' : string)
  (todo : list string) :
  line_here p done l (l' :: todo) ->
  CAPLParser.lines p' = CAPLParser.lines p ->
  CAPLParser.line_number p' = CAPLParser.line_number p + 1 ->
  line_here p' (done ++ [l]) l' todo.
Proof.
  intros [Hl Hn] Hl' Hn'. split.
  - rewrite Hl', Hl, <- app_assoc. reflexivity.
  - rewrite Hn', Hn, length_app. reflexivity.
Qed.

Lemma action_line_facts (a : string) :
  action_line a ->
  Py.strip a = a
  /\ negb (Py.truthy a) || Py.startswith a "#" = false
  /\ Py.mem a ["ELSE IF "; "ELSE"; "END"] = false
  /\ Py.startswith a "IF " = false
  /\ CAPLParser.is_action_line a = true.
Proof.
  intros [(_ & Hs & _) Ha]. split; [exact Hs|].
  assert (H : exists k r,
             a = String k r /\ In k ["R"; "B"; "A"; "S"]%char).
  { unfold CAPLParser.is_action_line in Ha.
    apply orb_true_iff in Ha. destruct Ha as [Ha|Ha];
      [apply orb_true_iff in Ha; destruct Ha as [Ha|Ha];
       [apply orb_true_iff in Ha; destruct Ha as [Ha|Ha]|]|];
      apply prefix_drop in Ha; rewrite Ha; cbn [String.append];
      eexists; eexists; (split; [reflexivity|]); simpl; tauto. }
  destruct H as (k & r & -> & Hk).
  repeat split; [| | |exact Ha];
    simpl in Hk; destruct Hk as [<-|[<-|[<-|[<-|[]]]]]; reflexivity.
Qed.

Lemma branch_with (b : PolicyBranch) :
  mkBranch (conditions b) (actions b) (state b) (nested_if b) = b.
Proof. now destruct b. Qed.

(** The body loop takes the action lines up to the word that ends the
    branch. *)
Lemma body_loop_actions (i2 : string) (acts : list string) :
  blanks i2 -> Forall action_line acts ->
  forall n p done stop todo b,
    CAPLParser.lines p = done ++ map (String.append i2) acts ++ stop :: todo ->
    CAPLParser.line_number p = length done ->
    In stop ["ELSE"; "END"] ->
    length acts < n ->
    CAPLParser.body_loop n p 4 b
    = Some (mkBranch (conditions b)
              (actions b ++ map CAPLParser.parse_action acts) (state b)
              (nested_if b),
            moved_to p (length done + length acts)).
Proof.
  intros Hi2. induction 1 as [|a acts Ha _ IH];
    intros n p done stop todo b Hl Hn Hstop Hfuel;
    (destruct n as [|n]; [simpl in Hfuel; lia|]); rewrite body_loop_S.
  - cbn [map app] in Hl.
    destruct (here_facts p done stop todo (conj Hl Hn)) as (-> & -> & _).
    cbv zeta.
    assert (Hs : Py.strip stop = stop)
      by (destruct Hstop as [<-|[<-|[]]]; reflexivity).
    rewrite Hs.
    assert (E1 : negb (Py.truthy stop) || Py.startswith stop "#" = false)
      by (destruct Hstop as [<-|[<-|[]]]; reflexivity).
    assert (E2 : Py.mem stop ["ELSE IF "; "ELSE"; "END"] = true)
      by (destruct Hstop as [<-|[<-|[]]]; reflexivity).
    rewrite E1, E2. cbn [Nat.sub Nat.ltb Nat.leb].
    rewrite app_nil_r, branch_with. f_equal. f_equal.
    destruct p. unfold moved_to. simpl in *. f_equal. lia.
  - cbn [map app] in Hl.
    destruct (here_facts p done (i2 ^^ a)
                (map (String.append i2) acts ++ stop :: todo)
                (conj Hl Hn)) as (-> & -> & _).
    cbv zeta.
    destruct (action_line_facts a Ha) as (Hs & E1 & E2 & E3 & E4).
    rewrite (strip_indented i2 a Hi2 Hs), E1, E2, E3, E4.
    cbn [Nat.sub Nat.ltb Nat.leb].
    rewrite (IH n (CAPLParser.advance p) (done ++ [i2 ^^ a]) stop todo).
    + cbn [conditions actions state nested_if]. rewrite <- app_assoc.
      f_equal. f_equal. unfold moved_to, CAPLParser.advance. simpl.
      f_equal. rewrite length_app. simpl. lia.
    + simpl. rewrite Hl, <- app_assoc. reflexivity.
    + simpl. rewrite Hn, length_app. reflexivity.
    + exact Hstop.
    + simpl in Hfuel. lia.
Qed.

Lemma state_line_facts (st : string) :
  line_text st ->
  Py.strip ("STATE " ^^ st) = "STATE " ^^ st
  /\ Py.strip (Py.drop 6 ("STATE " ^^ st)) = st.
Proof.
  intros Hst. split; [now apply strip_prefixed|]. apply Hst.
Qed.

(** The condition loop takes the condition lines up to the [STATE]
    line. *)
Lemma cond_loop_conditions (i1 st : string) (cs : list string) :
  blanks i1 -> line_text st -> Forall condition_line cs ->
  forall n p done todo b,
    CAPLParser.lines p
    = done ++ map (String.append i1) cs ++ (i1 ^^ "STATE " ^^ st) :: todo ->
    CAPLParser.line_number p = length done ->
    length cs < n ->
    exists p',
      CAPLParser.cond_loop n p 0 b
      = Some (mkBranch
                (conditions b
                 ++ map (fun t =>
                           fst (CAPLParser.parse_condition
                                  (CAPLParser.variables p) t)) cs)
                (actions b) (state b) (nested_if b), p')
      /\ CAPLParser.variables p' = CAPLParser.variables p
      /\ CAPLParser.lines p' = CAPLParser.lines p
      /\ CAPLParser.line_number p' = length done + length cs.
Proof.
  intros Hi1 Hst. induction 1 as [|c cs Hc _ IH];
    intros n p done todo b Hl Hn Hfuel;
    (destruct n as [|n]; [simpl in Hfuel; lia|]); cbn [CAPLParser.cond_loop].
  - cbn [map app] in Hl.
    destruct (here_facts p done _ todo (conj Hl Hn)) as (-> & -> & _).
    destruct (state_line_facts st Hst) as [Hs _].
    rewrite (strip_indented i1 _ Hi1 Hs).
    assert (E1 : negb (Py.truthy ("STATE " ^^ st))
                 || Py.startswith ("STATE " ^^ st) "#" = false)
      by reflexivity.
    assert (E2 : Py.mem ("STATE " ^^ st) ["ELSE IF "; "ELSE"; "END"] = false)
      by reflexivity.
    assert (E3 : Py.startswith ("STATE " ^^ st) "STATE " = true)
      by apply prefix_append.
    rewrite E1, E2, andb_false_r, E3.
    exists p. rewrite app_nil_r, branch_with.
    split; [reflexivity|]. split; [reflexivity|]. split; [reflexivity|].
    simpl. lia.
  - cbn [map app] in Hl.
    destruct (here_facts p done (i1 ^^ c)
                (map (String.append i1) cs ++ (i1 ^^ "STATE " ^^ st) :: todo)
                (conj Hl Hn)) as (-> & -> & _).
    destruct Hc as ((Hne & Hs & _) & E1 & E2 & E3 & E4).
    rewrite (strip_indented i1 c Hi1 Hs).
    assert (Ht : Py.truthy c = true) by now apply truthy_iff.
    rewrite Ht, E1, E2, E3, E4, andb_false_r. cbn [negb orb].
    destruct (CAPLParser.parse_condition (CAPLParser.variables p) c)
      as [c0 msgs] eqn:Ec.
    destruct (IH n (CAPLParser.advance (CAPLParser.print p msgs))
                (done ++ [i1 ^^ c]) todo
                (mkBranch (conditions b ++ [c0]) (actions b) (state b)
                   (nested_if b))) as (p' & -> & Hv & Hll & Hln).
    + simpl. rewrite Hl, <- app_assoc. reflexivity.
    + simpl. rewrite Hn, length_app. reflexivity.
    + simpl in Hfuel. lia.
    + exists p'. cbn [conditions actions state nested_if] in *.
      simpl in Hv, Hll. rewrite <- app_assoc. cbn [app map].
      rewrite Ec. cbn [fst].
      split; [reflexivity|]. split; [exact Hv|]. split; [exact Hll|].
      rewrite Hln, length_app. simpl. lia.
Qed.

Lemma parse_body_plain (i1 i2 st : string) (acts : list string) :
  blanks i1 -> blanks i2 -> line_text st -> Forall action_line acts ->
  forall n p done stop todo b,
    CAPLParser.lines p = done ++ body_lines i1 i2 st acts ++ stop :: todo ->
    CAPLParser.line_number p = length done ->
    In stop ["ELSE"; "END"] ->
    length acts + 1 < n ->
    CAPLParser.parse_branch_body n p 4 b
    = Some (mkBranch (conditions b)
              (actions b ++ map CAPLParser.parse_action acts) st
              (nested_if b),
            moved_to p (length done + 1 + length acts)).
Proof.
  intros Hi1 Hi2 Hst Hacts n p done stop todo b Hl Hn Hstop Hfuel.
  destruct n as [|n]; [lia|]. rewrite parse_branch_body_S.
  unfold body_lines in Hl. cbn [app] in Hl.
  unfold CAPLParser.state_line.
  destruct (here_facts p done _ _ (conj Hl Hn)) as (_ & -> & _).
  destruct (state_line_facts st Hst) as [Hs Hd].
  rewrite (strip_indented i1 _ Hi1 Hs), Hd.
  assert (E : Py.startswith ("STATE " ^^ st) "STATE " = true)
    by apply prefix_append.
  rewrite E.
  rewrite (body_loop_actions i2 acts Hi2 Hacts n (CAPLParser.advance p)
             (done ++ [i1 ^^ "STATE " ^^ st]) stop todo).
  - cbn [conditions actions state nested_if]. f_equal. f_equal.
    unfold moved_to, CAPLParser.advance. simpl. f_equal.
    rewrite length_app. simpl. lia.
  - simpl. rewrite Hl, <- app_assoc. reflexivity.
  - simpl. rewrite Hn, length_app. reflexivity.
  - exact Hstop.
  - lia.
Qed.

Lemma parse_branch_plain (i1 i2 c st : string) (cs acts : list string) :
  blanks i1 -> blanks i2 -> line_text c -> Forall condition_line cs ->
  line_text st -> Forall action_line acts ->
  forall n p done stop todo,
    CAPLParser.lines p
    = done ++ ("IF " ^^ c)
              :: map (String.append i1) cs
              ++ body_lines i1 i2 st acts ++ stop :: todo ->
    CAPLParser.line_number p = length done ->
    In stop ["ELSE"; "END"] ->
    length cs + length acts + 3 < n ->
    exists p',
      CAPLParser.parse_branch n p 0
      = Some (mkBranch
                (map (fun t =>
                        fst (CAPLParser.parse_condition
                               (CAPLParser.variables p) t)) (c :: cs))
                (map CAPLParser.parse_action acts) st None, p')
      /\ CAPLParser.variables p' = CAPLParser.variables p
      /\ CAPLParser.lines p' = CAPLParser.lines p
      /\ CAPLParser.line_number p'
         = length done + length cs + length acts + 2.
Proof.
  intros Hi1 Hi2 Hc Hcs Hst Hacts n p done stop todo Hl Hn Hstop Hfuel.
  destruct n as [|n]; [lia|]. rewrite parse_branch_S.
  unfold CAPLParser.branch_head.
  destruct (here_facts p done _ _ (conj Hl Hn)) as (_ & -> & _).
  rewrite (strip_prefixed "I" "F " c eq_refl Hc).
  assert (E : Py.startswith ("IF " ^^ c) "IF " = true)
    by apply prefix_append.
  rewrite E. unfold CAPLParser.head_condition.
  assert (Ed : Py.strip (Py.drop 3 ("IF " ^^ c)) = c) by apply Hc.
  rewrite Ed.
  assert (Ht : Py.truthy c = true) by (apply truthy_iff, Hc).
  rewrite Ht.
  destruct (CAPLParser.parse_condition (CAPLParser.variables p) c)
    as [c0 msgs] eqn:Ec.
  cbn [new_branch conditions actions state nested_if app].
  set (p1 := CAPLParser.advance (CAPLParser.print p msgs)).
  destruct (cond_loop_conditions i1 st cs Hi1 Hst Hcs n p1
              (done ++ ["IF " ^^ c])
              (map (String.append i2) acts ++ stop :: todo)
              (mkBranch [c0] [] "enabled" None))
    as (p2 & -> & Hv2 & Hl2 & Hn2).
  { subst p1. simpl. rewrite Hl, <- app_assoc. reflexivity. }
  { subst p1. simpl. rewrite Hn, length_app. reflexivity. }
  { lia. }
  cbn [conditions actions state nested_if].
  rewrite (parse_body_plain i1 i2 st acts Hi1 Hi2 Hst Hacts n p2
             (done ++ ("IF " ^^ c) :: map (String.append i1) cs) stop todo).
  - exists (moved_to p2
              (length (done ++ ("IF " ^^ c) :: map (String.append i1) cs)
               + 1 + length acts)).
    cbn [conditions actions state nested_if app map].
    subst p1. simpl in Hv2, Hl2. rewrite Ec. cbn [fst].
    split; [reflexivity|]. split; [exact Hv2|]. split; [exact Hl2|].
    simpl. rewrite length_app. simpl. rewrite length_map. lia.
  - rewrite Hl2. subst p1. simpl. rewrite Hl, <- app_assoc. reflexivity.
  - rewrite Hn2, !length_app. simpl. rewrite length_map. lia.
  - exact Hstop.
  - lia.
Qed.

Lemma if_loop_end (n : nat) (p : CAPLParser.t) (done todo : list string)
  (stmt : IfStatement) :
  line_here p done "END" todo ->
  CAPLParser.if_loop (S n) p 0 stmt = Some (stmt, CAPLParser.advance p).
Proof.
  intros H. rewrite if_loop_S.
  destruct (here_facts p done _ _ H) as (-> & -> & _). reflexivity.
Qed.

Ltac list_len :=
  repeat first [ rewrite length_app | rewrite length_map
               | progress cbn [length app] ].

Lemma plain_lines_length (i1 i2 : string) (d : plain_decision) :
  length (plain_lines i1 i2 d)
  = length (more_conditions d) + length (plain_actions d) + 3
    + match plain_else d with
      | Some (_, acts) => length acts + 2
      | None => 0
      end.
Proof.
  unfold plain_lines, body_lines. destruct (plain_else d) as [[st acts]|];
    list_len; lia.
Qed.

Lemma lines_advance (p : CAPLParser.t) :
  CAPLParser.lines (CAPLParser.advance p) = CAPLParser.lines p.
Proof. reflexivity. Qed.

Lemma lines_moved (p : CAPLParser.t) (n : nat) :
  CAPLParser.lines (moved_to p n) = CAPLParser.lines p.
Proof. reflexivity. Qed.

Lemma number_advance (p : CAPLParser.t) :
  CAPLParser.line_number (CAPLParser.advance p)
  = CAPLParser.line_number p + 1.
Proof. reflexivity. Qed.

Lemma number_moved (p : CAPLParser.t) (n : nat) :
  CAPLParser.line_number (moved_to p n) = n.
Proof. reflexivity. Qed.

Lemma variables_advance (p : CAPLParser.t) :
  CAPLParser.variables (CAPLParser.advance p) = CAPLParser.variables p.
Proof. reflexivity. Qed.

Lemma variables_moved (p : CAPLParser.t) (n : nat) :
  CAPLParser.variables (moved_to p n) = CAPLParser.variables p.
Proof. reflexivity. Qed.

Ltac list_eq :=
  unfold body_lines;
  repeat first [ rewrite <- app_assoc | progress cbn [app] ];
  reflexivity.

Ltac parser_fields :=
  repeat first [ rewrite lines_advance | rewrite lines_moved
               | rewrite number_advance | rewrite number_moved
               | rewrite variables_advance | rewrite variables_moved ].

(** A Decision in the plain layout is parsed into the Decision that it
    denotes; the lines are consumed and the variables untouched. *)
Lemma parse_if_plain (i1 i2 : string) (d : plain_decision) :
  blanks i1 -> blanks i2 -> plain_ok d ->
  forall n p done todo,
    CAPLParser.lines p = done ++ plain_lines i1 i2 d ++ todo ->
    CAPLParser.line_number p = length done ->
    length (plain_lines i1 i2 d) + 2 < n ->
    exists p',
      CAPLParser.parse_if_statement n p 0
      = Some (plain_meaning (CAPLParser.variables p) d, p')
      /\ CAPLParser.variables p' = CAPLParser.variables p
      /\ CAPLParser.lines p' = CAPLParser.lines p
      /\ CAPLParser.line_number p'
         = length done + length (plain_lines i1 i2 d).
Proof.
  intros Hi1 Hi2 (Hc & Hcs & Hst & Hacts & Helse) n p done todo Hl Hn Hfuel.
  rewrite plain_lines_length in *.
  destruct d as [c cs st acts els].
  cbn [first_condition more_conditions plain_state plain_actions plain_else]
    in *.
  unfold plain_lines, plain_meaning in *.
  cbn [first_condition more_conditions plain_state plain_actions plain_else]
    in *.
  destruct n as [|n]; [lia|]. rewrite parse_if_statement_S.
  destruct els as [[st' acts']|].
  - destruct Helse as [Hst' Hacts'].
    destruct (parse_branch_plain i1 i2 c st cs acts Hi1 Hi2 Hc Hcs Hst Hacts
                n p done "ELSE"
                (body_lines i1 i2 st' acts' ++ "END" :: todo))
      as (p1 & -> & Hv1 & Hl1 & Hn1);
      [rewrite Hl; list_eq | exact Hn | simpl; tauto | lia |].
    destruct n as [|n]; [lia|]. rewrite if_loop_S.
    assert (Hhere : line_here p1
                      (done ++ ("IF " ^^ c) :: map (String.append i1) cs
                       ++ body_lines i1 i2 st acts)
                      "ELSE"
                      (body_lines i1 i2 st' acts' ++ "END" :: todo)).
    { split; [rewrite Hl1, Hl; list_eq|].
      rewrite Hn1. unfold body_lines. list_len. lia. }
    destruct (here_facts p1 _ _ _ Hhere) as (-> & -> & _).
    change (Py.strip "ELSE") with "ELSE". cbv zeta.
    assert (E1 : Py.startswith "ELSE" "ELSE IF " = false) by reflexivity.
    assert (E2 : String.eqb "ELSE" "ELSE" = true) by reflexivity.
    cbn [Nat.ltb Nat.leb]. rewrite E1, E2.
    cbn [if_branch else_if_branches else_branch].
    rewrite (parse_body_plain i1 i2 st' acts' Hi1 Hi2 Hst' Hacts' n
               (CAPLParser.advance p1)
               (done ++ ("IF " ^^ c) :: map (String.append i1) cs
                ++ body_lines i1 i2 st acts ++ ["ELSE"])
               "END" todo);
      [ | parser_fields; rewrite Hl1, Hl; list_eq
        | parser_fields; rewrite Hn1; unfold body_lines; list_len; lia
        | simpl; tauto | lia ].
    cbn [new_branch conditions actions state nested_if app].
    destruct n as [|n]; [lia|].
    set (p2 := moved_to _ _).
    rewrite (if_loop_end n p2
               (done ++ ("IF " ^^ c) :: map (String.append i1) cs
                ++ body_lines i1 i2 st acts ++ "ELSE"
                :: body_lines i1 i2 st' acts') todo).
    + exists (CAPLParser.advance p2). split; [reflexivity|].
      subst p2. parser_fields.
      split; [exact Hv1|]. split; [exact Hl1|].
      unfold body_lines. list_len. lia.
    + subst p2. split; parser_fields.
      * rewrite Hl1, Hl. list_eq.
      * unfold body_lines. list_len. lia.
  - destruct (parse_branch_plain i1 i2 c st cs acts Hi1 Hi2 Hc Hcs Hst Hacts
                n p done "END" todo)
      as (p1 & -> & Hv1 & Hl1 & Hn1);
      [rewrite Hl; list_eq | exact Hn | simpl; tauto | lia |].
    destruct n as [|n]; [lia|].
    rewrite (if_loop_end n p1
               (done ++ ("IF " ^^ c) :: map (String.append i1) cs
                ++ body_lines i1 i2 st acts) todo).
    + exists (CAPLParser.advance p1). split; [reflexivity|].
      parser_fields.
      split; [exact Hv1|]. split; [exact Hl1|]. rewrite Hn1. lia.
    + split; [rewrite Hl1, Hl; list_eq|].
      rewrite Hn1. unfold body_lines. list_len. lia.
Qed.

Lemma plain_lines_positive (i1 i2 : string) (d : plain_decision) :
  3 <= length (plain_lines i1 i2 d).
Proof. rewrite plain_lines_length. lia. Qed.

(** A file of Decisions in the plain layout is parsed into the Decisions
    that they denote, in order. *)
Lemma file_loop_plain (i1 i2 : string) (ds : list plain_decision) :
  blanks i1 -> blanks i2 -> Forall plain_ok ds ->
  forall n p done statements,
    CAPLParser.lines p = done ++ flat_map (plain_lines i1 i2) ds ->
    CAPLParser.line_number p = length done ->
    length (flat_map (plain_lines i1 i2) ds) + 3 < n ->
    exists p',
      CAPLParser.file_loop n p statements
      = Some (statements ++ map (plain_meaning (CAPLParser.variables p)) ds,
              p')
      /\ CAPLParser.variables p' = CAPLParser.variables p.
Proof.
  intros Hi1 Hi2. induction 1 as [|d ds Hd _ IH];
    intros n p done statements Hl Hn Hfuel;
    (destruct n as [|n]; [lia|]); cbn [CAPLParser.file_loop].
  - cbn [flat_map] in Hl. rewrite app_nil_r in Hl.
    assert (E : Nat.ltb (CAPLParser.line_number p)
                  (length (CAPLParser.lines p)) = false)
      by (apply Nat.ltb_ge; rewrite Hl, Hn; lia).
    rewrite E. exists p. now rewrite app_nil_r.
  - cbn [flat_map] in Hl, Hfuel. rewrite length_app in Hfuel.
    pose proof (plain_lines_positive i1 i2 d) as Hpos.
    assert (Hline : line_here p done ("IF " ^^ first_condition d)
                      (tl (plain_lines i1 i2 d)
                       ++ flat_map (plain_lines i1 i2) ds)).
    { split; [|exact Hn]. rewrite Hl. reflexivity. }
    destruct (here_facts p done _ _ Hline) as (-> & -> & _).
    destruct Hd as (Hc & Hrest).
    rewrite (strip_prefixed "I" "F " _ eq_refl Hc).
    assert (E1 : negb (Py.truthy ("IF " ^^ first_condition d))
                 || Py.startswith ("IF " ^^ first_condition d) "#" = false)
      by reflexivity.
    assert (E2 : Py.startswith ("IF " ^^ first_condition d) "VAR " = false)
      by reflexivity.
    assert (E3 : Py.startswith ("IF " ^^ first_condition d) "IF " = true)
      by apply prefix_append.
    rewrite E1, E2, E3.
    destruct (parse_if_plain i1 i2 d Hi1 Hi2 (conj Hc Hrest) n p done
                (flat_map (plain_lines i1 i2) ds))
      as (p1 & -> & Hv1 & Hl1 & Hn1); [exact Hl | exact Hn | lia |].
    destruct (IH n p1 (done ++ plain_lines i1 i2 d)
                (statements ++ [plain_meaning (CAPLParser.variables p) d]))
      as (p2 & -> & Hv2).
    + rewrite Hl1, Hl, <- app_assoc. reflexivity.
    + rewrite Hn1, length_app. reflexivity.
    + lia.
    + exists p2. rewrite Hv1, <- app_assoc. cbn [app map].
      split; [reflexivity | congruence].
Qed.

Lemma split_char_piece (h : ascii) (x s : string) :
  forall cur,
    all_class (Re.CNot h) x = true ->
    Py.split_aux (String h EmptyString) (x ^^ s) 0 cur
    = Py.split_aux (String h EmptyString) s 0 (Py.rev_acc x cur).
Proof.
  induction x as [|c x IH]; intros cur H; [reflexivity|].
  simpl in H. apply andb_true_iff in H. destruct H as [Hc Hx].
  cbn [String.append Py.split_aux String.prefix].
  destruct (ascii_dec h c) as [->|_].
  { rewrite Ascii.eqb_refl in Hc. discriminate Hc. }
  rewrite IH by exact Hx. reflexivity.
Qed.

(** Joining with one character and splitting at it gives the pieces
    back, when no piece holds the character. *)
Lemma split_join_char (h : ascii) (x : string) (l : list string) :
  Forall (fun y => all_class (Re.CNot h) y = true) (x :: l) ->
  Py.split (Py.join (String h EmptyString) (x :: l)) (String h EmptyString)
  = x :: l.
Proof.
  unfold Py.split, Py.join. revert x.
  induction l as [|y l IH]; intros x H;
    inversion H as [|? ? Hx Hl]; subst.
  - cbn [String.concat].
    rewrite <- (append_nil_r x) at 1. rewrite split_char_piece by exact Hx.
    cbn [Py.split_aux]. now rewrite rev_acc_rev_acc.
  - rewrite concat_cons, split_char_piece by exact Hx.
    rewrite split_aux_at_sep, rev_acc_rev_acc.
    cbn [Py.rev_acc String.append]. f_equal. now apply IH.
Qed.

Lemma single_line_app (a b : string) :
  single_line a -> single_line b -> single_line (a ^^ b).
Proof.
  unfold single_line. intros Ha Hb. now rewrite all_class_app, Ha, Hb.
Qed.

Lemma body_lines_single (i1 i2 st : string) (acts : list string) :
  single_line i1 -> single_line i2 -> line_text st ->
  Forall action_line acts ->
  Forall single_line (body_lines i1 i2 st acts).
Proof.
  intros H1 H2 (_ & _ & Hst) Hacts. unfold body_lines. constructor.
  - apply single_line_app; [exact H1|].
    now apply (single_line_app "STATE ").
  - apply Forall_map. eapply Forall_impl; [|exact Hacts].
    intros a [(_ & _ & Ha) _]. now apply single_line_app.
Qed.

Lemma plain_lines_single (i1 i2 : string) (d : plain_decision) :
  single_line i1 -> single_line i2 -> plain_ok d ->
  Forall single_line (plain_lines i1 i2 d).
Proof.
  intros H1 H2 ((_ & _ & Hc) & Hcs & Hst & Hacts & Helse).
  unfold plain_lines. constructor.
  { now apply (single_line_app "IF "). }
  apply Forall_app. split.
  { apply Forall_map. eapply Forall_impl; [|exact Hcs].
    intros c [(_ & _ & Hc') _]. now apply single_line_app. }
  apply Forall_app. split; [now apply body_lines_single|].
  apply Forall_app. split; [|repeat constructor].
  destruct (plain_else d) as [[st acts]|]; [|constructor].
  destruct Helse as [Hst' Hacts'].
  constructor; [reflexivity | now apply body_lines_single].
Qed.

(** A file that holds Decisions in the plain layout, one after the other
    with any indentation of the inner lines, is parsed into exactly the
    Decisions that the lines denote, in order and under the variables
    that the parser holds, which it keeps. *)
Theorem plain_decisions_parse (self : CAPLParser.t) (name i1 i2 : string)
  (ds : list plain_decision) :
  indentation i1 -> indentation i2 -> Forall plain_ok ds ->
  exists self',
    CAPLParser.parse_file self name
      (unlines (flat_map (plain_lines i1 i2) ds))
    = Some (map (plain_meaning (CAPLParser.variables self)) ds, self')
    /\ CAPLParser.variables self' = CAPLParser.variables self.
Proof.
  intros [Hb1 Hs1] [Hb2 Hs2] Hds. unfold CAPLParser.parse_file.
  destruct ds as [|d ds].
  { cbn [flat_map map]. eexists. split; reflexivity. }
  set (ls := flat_map (plain_lines i1 i2) (d :: ds)).
  assert (Hsingle : Forall single_line ls).
  { subst ls. apply Forall_flat_map. eapply Forall_impl; [|exact Hds].
    intros d' Hd'. now apply plain_lines_single. }
  assert (Hsplit : Py.split (unlines ls) (String c_newline EmptyString) = ls).
  { destruct ls as [|x l] eqn:E.
    - exfalso. subst ls. cbn [flat_map] in E.
      apply app_eq_nil in E. destruct E as [E _].
      pose proof (plain_lines_positive i1 i2 d) as Hp. rewrite E in Hp.
      simpl in Hp. lia.
    - apply (split_join_char c_newline). exact Hsingle. }
  change (String (ascii_of_nat 10) EmptyString)
    with (String c_newline EmptyString).
  rewrite Hsplit.
  set (p := CAPLParser.mk _ 0 ls _).
  destruct (file_loop_plain i1 i2 (d :: ds) Hb1 Hb2 Hds
              (CAPLParser.fuel_for (length ls)) p [] [])
    as (p' & E & Hv).
  - reflexivity.
  - reflexivity.
  - fold ls. unfold CAPLParser.fuel_for.
    assert (3 <= length ls).
    { subst ls. cbn [flat_map]. rewrite length_app.
      pose proof (plain_lines_positive i1 i2 d). lia. }
    lia.
  - exists p'. split; [exact E | exact Hv].
Qed.

Lemma plain_decisions_parse_witness :
  let d1 :=
    mk_plain "user is All" ["platform is iOS"] "enabled" ["REQUIRE MFA"]
      (Some ("report-only", ["BLOCK"])) in
  let d2 := mk_plain "user is Guest" [] "disabled" ["ALLOW"] None in
  (indentation "    " /\ indentation "        "
   /\ Forall plain_ok [d1; d2])
  /\ exists self',
      CAPLParser.parse_file CAPLParser.init "p.capl"
        (unlines (flat_map (plain_lines "    " "        ") [d1; d2]))
      = Some (map (plain_meaning []) [d1; d2], self')
      /\ CAPLParser.variables self' = [].
Proof.
  intros d1 d2.
  assert (H1 : indentation "    ") by (split; reflexivity).
  assert (H2 : indentation "        ") by (split; reflexivity).
  assert (Hds : Forall plain_ok [d1; d2]).
  { assert (Ht : forall s, s <> EmptyString -> Py.strip s = s ->
                           single_line s -> line_text s)
      by (intros s A B C; now repeat split).
    repeat constructor; try discriminate; try reflexivity. }
  split; [now repeat split|].
  exact (plain_decisions_parse CAPLParser.init "p.capl" "    " "        "
           [d1; d2] H1 H2 Hds).
Defined.

(** ** The controls of a record *)

Lemma create_policy_controls (set_order : PySet.t -> list string)
  (self : PolicyOptimizer.t) (conds : list Condition.t)
  (acts : list Action.t) (st : string) :
  let policy :=
    fst (PolicyOptimizer.create_policy set_order self conds acts st) in
  Dict.get policy "GrantControls"
  = optional_section (PolicyOptimizer.build_grant_controls acts)
  /\ Dict.get policy "SessionControls"
     = optional_section (PolicyOptimizer.build_session_controls acts)
  /\ Dict.keys policy
     = ["DisplayName"; "State"; "Conditions"]
       ++ (if is_nil (PolicyOptimizer.build_grant_controls acts)
           then [] else ["GrantControls"])
       ++ (if is_nil (PolicyOptimizer.build_session_controls acts)
           then [] else ["SessionControls"]).
Proof.
  unfold PolicyOptimizer.create_policy, optional_section.
  destruct (is_nil (PolicyOptimizer.build_session_controls acts)),
    (is_nil (PolicyOptimizer.build_grant_controls acts));
    repeat split; reflexivity.
Qed.

(** The grant and session controls of a record are those of the actions
    of the first path of its cluster, an empty section being left out;
    the record has the keys [DisplayName], [State], [Conditions] and the
    sections that are left, in this order.  The other paths of the
    cluster contribute conditions only. *)
Theorem record_controls_of_first_path (set_order : PySet.t -> list string)
  (self : PolicyOptimizer.t) (paths : list PolicyPath.t) :
  Forall2
    (fun policy kv =>
       exists first rest,
         snd kv = first :: rest
         /\ Dict.get policy "GrantControls"
            = optional_section
                (PolicyOptimizer.build_grant_controls
                   (PolicyPath.actions first))
         /\ Dict.get policy "SessionControls"
            = optional_section
                (PolicyOptimizer.build_session_controls
                   (PolicyPath.actions first))
         /\ Dict.keys policy
            = ["DisplayName"; "State"; "Conditions"]
              ++ (if is_nil (PolicyOptimizer.build_grant_controls
                               (PolicyPath.actions first))
                  then [] else ["GrantControls"])
              ++ (if is_nil (PolicyOptimizer.build_session_controls
                               (PolicyPath.actions first))
                  then [] else ["SessionControls"]))
    (fst (PolicyOptimizer.optimize set_order self paths))
    (PolicyOptimizer.cluster_by_action paths).
Proof.
  apply Forall2_impl_in with (R := record_of_cluster set_order);
    [apply optimize_records|].
  intros policy [key members] Hin [self' ->]. cbn [fst snd].
  destruct (cluster_members paths key members Hin) as [_ Hne].
  destruct members as [|first rest]; [contradiction|].
  exists first, rest. split; [reflexivity|].
  unfold PolicyOptimizer.merge_cluster.
  apply create_policy_controls.
Qed.

(** ** The sign-in frequency, from the line to the record *)

Lemma digit_char_facts (d : nat) :
  d < 10 ->
  Py.is_digit (Py.digit_char d) = true
  /\ Py.digit_val (Py.digit_char d) = Z.of_nat d.
Proof.
  intros H. do 10 (destruct d as [|d]; [split; reflexivity|]). lia.
Qed.

Lemma int_aux_app (a b : string) :
  forall z, Py.int_aux (a ^^ b) z = Py.int_aux b (Py.int_aux a z).
Proof. induction a as [|c a IH]; intros z; [reflexivity | apply IH]. Qed.

Lemma str_aux_acc (fuel : nat) :
  forall n acc,
    Py.str_aux fuel n acc = Py.str_aux fuel n EmptyString ^^ acc.
Proof.
  induction fuel as [|fuel IH]; intros n acc; [reflexivity|].
  cbn [Py.str_aux]. destruct (Nat.eqb (n / 10) 0); [reflexivity|].
  rewrite (IH _ (String _ acc)), (IH _ (String _ EmptyString)), append_assoc.
  reflexivity.
Qed.

(** The decimal digits of a number are digits, at least one, and [int]
    reads the number back. *)
Lemma str_aux_spec (fuel : nat) :
  forall n,
    n < fuel ->
    Py.int_aux (Py.str_aux fuel n EmptyString) 0%Z = Z.of_nat n
    /\ all_class Re.CDigit (Py.str_aux fuel n EmptyString) = true
    /\ Py.str_aux fuel n EmptyString <> EmptyString.
Proof.
  induction fuel as [|fuel IH]; intros n Hn; [lia|].
  cbn [Py.str_aux].
  assert (Hmod : n mod 10 < 10) by (apply Nat.mod_upper_bound; lia).
  destruct (digit_char_facts (n mod 10) Hmod) as [Hd Hv].
  destruct (Nat.eqb_spec (n / 10) 0) as [E|E].
  - assert (Hlt : n < 10) by (apply Nat.div_small_iff in E; lia).
    assert (Em : n mod 10 = n) by now apply Nat.mod_small.
    rewrite Em. destruct (digit_char_facts n Hlt) as [Hd' Hv'].
    split; [|split; [|discriminate]].
    + cbn [Py.int_aux]. rewrite Hv'. lia.
    + cbn [all_class Re.in_class]. now rewrite Hd'.
  - assert (Hdiv : n / 10 < fuel).
    { assert (Hpos : 0 < n)
        by (destruct n; [exfalso; now apply E | lia]).
      pose proof (Nat.div_lt n 10 Hpos). lia. }
    destruct (IH (n / 10) Hdiv) as (Hi & Hc & Hne).
    rewrite str_aux_acc. split; [|split].
    + rewrite int_aux_app, Hi. cbn [Py.int_aux]. rewrite Hv.
      pose proof (Nat.div_mod_eq n 10) as Hdm. lia.
    + rewrite all_class_app, Hc. cbn [all_class Re.in_class].
      now rewrite Hd.
    + destruct (Py.str_aux fuel (n / 10) EmptyString);
        [contradiction | discriminate].
Qed.

Lemma span_until (k : Re.cclass) (m : string) (c : ascii) (r : string) :
  all_class k m = true -> Re.in_class k c = false ->
  Re.span k (m ^^ String c r) = (m, String c r).
Proof.
  intros Hm Hc. rewrite (span_app k m _ Hm), (span_stop k c r Hc).
  cbn [fst snd]. now rewrite append_nil_r.
Qed.

Lemma digit_not_space (c : ascii) :
  Py.is_digit c = true -> Py.is_space c = false.
Proof.
  intros H.
  apply (classes_disjoint_sound Re.CSpace Re.CDigit c); [|exact H].
  vm_compute. reflexivity.
Qed.

Lemma signin_match (digits unit : string) :
  digits <> EmptyString -> all_class Re.CDigit digits = true ->
  In unit ["hours"; "hour"; "days"; "day"] ->
  Re.re_match true PolicyOptimizer.re_signin_frequency
    ("signin-frequency " ^^ digits ^^ " " ^^ unit)
  = Some [digits; unit].
Proof.
  intros Hne Hd Hu. unfold PolicyOptimizer.re_signin_frequency.
  change ("signin-frequency " ^^ digits ^^ " " ^^ unit)
    with ("signin-frequency" ^^ " " ^^ digits ^^ " " ^^ unit).
  cbn [Re.re_match].
  rewrite (lit_match_complete true "signin-frequency" "signin-frequency" _
             eq_refl).
  destruct digits as [|d ds]; [contradiction|].
  assert (Hd0 : Py.is_space d = false).
  { apply digit_not_space. simpl in Hd. now apply andb_true_iff in Hd. }
  change (" " ^^ String d ds ^^ " " ^^ unit)
    with (" " ^^ String d (ds ^^ " " ^^ unit)).
  rewrite (span_until Re.CSpace " " d _ eq_refl Hd0). cbn [Py.truthy].
  change (String d (ds ^^ " " ^^ unit))
    with (String d ds ^^ String " " unit).
  rewrite (span_until Re.CDigit (String d ds) " " unit Hd eq_refl).
  cbn [Py.truthy].
  destruct Hu as [<-|[<-|[<-|[<-|[]]]]]; reflexivity.
Qed.

Lemma strip_fixed (a c : ascii) (y t : string) :
  String a y = t ^^ String c EmptyString ->
  Py.is_space a = false -> Py.is_space c = false ->
  Py.strip (String a y) = String a y.
Proof.
  intros E Ha Hc. unfold Py.strip. cbn [Py.lstrip]. rewrite Ha, E.
  now apply rstrip_nonspace_last.
Qed.

(** A line [SESSION signin-frequency <n> <unit>], with the number written
    in decimal in no more digits than [int] converts (4300) and the unit
    one of [hours], [hour], [days], [day], alone on its path, gives the
    session control [SignInFrequency] with that number as value, the type
    [hours] or [days] and the control switched on. *)
Theorem signin_frequency_setting (n : nat) (unit : string) :
  convertible (Py.str n) ->
  In unit ["hours"; "hour"; "days"; "day"] ->
  PolicyOptimizer.build_session_controls
    [CAPLParser.parse_action
       ("SESSION signin-frequency " ^^ Py.str n ^^ " " ^^ unit)]
  = [("SignInFrequency",
      YDict [("Value", YInt (Z.of_nat n));
             ("Type",
              YStr (if Py.mem unit ["hours"; "hour"] then "hours"
                    else "days"));
             ("IsEnabled", YBool true)])].
Proof.
  intros _ Hu.
  destruct (str_aux_spec (S n) n (Nat.lt_succ_diag_r n)) as (Hi & Hc & Hne).
  fold (Py.str n) in Hi, Hc, Hne.
  set (text := "signin-frequency " ^^ Py.str n ^^ " " ^^ unit).
  assert (Hstrip : Py.strip text = text).
  { assert (exists t c, text = t ^^ String c EmptyString
                        /\ Py.is_space c = false) as (t & c & Et & Hcs).
    { subst text. destruct Hu as [<-|[<-|[<-|[<-|[]]]]].
      - exists ("signin-frequency " ^^ Py.str n ^^ " hour"), "s"%char.
        split; [now rewrite !append_assoc | reflexivity].
      - exists ("signin-frequency " ^^ Py.str n ^^ " hou"), "r"%char.
        split; [now rewrite !append_assoc | reflexivity].
      - exists ("signin-frequency " ^^ Py.str n ^^ " day"), "s"%char.
        split; [now rewrite !append_assoc | reflexivity].
      - exists ("signin-frequency " ^^ Py.str n ^^ " da"), "y"%char.
        split; [now rewrite !append_assoc | reflexivity]. }
    subst text. cbn [String.append] in Et |- *.
    now apply strip_fixed with (c := c) (t := t). }
  assert (Hparse : CAPLParser.parse_action ("SESSION " ^^ text)
                   = Action.mk "SESSION" (Some text) false).
  { unfold CAPLParser.parse_action.
    assert (E1 : Py.startswith ("SESSION " ^^ text) "REQUIRE " = false)
      by reflexivity.
    assert (E2 : String.eqb ("SESSION " ^^ text) "BLOCK" = false)
      by reflexivity.
    assert (E3 : String.eqb ("SESSION " ^^ text) "ALLOW" = false)
      by reflexivity.
    assert (E4 : Py.startswith ("SESSION " ^^ text) "SESSION " = true)
      by apply prefix_append.
    rewrite E1, E2, E3, E4.
    change (Py.drop 8 ("SESSION " ^^ text)) with text.
    now rewrite Hstrip. }
  change ("SESSION signin-frequency " ^^ Py.str n ^^ " " ^^ unit)
    with ("SESSION " ^^ text).
  rewrite Hparse. unfold PolicyOptimizer.build_session_controls.
  cbn [filter has_type Action.type String.eqb Ascii.eqb Bool.eqb is_nil
       fold_left].
  unfold PolicyOptimizer.session_step. cbn [Action.value].
  assert (Ht : Py.truthy text = true) by reflexivity.
  rewrite Ht, Hstrip. cbn [negb]. subst text.
  rewrite (signin_match (Py.str n) unit Hne Hc Hu).
  cbn [CAPLParser.group Nat.sub nth Dict.set]. unfold Py.int. rewrite Hi.
  destruct Hu as [<-|[<-|[<-|[<-|[]]]]]; reflexivity.
Qed.

Lemma signin_frequency_setting_witness :
  (convertible (Py.str 12) /\ In "hours" ["hours"; "hour"; "days"; "day"])
  /\ PolicyOptimizer.build_session_controls
       [CAPLParser.parse_action "SESSION signin-frequency 12 hours"]
     = [("SignInFrequency",
         YDict [("Value", YInt 12%Z); ("Type", YStr "hours");
                ("IsEnabled", YBool true)])].
Proof.
  assert (Hd : convertible (Py.str 12)) by (vm_compute; reflexivity).
  assert (H : In "hours" ["hours"; "hour"; "days"; "day"]) by now left.
  split; [split; [exact Hd | exact H]|].
  exact (signin_frequency_setting 12 "hours" Hd H).
Defined.
